(** * INSECT-DETECTION-PROJECT: a shallow embedding of the capture loop,
      the peripheral wrapper and the log reader

    The development follows the three Python files under [CODES/]:
    - [insect.py]      : module [Insect]  (distance estimate, per-detection
                         bookkeeping, periodic snapshots of the summary);
    - [oledandled.py]  : module [OledAndLed] (LED and OLED helpers);
    - [Llm.py]         : module [Llm] (reading the log back as sessions).

    Modelling conventions.
    - Python [int] is [Z]; [//] on ints is [Z.div] (floor division).
    - Python [float] has two readings.  In module [Insect], which follows
      the whole capture program, a float is carried as a rational ([Q]) that
      stands for the binary64 number nearest to it, [Py.fl]; the only
      non-finite value the program creates, [float('inf')], is the
      constructor [Py.Infinity].  What reaches the log goes through binary64
      as in the program: the angle of a detection is computed with a
      rounding to binary64 after each operation, [round(x, n)] rounds the
      binary64 number its argument stands for, half to even on its exact
      value, and the comparison with the stored nearest distance compares
      binary64 numbers.  The decimal [round] returns stands for the
      binary64 number nearest to it, which is the float Python returns and
      prints as that decimal.  Overflow to infinity is outside this
      reading.  Module [Binary64] gives the two closed-form float
      computations of the program (the distance estimate and the speed
      update) on IEEE 754 binary64 values, NaN, infinities and signed zeros
      included, with the operations Python performs on them.
    - [np.sqrt] is an external function; it is a parameter of the model.
    - A Python exception is a [Py.Raise] result.  Division by a run-time
      value is checked ([Py.truediv]); division by a literal is not.
    - A [dict] whose iteration order reaches the log file is an association
      list with unique keys in insertion order ([Py.dict_set]); the other
      dicts are [gmap]s.
    - Effects on the outside world (file writes, GPIO and I2C operations)
      are recorded in a trace of events; the trace is the only component of
      the model that is not a variable of the program.
    - The drawing, display and video calls of the capture loop are left out,
      and so is its OLED/LED block (lines 260-282), which runs under
      [try/except Exception] and touches none of the loop's memory. *)

From Stdlib Require Import ZArith QArith Qround Qminmax Qabs Qpower Lqa Lia Floats.
From stdpp Require Import gmap strings list fin_maps pretty.

Local Open Scope string_scope.
Local Open Scope Q_scope.

(** ** Python values and primitives *)

Module Py.

Inductive exn : Type :=
| ZeroDivisionError
| AttributeError
| TypeError
| JSONDecodeError
| OSError
| HardwareError.

Inductive result (A : Type) : Type :=
| Ok (a : A)
| Raise (e : exn).
Arguments Ok {A} a.
Arguments Raise {A} e.

Definition bind {A B : Type} (r : result A) (k : A -> result B) : result B :=
  match r with
  | Ok a => k a
  | Raise e => Raise e
  end.

(** [x / y] on floats: raises [ZeroDivisionError] on a zero divisor. *)
Definition truediv (x y : Q) : result Q :=
  if Qeq_bool y 0 then Raise ZeroDivisionError else Ok (x / y).

Definition Qlt_bool (x y : Q) : bool :=
  match x ?= y with Lt => true | _ => false end.

(** Nearest integer, ties to the even one. *)
Definition round_half_even (q : Q) : Z :=
  let f := Qfloor q in
  match ((q - inject_Z f) ?= (1 # 2))%Q with
  | Lt => f
  | Gt => (f + 1)%Z
  | Eq => if Z.even f then f else (f + 1)%Z
  end.

(** [floor (log2 q)] for [0 < q]. *)
Definition ilog2 (q : Q) : Z :=
  let g := (Z.log2 (Qnum q) - Z.log2 (Zpos (Qden q)))%Z in
  if Qle_bool (2 ^ g) q then g else (g - 1)%Z.

(** The binary64 number nearest to [q], ties to the even significand: 53
    significant bits, exponents from [-1074] up.  It is what a float
    literal, a conversion from [int] and a single float operation give for
    the exact value [q]. *)
Definition fl (q : Q) : Q :=
  if Qeq_bool q 0 then 0
  else
    let e := Z.max (ilog2 (Qabs q) - 52) (-1074) in
    inject_Z (round_half_even (q / 2 ^ e)) * 2 ^ e.

(** The exact value of a finite binary64 number. *)
Definition to_Q (x : PrimFloat.float) : option Q :=
  match Prim2SF x with
  | SpecFloat.S754_zero _ => Some 0
  | SpecFloat.S754_finite s m e =>
      Some (inject_Z (if s then Zneg m else Zpos m) * 2 ^ e)
  | _ => None
  end.

(** A float that may be [float('inf')]. *)
Inductive float : Type :=
| Finite (q : Q)
| Infinity.

(** [x < y] for a finite [x]. *)
Definition lt_float (x : Q) (y : float) : bool :=
  match y with
  | Finite q => Qlt_bool (fl x) (fl q)
  | Infinity => true
  end.

Definition pow10 (n : nat) : positive := Pos.pow 10 (Pos.of_nat n).

(** [round(x, ndigits)] for [ndigits >= 1]: the exact value of the float
    is rounded half to even at [ndigits] decimals. *)
Definition round (x : Q) (ndigits : nat) : Q :=
  round_half_even (fl x * (Zpos (pow10 ndigits) # 1)) # pow10 ndigits.

(** [int(x)]: truncation towards zero. *)
Definition int (x : Q) : Z :=
  if Qle_bool 0 x then Qfloor x else Qceiling x.

(** Insertion-ordered dictionaries with string keys. *)
Section Dict.
Context {V : Type}.

Fixpoint dict_get (k : string) (d : list (string * V)) : option V :=
  match d with
  | [] => None
  | (k', v) :: d' => if decide (k = k') then Some v else dict_get k d'
  end.

(** [d[k] = v]: an existing key keeps its position. *)
Fixpoint dict_set (k : string) (v : V) (d : list (string * V))
  : list (string * V) :=
  match d with
  | [] => [(k, v)]
  | (k', v') :: d' =>
      if decide (k = k') then (k, v) :: d' else (k', v') :: dict_set k v d'
  end.

Definition dict_keys (d : list (string * V)) : list string := d.*1.
End Dict.

(** JSON documents as [json.load] returns them. *)
#[local] Unset Elimination Schemes.
Inductive json : Type :=
| JNull
| JBool (b : bool)
| JInt (z : Z)
| JFloat (x : float)
| JStr (s : string)
| JArr (l : list json)
| JObj (kv : list (string * json)).
#[local] Set Elimination Schemes.

(** [collections.deque(maxlen=...)]. *)
Record deque (A : Type) : Type := Deque { maxlen : nat; items : list A }.
Arguments Deque {A} maxlen items.
Arguments maxlen {A} d.
Arguments items {A} d.

(** [d.append(x)]: append on the right, then drop from the left when the
    bound is exceeded. *)
Definition deque_append {A : Type} (x : A) (d : deque A) : deque A :=
  let l := (items d ++ [x])%list in
  Deque (maxlen d) (if (maxlen d <? length l)%nat then tail l else l).

End Py.

#[global] Instance result_ret : MRet Py.result := @Py.Ok.
#[global] Instance result_bind : MBind Py.result :=
  fun A B k r => Py.bind r k.

(** ** insect.py *)

Module Insect.
Import Py.

(** *** CONFIG *)

Definition INFER_RES : Z := 640.
Definition MIN_BOX_SIZE : Z := 10.
Definition CLASS_LABELS : gmap Z string := {[ 2%Z := "fly"; 3%Z := "Cockroach" ]}.
Definition REAL_WIDTHS_M : gmap string Q :=
  {[ "fly" := 8 # 100; "Cockroach" := 8 # 100 ]}.
Definition FOCAL_LENGTH_PIXELS : Q := 1200.
Definition RADAR_SIZE : Z := 300.
Definition RADAR_RANGE_M : Q := 1.
Definition MAX_TRAIL : nat := 30.

(** [label in CLASS_LABELS.values()] *)
Definition in_class_labels (label : string) : bool :=
  bool_decide (label ∈ (map_to_list CLASS_LABELS).*2).

(** *** Memory *)

(** One entry of [species_summary]. *)
Record info : Type := Info {
  count : Z;
  entry_angle_deg : Q;
  exit_angle_deg : Q;
  entry_distance_m : Q;
  exit_distance_m : Q
}.

(** The [nearest_encounter] dict; [None] is Python's [None]. *)
Record nearest : Type := Nearest {
  distance_m : float;
  frame : option nat;
  label : option string;
  angle_deg : option Q
}.

(** What a run consumed and what it did to the outside world, most recent
    event first: a detection processed by the loop over [detections], a call
    of [save_species_summary_to_json], a call of [save_json]. *)
Inductive event : Type :=
| Detected (frame_id : nat) (lbl : string) (dist angle : Q)
| Snapshot (frame_id : nat) (timestamp : string)
| FileWrite (content : list (string * json)).

(** The module-level variables of lines 46-51, 67-75, and the trace. *)
Record state : Type := State {
  prev_centers : gmap string (Z * Z);
  trajectories : gmap string (deque (Z * Z));
  prev_time : Q;
  speed_tracker : gmap string (Z * Z * Q * Q);
  species_summary : list (string * info);
  nearest_encounter : nearest;
  json_data : list (string * json);
  frame_id : nat;
  trace : list event
}.

(** The module-level initialisation; [loaded] is what lines 64-73 leave in
    [json_data] (the dict read from an existing log, or the empty dict). *)
Definition init (loaded : list (string * json)) : state :=
  {| prev_centers := ∅;
     trajectories := ∅;
     prev_time := 0;
     speed_tracker := ∅;
     species_summary := [];
     nearest_encounter :=
       {| distance_m := Infinity; frame := None; label := None;
          angle_deg := None |};
     json_data := loaded;
     frame_id := 0;
     trace := [] |}.

(** *** FUNCTIONS *)

(** Lines 80-86: the dump of [json_data] is an event of the trace (a
    failing dump is caught and printed by the program). *)
Definition save_json (st : state) : state :=
  {| prev_centers := prev_centers st;
     trajectories := trajectories st;
     prev_time := prev_time st;
     speed_tracker := speed_tracker st;
     species_summary := species_summary st;
     nearest_encounter := nearest_encounter st;
     json_data := json_data st;
     frame_id := frame_id st;
     trace := FileWrite (json_data st) :: trace st |}.

(** Lines 88-91. *)
Definition get_distance_meters (width_px real_width_m focal_px : Q)
  : result Q :=
  if Qle_bool width_px 0 || Qle_bool focal_px 0 || Qle_bool real_width_m 0
  then Ok 0
  else truediv (real_width_m * focal_px) width_px.

(** The value stored under one label of a snapshot (lines 140-146). *)
Definition summary_entry (i : info) : json :=
  JObj [ ("start_distance_m", JFloat (Finite (round (entry_distance_m i) 2)));
         ("end_distance_m", JFloat (Finite (round (exit_distance_m i) 2)));
         ("start_angle_deg", JFloat (Finite (round (entry_angle_deg i) 1)));
         ("end_angle_deg", JFloat (Finite (round (exit_angle_deg i) 1)));
         ("count", JInt (count i)) ].

(** The loop of lines 139-146, filling [json_data[timestamp]]. *)
Definition summary_snapshot (summary : list (string * info))
  : list (string * json) :=
  foldl (fun acc '(lbl, i) => dict_set lbl (summary_entry i) acc) [] summary.

(** Lines 135-147; [timestamp] is [datetime.now().isoformat()]. *)
Definition save_species_summary_to_json (timestamp : string) (st : state)
  : state :=
  save_json
    {| prev_centers := prev_centers st;
       trajectories := trajectories st;
       prev_time := prev_time st;
       speed_tracker := speed_tracker st;
       species_summary := species_summary st;
       nearest_encounter := nearest_encounter st;
       json_data :=
         dict_set timestamp (JObj (summary_snapshot (species_summary st)))
           (json_data st);
       frame_id := frame_id st;
       trace := Snapshot (frame_id st) timestamp :: trace st |}.

(** *** MAIN LOOP *)

(** One box of [r.boxes]: [box.xyxy[0]] through [int], [box.cls[0]] and
    [box.conf[0]]. *)
Record raw_box : Type := RawBox {
  bx1 : Z; by1 : Z; bx2 : Z; by2 : Z;
  cls_id : Z;
  box_conf : Q
}.

(** One element of the list [model.predict] returns. *)
Record model_result : Type := ModelResult {
  names : gmap Z string;
  boxes : list raw_box
}.

(** A captured frame with what the two models predict on it (the results
    of the first model followed by those of the second).  A frame has at
    least one row and one column. *)
Record captured_frame : Type := Frame {
  shape0 : positive;
  shape1 : positive;
  predictions : list model_result
}.

(** An element of [detections]. *)
Record detection : Type := Detection {
  d_x1 : Z; d_y1 : Z; d_x2 : Z; d_y2 : Z;
  d_label : string;
  d_distance_m : Q;
  d_conf : Q
}.

(** Lines 165-182 for one box; [None] is a [continue]. *)
Definition detect_box (f : captured_frame) (r : model_result) (b : raw_box)
  : result (option detection) :=
  let scale_x := inject_Z (Zpos (shape1 f)) / inject_Z INFER_RES in
  let scale_y := inject_Z (Zpos (shape0 f)) / inject_Z INFER_RES in
  let x1 := int (inject_Z (bx1 b) * scale_x) in
  let x2 := int (inject_Z (bx2 b) * scale_x) in
  let y1 := int (inject_Z (by1 b) * scale_y) in
  let y2 := int (inject_Z (by2 b) * scale_y) in
  let w := (x2 - x1)%Z in
  let h := (y2 - y1)%Z in
  if (w <? MIN_BOX_SIZE)%Z || (h <? MIN_BOX_SIZE)%Z then Ok None
  else
    let lbl :=
      default (default ("Class " +:+ pretty (cls_id b)) (names r !! cls_id b))
              (CLASS_LABELS !! cls_id b) in
    if negb (in_class_labels lbl) then Ok None
    else
      let real_w_m := default (1 # 100) (REAL_WIDTHS_M !! lbl) in
      let width_px := inject_Z w in
      dist ← get_distance_meters width_px real_w_m FOCAL_LENGTH_PIXELS;
      Ok (Some {| d_x1 := x1; d_y1 := y1; d_x2 := x2; d_y2 := y2;
                  d_label := lbl; d_distance_m := dist;
                  d_conf := box_conf b |}).

Fixpoint detect_boxes (f : captured_frame) (r : model_result)
    (bs : list raw_box) (detections : list detection)
  : result (list detection) :=
  match bs with
  | [] => Ok detections
  | b :: bs' =>
      od ← detect_box f r b;
      detect_boxes f r bs'
        (match od with
         | Some d => (detections ++ [d])%list
         | None => detections
         end)
  end.

Fixpoint detect_results (f : captured_frame) (rs : list model_result)
    (detections : list detection) : result (list detection) :=
  match rs with
  | [] => Ok detections
  | r :: rs' =>
      detections' ← detect_boxes f r (boxes r) detections;
      detect_results f rs' detections'
  end.

(** Lines 158-182. *)
Definition detect (f : captured_frame) : result (list detection) :=
  detect_results f (predictions f) [].

Section MainLoop.
(** [np.sqrt] on a Python int. *)
Variable np_sqrt : Z -> Q.

(** Lines 195-205. *)
Definition update_speed (now : Q) (lbl : string) (cx cy : Z)
    (tracker : gmap string (Z * Z * Q * Q))
  : result (gmap string (Z * Z * Q * Q)) :=
  match tracker !! lbl with
  | Some (px, py, pt, prev_speed) =>
      let dt := now - pt in
      if Qlt_bool 0 dt then
        let dist_px := np_sqrt ((cx - px) ^ 2 + (cy - py) ^ 2)%Z in
        speed_mps ← truediv (dist_px * (2 # 100)) dt;
        Ok (<[lbl := (cx, cy, now, speed_mps)]> tracker)
      else Ok tracker
  | None => Ok (<[lbl := (cx, cy, now, 0)]> tracker)
  end.

(** Lines 207-218. *)
Definition update_summary (lbl : string) (angle dist : Q)
    (summary : list (string * info)) : list (string * info) :=
  let summary1 :=
    match dict_get lbl summary with
    | Some _ => summary
    | None =>
        dict_set lbl
          {| count := 0;
             entry_angle_deg := round angle 1;
             exit_angle_deg := round angle 1;
             entry_distance_m := round dist 2;
             exit_distance_m := round dist 2 |} summary
    end in
  match dict_get lbl summary1 with
  | Some i =>
      dict_set lbl
        {| count := count i + 1;
           entry_angle_deg := entry_angle_deg i;
           exit_angle_deg := round angle 1;
           entry_distance_m := entry_distance_m i;
           exit_distance_m := round dist 2 |} summary1
  | None => summary1
  end.

(** Lines 220-227. *)
Definition update_nearest (fid : nat) (lbl : string) (dist angle : Q)
    (n : nearest) : nearest :=
  if lt_float dist (distance_m n) then
    {| distance_m := Finite (round dist 3);
       frame := Some fid;
       label := Some lbl;
       angle_deg := Some (round angle 1) |}
  else n.

(** Lines 244-250: the point pushed on the trail of the label. *)
Definition radar_point (shape_1 : positive) (cx : Z) (dist : Q) : Z * Z :=
  let norm_x := inject_Z cx / inject_Z (Zpos shape_1) - (1 # 2) in
  let r_px :=
    int (Qmin ((dist / RADAR_RANGE_M) * inject_Z (RADAR_SIZE / 2 - 20))
              (inject_Z (RADAR_SIZE / 2 - 20))) in
  let x := int (inject_Z (RADAR_SIZE / 2)
                + norm_x * inject_Z (RADAR_SIZE / 2 - 20)) in
  let y := (RADAR_SIZE / 2 - r_px)%Z in
  (x, y).

(** Lines 246 and 250. *)
Definition push_trail (lbl : string) (p : Z * Z)
    (trails : gmap string (deque (Z * Z))) : gmap string (deque (Z * Z)) :=
  let trails1 :=
    match trails !! lbl with
    | Some _ => trails
    | None => <[lbl := Deque MAX_TRAIL []]> trails
    end in
  match trails1 !! lbl with
  | Some d => <[lbl := deque_append p d]> trails1
  | None => trails1
  end.

(** The body of the loop over [detections] (lines 188-250), without the
    drawing calls.  The only statement that can raise is the division of
    the speed estimate, and it precedes every update of the memory.  The
    angle of line 193 is computed on binary64: the quotient of the two
    ints, then its product with [180.0]. *)
Definition process_detection (shape_1 : positive) (now : Q) (d : detection)
    (st : state) : result state :=
  let cx := ((d_x1 d + d_x2 d) / 2)%Z in
  let cy := ((d_y1 d + d_y2 d) / 2)%Z in
  let angle := fl (fl (inject_Z cx / inject_Z (Zpos shape_1)) * 180) in
  tracker ← update_speed now (d_label d) cx cy (speed_tracker st);
  Ok {| prev_centers := <[d_label d := (cx, cy)]> (prev_centers st);
        trajectories :=
          push_trail (d_label d) (radar_point shape_1 cx (d_distance_m d))
            (trajectories st);
        prev_time := prev_time st;
        speed_tracker := tracker;
        species_summary :=
          update_summary (d_label d) angle (d_distance_m d)
            (species_summary st);
        nearest_encounter :=
          update_nearest (frame_id st) (d_label d) (d_distance_m d) angle
            (nearest_encounter st);
        json_data := json_data st;
        frame_id := frame_id st;
        trace :=
          Detected (frame_id st) (d_label d) (d_distance_m d) angle
            :: trace st |}.

(** The [for] loop of line 188: the memory when the loop ends, and the
    exception that ended it, if any. *)
Fixpoint process_detections (shape_1 : positive) (now : Q)
    (ds : list detection) (st : state) : state * option exn :=
  match ds with
  | [] => (st, None)
  | d :: ds' =>
      match process_detection shape_1 now d st with
      | Ok st' => process_detections shape_1 now ds' st'
      | Raise e => (st, Some e)
      end
  end.

(** The set built by line 189 once the loop over [detections] is over. *)
Definition current_labels (ds : list detection) : gset string :=
  list_to_set (d_label <$> ds).

(** Lines 255-257. *)
Definition forget (lbl : string) (st : state) : state :=
  {| prev_centers := delete lbl (prev_centers st);
     trajectories := delete lbl (trajectories st);
     prev_time := prev_time st;
     speed_tracker := delete lbl (speed_tracker st);
     species_summary := species_summary st;
     nearest_encounter := nearest_encounter st;
     json_data := json_data st;
     frame_id := frame_id st;
     trace := trace st |}.

(** Lines 253-257. *)
Definition remove_missing (current : gset string) (st : state) : state :=
  foldl (fun s lbl => if decide (lbl ∈ current) then s else forget lbl s)
    st (map_to_list (trajectories st)).*1.

(** What one pass of the [while] loop reads from the outside. *)
Inductive capture : Type :=
| NoFrame
| Fault (e : exn)
| Captured (f : captured_frame) (now : Q) (stamp : string)
           (curr_time : Q) (key_q : bool).

Inductive outcome : Type :=
| Continue (st : state)
| Break (st : state)
| Raised (e : exn) (st : state).

Definition final_state (o : outcome) : state :=
  match o with
  | Continue st | Break st | Raised _ st => st
  end.

(** Line 295. *)
Definition next_frame (st : state) : state :=
  {| prev_centers := prev_centers st;
     trajectories := trajectories st;
     prev_time := prev_time st;
     speed_tracker := speed_tracker st;
     species_summary := species_summary st;
     nearest_encounter := nearest_encounter st;
     json_data := json_data st;
     frame_id := S (frame_id st);
     trace := trace st |}.

(** Line 302. *)
Definition set_prev_time (t : Q) (st : state) : state :=
  {| prev_centers := prev_centers st;
     trajectories := trajectories st;
     prev_time := t;
     speed_tracker := speed_tracker st;
     species_summary := species_summary st;
     nearest_encounter := nearest_encounter st;
     json_data := json_data st;
     frame_id := frame_id st;
     trace := trace st |}.

(** One pass of the [while True] loop (lines 155-305).  [Fault] is an
    exception raised by an external call before the frame is used;
    [stamp] is the clock reading a snapshot of this pass is keyed by. *)
Definition iteration (c : capture) (st : state) : outcome :=
  match c with
  | NoFrame => Continue st
  | Fault e => Raised e st
  | Captured f now stamp curr_time key_q =>
      match detect f with
      | Raise e => Raised e st
      | Ok detections =>
          match process_detections (shape1 f) now detections st with
          | (st1, Some e) => Raised e st1
          | (st1, None) =>
              let st2 := remove_missing (current_labels detections) st1 in
              let st3 := next_frame st2 in
              let st4 :=
                if (frame_id st3 mod 30 =? 0)%nat
                then save_species_summary_to_json stamp st3
                else st3 in
              let fps :=
                if Qeq_bool (prev_time st4) 0 then Ok 0
                else truediv 1 (curr_time - prev_time st4) in
              match fps with
              | Raise e => Raised e st4
              | Ok _ =>
                  let st5 := set_prev_time curr_time st4 in
                  if key_q then Break st5 else Continue st5
              end
          end
      end
  end.

(** The [while True] loop over the passes [cs].  [Continue] at the end
    means the loop is still running when the inputs are used up. *)
Fixpoint main_loop (cs : list capture) (st : state) : outcome :=
  match cs with
  | [] => Continue st
  | c :: cs' =>
      match iteration c st with
      | Continue st' => main_loop cs' st'
      | o => o
      end
  end.

(** [nearest_encounter] as [json.dump] writes it. *)
Definition nearest_json (n : nearest) : json :=
  JObj [ ("distance_m", JFloat (distance_m n));
         ("frame", from_option (fun k => JInt (Z.of_nat k)) JNull (frame n));
         ("label", from_option JStr JNull (label n));
         ("angle_deg",
           from_option (fun a => JFloat (Finite a)) JNull (angle_deg n)) ].

(** The [finally] block (lines 309-311). *)
Definition finally (stamp : string) (st : state) : state :=
  let st1 := save_species_summary_to_json stamp st in
  save_json
    {| prev_centers := prev_centers st1;
       trajectories := trajectories st1;
       prev_time := prev_time st1;
       speed_tracker := speed_tracker st1;
       species_summary := species_summary st1;
       nearest_encounter := nearest_encounter st1;
       json_data :=
         dict_set "nearest_encounter"
           (nearest_json (nearest_encounter st1)) (json_data st1);
       frame_id := frame_id st1;
       trace := trace st1 |}.

(** A whole run: the loop over the passes [cs], left by [q], by an
    exception, or interrupted once [cs] is used up, then the [finally]
    block. *)
Definition run (loaded : list (string * json)) (cs : list capture)
    (final_stamp : string) : state :=
  finally final_stamp (final_state (main_loop cs (init loaded))).

End MainLoop.

End Insect.

(** ** insect.py on binary64: the distance estimate and the speed update *)

Module Binary64.
Import Py.

(** [x / y] on floats: raises [ZeroDivisionError] on a zero divisor, of
    either sign. *)
Definition truediv (x y : PrimFloat.float) : result PrimFloat.float :=
  if (y =? 0)%float then Raise ZeroDivisionError else Ok (x / y)%float.

(** Lines 88-91. *)
Definition get_distance_meters
    (width_px real_width_m focal_px : PrimFloat.float)
  : result PrimFloat.float :=
  if (width_px <=? 0)%float || (focal_px <=? 0)%float
     || (real_width_m <=? 0)%float
  then Ok 0%float
  else truediv (real_width_m * focal_px)%float width_px.

Section Speed.
(** [np.sqrt] on a Python int. *)
Variable np_sqrt : Z -> PrimFloat.float.

#[local] Set Warnings "-inexact-float".
(** Lines 195-205. *)
Definition update_speed (now : PrimFloat.float) (lbl : string) (cx cy : Z)
    (tracker : gmap string (Z * Z * PrimFloat.float * PrimFloat.float))
  : result (gmap string (Z * Z * PrimFloat.float * PrimFloat.float)) :=
  match tracker !! lbl with
  | Some (px, py, pt, prev_speed) =>
      let dt := (now - pt)%float in
      if (0 <? dt)%float then
        let dist_px := np_sqrt ((cx - px) ^ 2 + (cy - py) ^ 2)%Z in
        speed_mps ← truediv (dist_px * 0.02)%float dt;
        Ok (<[lbl := (cx, cy, now, speed_mps)]> tracker)
      else Ok tracker
  | None => Ok (<[lbl := (cx, cy, now, 0%float)]> tracker)
  end.
#[local] Set Warnings "inexact-float".
End Speed.

End Binary64.

(** ** oledandled.py *)

Module OledAndLed.
Import Py.

Definition RED_LED : Z := 17.
Definition YELLOW_LED : Z := 27.
Definition GREEN_LED : Z := 22.

(** The display object: only its size is read. *)
Record oled_device : Type := OledDevice { width : Z; height : Z }.

(** Operations on the outside world, most recent first in a trace.  An
    operation that raises is recorded as attempted. *)
Inductive hw_event : Type :=
| GpioWrite (handle pin level : Z)
| OledFill (colour : Z)
| OledShow
| OledImage (size : Z * Z) (texts : list (Z * Z * string))
| Print (text : string) (lines : list string).

Definition is_gpio (e : hw_event) : bool :=
  match e with GpioWrite _ _ _ => true | _ => false end.

Definition is_i2c (e : hw_event) : bool :=
  match e with
  | OledFill _ | OledShow | OledImage _ _ => true
  | _ => false
  end.

(** A computation that talks to the hardware: its result and the trace
    extended with what it attempted. *)
Definition hw (A : Type) : Type := list hw_event -> result A * list hw_event.

Definition hw_ret {A : Type} (a : A) : hw A := fun tr => (Ok a, tr).

Definition hw_bind {A B : Type} (c : hw A) (k : A -> hw B) : hw B :=
  fun tr =>
    match c tr with
    | (Ok a, tr') => k a tr'
    | (Raise e, tr') => (Raise e, tr')
    end.

Section Hardware.
(** Which operation fails, given what was done before: the hardware is
    not under the program's control. *)
Variable fails : list hw_event -> hw_event -> bool.

Definition perform (e : hw_event) : hw unit :=
  fun tr =>
    match e with
    | Print _ _ => (Ok (), e :: tr)
    | _ => if fails tr e then (Raise HardwareError, e :: tr)
           else (Ok (), e :: tr)
    end.

(** [if chip:] for [chip] either [None] or the handle from
    [lgpio.gpiochip_open]. *)
Definition chip_truthy (chip : option Z) : bool :=
  match chip with
  | Some h => negb (h =? 0)%Z
  | None => false
  end.

Definition reset_leds (chip : option Z) : hw unit :=
  if chip_truthy chip then
    let h := default 0%Z chip in
    hw_bind (perform (GpioWrite h RED_LED 0)) (fun _ =>
    hw_bind (perform (GpioWrite h YELLOW_LED 0)) (fun _ =>
    perform (GpioWrite h GREEN_LED 0)))
  else hw_ret ().

Definition display_on_oled (oled : option oled_device) (lines : list string)
  : hw unit :=
  match oled with
  | Some dev =>
      hw_bind (perform (OledFill 0)) (fun _ =>
      hw_bind (perform OledShow) (fun _ =>
      let texts :=
        imap (fun i line => (0%Z, (Z.of_nat i * 12)%Z, line)) (take 5 lines) in
      hw_bind (perform (OledImage (width dev, height dev) texts)) (fun _ =>
      perform OledShow)))
  | None => perform (Print "OLED disabled, cannot display:" lines)
  end.
End Hardware.

End OledAndLed.

(** ** Llm.py *)

Module Llm.
Import Py.

Definition LOG_PATH : string := "insect_log2.json".
Definition DEFAULT_VIDEO : string :=
  "/home/aaswat/insects/insect_detection_output.avi".

(** The files [load_sessions] can see: a path that exists is mapped to what
    [open] followed by [json.load] gives on it. *)
Abbreviation files := (gmap string (result json)).

(** [raw.items()] *)
Definition items (raw : json) : result (list (string * json)) :=
  match raw with
  | JObj kv => Ok kv
  | _ => Raise AttributeError
  end.

(** [data.copy()]: dicts and lists have it. *)
Definition copy (data : json) : result json :=
  match data with
  | JObj kv => Ok (JObj kv)
  | JArr l => Ok (JArr l)
  | _ => Raise AttributeError
  end.

(** [sess[k] = v] for a string key. *)
Definition setitem (k : string) (v : json) (sess : json) : result json :=
  match sess with
  | JObj kv => Ok (JObj (dict_set k v kv))
  | _ => Raise TypeError
  end.

(** Lines 46-48. *)
Definition make_session (ts : string) (data : json) : result json :=
  sess ← copy data;
  sess ← setitem "session_info"
           (JObj [("session_id", JStr ts); ("timestamp", JStr ts)]) sess;
  setitem "video_reference" (JStr DEFAULT_VIDEO) sess.

(** The loop of lines 45-49. *)
Fixpoint build_sessions (kv : list (string * json)) (sessions : list json)
  : result (list json) :=
  match kv with
  | [] => Ok sessions
  | (ts, data) :: kv' =>
      sess ← make_session ts data;
      build_sessions kv' (sessions ++ [sess])%list
  end.

Definition load_sessions (fs : files) : list json :=
  match fs !! LOG_PATH with
  | None => []
  | Some loaded =>
      match raw ← loaded; kv ← items raw; build_sessions kv [] with
      | Ok sessions => sessions
      | Raise _ => []
      end
  end.

(** [sess.get("session_info", {}).get("session_id")] as the GUI reads it. *)
Definition session_id (sess : json) : option json :=
  match sess with
  | JObj kv =>
      match dict_get "session_info" kv with
      | Some (JObj i) => dict_get "session_id" i
      | _ => None
      end
  | _ => None
  end.

End Llm.

(** * Specifications

    The vocabulary the properties below are stated in: the detections
    [detect] reads off the frames of a run, what the trace of the run
    records, and what the memory and the log should hold for them. *)

Section Vocabulary.
Import Py Insect.

(** ** Trail buffers *)

(** Every trail is a [deque(maxlen=MAX_TRAIL)] within its bound. *)
Definition trails_bounded (trails : gmap string (deque (Z * Z))) : Prop :=
  forall lbl d, trails !! lbl = Some d ->
    maxlen d = MAX_TRAIL /\ (length (items d) <= MAX_TRAIL)%nat.

(** ** Snapshot schedule *)

(** The frame counters at which a snapshot was taken, oldest first. *)
Fixpoint snapshot_frames (tr : list event) : list nat :=
  match tr with
  | [] => []
  | Snapshot fid _ :: tr' => (snapshot_frames tr' ++ [fid])%list
  | _ :: tr' => snapshot_frames tr'
  end.

(** The positive multiples of 30 up to [n], in increasing order. *)
Definition multiples_of_30 (n : nat) : list nat :=
  (fun k => 30 * k)%nat <$> seq 1 (n / 30).

Definition on_schedule (st : state) : Prop :=
  snapshot_frames (trace st) = multiples_of_30 (frame_id st).

(** ** What the loop reads off the frames *)

(** Line 193: the angle of a detection of a frame [shape_1] pixels wide,
    on binary64. *)
Definition angle_of (shape_1 : positive) (d : detection) : Q :=
  fl (fl (inject_Z ((d_x1 d + d_x2 d) / 2) / inject_Z (Zpos shape_1)) * 180).

(** The detections lines 160-182 find on the frame of a pass whose frame
    counter is [fid], the most recent first. *)
Definition seen (c : capture) (fid : nat) : list event :=
  match c with
  | Captured f _ _ _ _ =>
      match detect f with
      | Ok ds =>
          reverse ((fun d =>
                      Detected fid (d_label d) (d_distance_m d)
                        (angle_of (shape1 f) d)) <$> ds)
      | Raise _ => []
      end
  | _ => []
  end.

(** The detections of the frames a run of the loop gets to, the most recent
    first: those of every pass, up to the pass that leaves the loop.  They
    are read off the captured frames by [detect]; the memory is used to know
    the frame counter and where the loop is left. *)
Fixpoint sighted (np_sqrt : Z -> Q) (cs : list capture) (st : state)
  : list event :=
  match cs with
  | [] => []
  | c :: cs' =>
      (match iteration np_sqrt c st with
       | Continue st' => sighted np_sqrt cs' st'
       | _ => []
       end ++ seen c (frame_id st))%list
  end.

Definition is_detected (e : event) : bool :=
  match e with
  | Detected _ _ _ _ => true
  | _ => false
  end.

(** A detection of a frame before frame [fid]. *)
Definition is_before (fid : nat) (e : event) : bool :=
  match e with
  | Detected f _ _ _ => (f <? fid)%nat
  | _ => false
  end.

(** The detections of the frames before frame [fid]. *)
Definition before (fid : nat) (obs : list event) : list event :=
  filter (fun e => Is_true (is_before fid e)) obs.

(** A detection as [detect] finds them: at most 9.6 m away. *)
Definition in_range (e : event) : Prop :=
  match e with
  | Detected _ _ d _ => 0 < d /\ d <= 96 # 10
  | _ => True
  end.

(** Frame counters never go back along a trace (most recent event first):
    the detections are those of frames before [nd] and up to [ns], the
    snapshots were taken at counters up to [ns], what precedes a detection
    is not of a later frame, and what precedes a snapshot is of the frames
    before its counter. *)
Fixpoint frames_in_order (tr : list event) (nd ns : nat) : Prop :=
  match tr with
  | [] => True
  | Detected f _ _ _ :: tr' =>
      ((f < nd)%nat /\ (f <= ns)%nat) /\ frames_in_order tr' (S f) f
  | Snapshot g _ :: tr' => (g <= ns)%nat /\ frames_in_order tr' g g
  | FileWrite _ :: tr' => frames_in_order tr' nd ns
  end.

(** ** Nearest encounter *)

(** The smallest distance among the detections of a trace. *)
Fixpoint closest (tr : list event) : float :=
  match tr with
  | [] => Infinity
  | Detected _ _ d _ :: tr' =>
      match closest tr' with
      | Infinity => Finite d
      | Finite m => Finite (Qmin d m)
      end
  | _ :: tr' => closest tr'
  end.

Definition round_float (x : float) (n : nat) : float :=
  match x with
  | Finite q => Finite (round q n)
  | Infinity => Infinity
  end.

Definition le_float (x y : float) : Prop :=
  match x, y with
  | _, Infinity => True
  | Infinity, Finite _ => False
  | Finite a, Finite b => a <= b
  end.

(** The record comes from a detection of the trace whose distance rounds
    to the stored one. *)
Definition from_a_detection (n : nearest) (tr : list event) : Prop :=
  forall s, distance_m n = Finite s ->
    exists fid lbl d a,
      Detected fid lbl d a ∈ tr /\ s = round d 3 /\
      frame n = Some fid /\ label n = Some lbl /\
      angle_deg n = Some (round a 1).

(** The stored distance is infinity or a decimal that rounding to three
    decimals leaves where it is. *)
Definition stored_distance (n : nearest) : Prop :=
  forall s, distance_m n = Finite s -> round s 3 = s.

(** The record agrees with the detections [obs]. *)
Definition nearest_ok (n : nearest) (obs : list event) : Prop :=
  distance_m n = round_float (closest obs) 3 /\
  from_a_detection n obs /\
  stored_distance n.

(** The record after the events [tr], most recent first, starting from
    the record [n]. *)
Fixpoint nearest_after (tr : list event) (n : nearest) : nearest :=
  match tr with
  | [] => n
  | Detected fid lbl d a :: tr' =>
      update_nearest fid lbl d a (nearest_after tr' n)
  | _ :: tr' => nearest_after tr' n
  end.

(** The running minimum in the strict sense: the record holds the smallest
    distance among the detections [obs] and the label, frame and (rounded)
    angle of a detection that had it. *)
Definition records_closest_detection (n : nearest) (obs : list event)
  : Prop :=
  match closest obs with
  | Infinity => distance_m n = Infinity
  | Finite m =>
      exists s fid lbl d a,
        distance_m n = Finite s /\ s == m /\
        Detected fid lbl d a ∈ obs /\ d == m /\
        frame n = Some fid /\ label n = Some lbl /\
        angle_deg n = Some (round a 1)
  end.

(** ** Species summary and log *)

(** The detections of a trace, oldest first: label, distance, angle. *)
Fixpoint detections_of (tr : list event) : list (string * Q * Q) :=
  match tr with
  | [] => []
  | Detected _ lbl d a :: tr' => (detections_of tr' ++ [(lbl, d, a)])%list
  | _ :: tr' => detections_of tr'
  end.

Definition of_label (lbl : string) (obs : list (string * Q * Q))
  : list (string * Q * Q) :=
  filter (fun o => o.1.1 = lbl) obs.

(** What [species_summary] should hold for a label after the detections
    [obs]: their number, the rounded distance and angle of the first one
    and those of the last one. *)
Definition expected_info (lbl : string) (obs : list (string * Q * Q))
  : option info :=
  match of_label lbl obs with
  | [] => None
  | first :: rest =>
      let last := List.last rest first in
      Some {| count := Z.of_nat (length (first :: rest));
              entry_angle_deg := round first.2 1;
              exit_angle_deg := round last.2 1;
              entry_distance_m := round first.1.2 2;
              exit_distance_m := round last.1.2 2 |}
  end.

(** A value as it reaches the log: rounded when it is stored in the
    summary (lines 209-218) and again when the snapshot is made (lines
    140-146). *)
Definition logged (x : Q) (ndigits : nat) : Q :=
  round (round x ndigits) ndigits.

(** What a snapshot should store under a label. *)
Definition expected_entry (lbl : string) (obs : list (string * Q * Q))
  : option json :=
  match of_label lbl obs with
  | [] => None
  | first :: rest =>
      let last := List.last rest first in
      Some (JObj
        [ ("start_distance_m", JFloat (Finite (logged first.1.2 2)));
          ("end_distance_m", JFloat (Finite (logged last.1.2 2)));
          ("start_angle_deg", JFloat (Finite (logged first.2 1)));
          ("end_angle_deg", JFloat (Finite (logged last.2 1)));
          ("count", JInt (Z.of_nat (length (first :: rest)))) ])
  end.

Definition summary_ok (summary : list (string * info)) (tr : list event)
  : Prop :=
  NoDup summary.*1 /\
  forall lbl, dict_get lbl summary = expected_info lbl (detections_of tr).

(** The log [written] stores, under [ts], what the detections of the
    events [earlier] call for. *)
Definition snapshot_ok (ts : string) (written : list (string * json))
    (earlier : list event) : Prop :=
  exists entries,
    dict_get ts written = Some (JObj entries) /\
    forall lbl,
      dict_get lbl entries = expected_entry lbl (detections_of earlier).

(** Every file write that follows a snapshot stores it as expected. *)
Fixpoint log_ok (tr : list event) : Prop :=
  match tr with
  | [] => True
  | FileWrite written :: tr' =>
      match tr' with
      | Snapshot _ ts :: earlier => snapshot_ok ts written earlier
      | _ => True
      end /\ log_ok tr'
  | _ :: tr' => log_ok tr'
  end.

Definition log_invariant (st : state) : Prop :=
  summary_ok (species_summary st) (trace st) /\ log_ok (trace st).

Definition is_dict (j : json) : Prop := exists d, j = JObj d.

Definition all_dicts (log : list (string * json)) : Prop :=
  Forall (fun kv => is_dict kv.2) log.

(** ** A concrete run *)

(** An integer square root standing for [np.sqrt] in the examples. *)
Definition sqrt_floor (z : Z) : Q := inject_Z (Z.sqrt z).

(** Two passes of the loop on frames of 2304 by 1296 pixels: a fly whose box
    is 1494 pixels wide, then a cockroach whose box is 1497 pixels wide. *)
Definition two_close_insects : list capture :=
  [ Captured
      (Frame 1296 2304 [ModelResult ∅ [RawBox 0 0 415 100 2 (9 # 10)]])
      1 "2025-06-01T10:00:00.000000" (11 # 10) false;
    Captured
      (Frame 1296 2304 [ModelResult ∅ [RawBox 0 0 416 100 3 (9 # 10)]])
      2 "2025-06-01T10:00:01.000000" (21 # 10) false ].

(** A pass that sees one fly, [k] seconds after the start. *)
Definition fly_at (k : nat) : capture :=
  Captured
    (Frame 1296 2304 [ModelResult ∅ [RawBox 0 0 415 100 2 (9 # 10)]])
    (inject_Z (Z.of_nat k)) "2025-06-01T10:00:00.000000"
    (inject_Z (Z.of_nat k) + (1 # 2)) false.

End Vocabulary.


(** * The rest of the code

    The functions of the three files that the definitions above leave out:
    how [insect.py] starts from an existing log and places a detection on
    its radar, and what the GUI of [Llm.py] computes from a loaded session. *)

(** ** insect.py: start-up and the points radar *)

Module InsectRest.
Import Py Insect.

(** Lines 64-73: [json_data] when the program starts.  [file] is [None]
    when the log does not exist, and otherwise what [open] followed by
    [json.load] gives on it. *)
Definition load_json_data (file : option (result json))
  : list (string * json) :=
  match file with
  | Some (Ok (JObj kv)) => kv
  | Some (Ok _) => []
  | Some (Raise _) => []
  | None => []
  end.

(** [label[0]] for a label that is not empty. *)
Definition first_letter (lbl : string) : string :=
  match lbl with
  | String a _ => String a EmptyString
  | EmptyString => EmptyString
  end.

(** Lines 106-112: the dots [draw_radar_points] puts on the radar, each
    with the letter written next to it, in drawing order.  A label that
    passes line 107 is not empty. *)
Definition draw_radar_points (radar_data : list (Q * Q * string))
    (radar_size : Z) : list (Z * Z * string) :=
  let cx := (radar_size / 2)%Z in
  let cy := (radar_size / 2)%Z in
  let max_r := (radar_size / 2 - 20)%Z in
  foldl
    (fun dots '(norm_x, dist, lbl) =>
       if negb (in_class_labels lbl) then dots
       else
         let r_px :=
           int (Qmin (inject_Z max_r)
                     ((dist / RADAR_RANGE_M) * inject_Z max_r)) in
         let x := int (inject_Z cx + norm_x * inject_Z max_r) in
         let y := (cy - r_px)%Z in
         (dots ++ [(x, y, first_letter lbl)])%list)
    [] radar_data.

(** Lines 244-245: the entry the main loop appends to [radar_points]. *)
Definition radar_entry (shape_1 : positive) (d : detection) : Q * Q * string :=
  let cx := ((d_x1 d + d_x2 d) / 2)%Z in
  (inject_Z cx / inject_Z (Zpos shape_1) - (1 # 2), d_distance_m d, d_label d).

End InsectRest.

(** ** Llm.py: what the GUI computes from the loaded sessions *)

Module LlmRest.
Import Py Llm.

(** [d.get(k, default)] *)
Definition get (k : string) (dflt : json) (d : list (string * json)) : json :=
  default dflt (dict_get k d).

(** Lines 59-70.  The second argument, [video_path], is not used. *)
Definition compute_angles_and_distances (raw_detections : list (string * json))
  : list (string * json) :=
  foldl
    (fun out '(lbl, info) =>
       match info with
       | JObj i =>
           if bool_decide (lbl ∈ ["session_info"; "video_reference"]) then out
           else
             dict_set lbl
               (JObj [ ("entry_angle_deg", get "start_angle_deg" (JInt 0) i);
                       ("exit_angle_deg", get "end_angle_deg" (JInt 0) i);
                       ("entry_dist_m", get "start_distance_m" (JInt 0) i);
                       ("exit_dist_m", get "end_distance_m" (JInt 0) i) ])
               out
       | _ => out
       end)
    [] raw_detections.

(** Line 82: [sessions[-1] if sessions else {}]. *)
Definition current_session (sessions : list json) : json :=
  default (JObj []) (last sessions).

(** Line 209: the counts behind the pie chart. *)
Definition per_label (session : list (string * json)) : list (string * json) :=
  foldl
    (fun acc '(k, v) =>
       match v with
       | JObj i =>
           if bool_decide (k = "nearest") then acc
           else dict_set k (get "count" (JInt 0) i) acc
       | _ => acc
       end)
    [] session.

(** Lines 235-238 on exact numbers; [a % 360] is [a - 360 * floor (a / 360)]. *)
Definition normalize_angle (a : Q) : Q :=
  let a := a - 360 * inject_Z (Qfloor (a / 360)) in
  let a := if Qlt_bool 180 a then a - 360 else a in
  if Qlt_bool 90 a then a - 180 else a.

End LlmRest.

(** The session [load_sessions] makes of the dict [d] stored under [ts]. *)
Definition session_of (ts : string) (d : list (string * Py.json))
  : list (string * Py.json) :=
  Py.dict_set "video_reference" (Py.JStr Llm.DEFAULT_VIDEO)
    (Py.dict_set "session_info"
       (Py.JObj [("session_id", Py.JStr ts); ("timestamp", Py.JStr ts)]) d).

(** What the GUI should plot for a label whose detections are [obs]. *)
Definition expected_position (lbl : string) (obs : list (string * Q * Q))
  : option Py.json :=
  match of_label lbl obs with
  | [] => None
  | first :: rest =>
      let last := List.last rest first in
      Some (Py.JObj
        [ ("entry_angle_deg", Py.JFloat (Py.Finite (logged first.2 1)));
          ("exit_angle_deg", Py.JFloat (Py.Finite (logged last.2 1)));
          ("entry_dist_m", Py.JFloat (Py.Finite (logged first.1.2 2)));
          ("exit_dist_m", Py.JFloat (Py.Finite (logged last.1.2 2))) ])
  end.

(** The count the pie chart should show for it. *)
Definition expected_count (lbl : string) (obs : list (string * Q * Q))
  : option Py.json :=
  match of_label lbl obs with
  | [] => None
  | first :: rest => Some (Py.JInt (Z.of_nat (length (first :: rest))))
  end.

(** What the loop of lines 61-69 stores for one item of a session, if it
    stores anything. *)
Definition position_of (lbl : string) (info : Py.json) : option Py.json :=
  match info with
  | Py.JObj i =>
      if bool_decide (lbl ∈ ["session_info"; "video_reference"]) then None
      else
        Some (Py.JObj
          [ ("entry_angle_deg", LlmRest.get "start_angle_deg" (Py.JInt 0) i);
            ("exit_angle_deg", LlmRest.get "end_angle_deg" (Py.JInt 0) i);
            ("entry_dist_m", LlmRest.get "start_distance_m" (Py.JInt 0) i);
            ("exit_dist_m", LlmRest.get "end_distance_m" (Py.JInt 0) i) ])
  | _ => None
  end.

(** What the comprehension of line 209 stores for one item of a session. *)
Definition count_of (k : string) (v : Py.json) : option Py.json :=
  match v with
  | Py.JObj i =>
      if bool_decide (k = "nearest") then None
      else Some (LlmRest.get "count" (Py.JInt 0) i)
  | _ => None
  end.

(** ** Vocabulary for the rest of the code *)

Section VocabularyOfTheRest.
Import Py Insect InsectRest OledAndLed.

(** What lines 170-182 guarantee of an element of [detections]. *)
Definition well_formed_detection (d : detection) : Prop :=
  (d_label d = "fly" \/ d_label d = "Cockroach") /\
  (10 <= d_x2 d - d_x1 d)%Z /\ (10 <= d_y2 d - d_y1 d)%Z /\
  d_distance_m d == 96 / inject_Z (d_x2 d - d_x1 d) /\
  0 < d_distance_m d /\ d_distance_m d <= 96 # 10.

(** The three per-label dicts hold the same labels. *)
Definition trackers_aligned (st : state) : Prop :=
  dom (prev_centers st) = dom (trajectories st) /\
  dom (speed_tracker st) = dom (trajectories st).

(** The dot of one detection, as the trail stores its position. *)
Definition dot_of (shape_1 : positive) (d : detection) : Z * Z * string :=
  let p := radar_point shape_1 ((d_x1 d + d_x2 d) / 2) (d_distance_m d) in
  (p.1, p.2, first_letter (d_label d)).

(** What the loop and the [finally] block may do to a log that started as
    [loaded]: keep its keys in front, touch only the keys of snapshots and
    the reserved key, and add no other key. *)
Definition log_extends (loaded : list (string * json)) (st : state) : Prop :=
  dict_keys loaded `prefix_of` dict_keys (json_data st) /\
  (forall k, (forall fid, Snapshot fid k ∉ trace st) ->
             k <> "nearest_encounter" ->
             dict_get k (json_data st) = dict_get k loaded) /\
  (forall k, k ∈ dict_keys (json_data st) ->
             k ∈ dict_keys loaded \/ k = "nearest_encounter" \/
             exists fid, Snapshot fid k ∈ trace st).

(** A write that switches one of the three LEDs off. *)
Definition switches_off (e : hw_event) : Prop :=
  exists h pin, e = GpioWrite h pin 0 /\ pin ∈ [RED_LED; YELLOW_LED; GREEN_LED].

(** A text of the image is on one of the five rows of the display. *)
Definition on_a_row (t : Z * Z * string) : Prop :=
  t.1.1 = 0%Z /\ t.1.2 ∈ [0; 12; 24; 36; 48]%Z.

End VocabularyOfTheRest.

(** * Properties *)

(** ** Rounding and ordered dictionaries *)

Section RoundHalfEven.
Import Py.
Lemma Qlt_bool_iff (x y : Q) : Qlt_bool x y = true <-> x < y.
Proof.
  unfold Qlt_bool. destruct (Qcompare_spec x y); split; intros; try congruence; lra.
Qed.

Lemma Qlt_bool_false (x y : Q) : Qlt_bool x y = false <-> y <= x.
Proof.
  rewrite <- not_true_iff_false, Qlt_bool_iff. split; intros H; lra.
Qed.

Lemma round_half_even_comp (x y : Q) :
  x == y -> round_half_even x = round_half_even y.
Proof.
  intros E. unfold round_half_even.
  rewrite (Qfloor_comp _ _ E).
  destruct (Qcompare_spec (x - inject_Z (Qfloor y)) (1 # 2));
    destruct (Qcompare_spec (y - inject_Z (Qfloor y)) (1 # 2));
    try reflexivity; lra.
Qed.

Lemma round_half_even_Z (k : Z) : round_half_even (inject_Z k) = k.
Proof.
  unfold round_half_even. rewrite Qfloor_Z.
  destruct (Qcompare_spec (inject_Z k - inject_Z k) (1 # 2)); try reflexivity; lra.
Qed.

Lemma round_half_even_bounds (x : Q) :
  (Qfloor x <= round_half_even x <= Qfloor x + 1)%Z.
Proof.
  unfold round_half_even.
  destruct (x - inject_Z (Qfloor x) ?= 1 # 2); [destruct (Z.even _)| |]; lia.
Qed.

Lemma round_half_even_mono (x y : Q) :
  x <= y -> (round_half_even x <= round_half_even y)%Z.
Proof.
  intros L.
  pose proof (Qfloor_resp_le _ _ L) as F.
  pose proof (round_half_even_bounds x) as Bx.
  pose proof (round_half_even_bounds y) as By.
  destruct (Z.eq_dec (Qfloor x) (Qfloor y)) as [E|N]; [|lia].
  unfold round_half_even. rewrite E.
  destruct (Qcompare_spec (x - inject_Z (Qfloor y)) (1 # 2));
    destruct (Qcompare_spec (y - inject_Z (Qfloor y)) (1 # 2));
    try (destruct (Z.even (Qfloor y))); try lia; lra.
Qed.
End RoundHalfEven.

(** ** Rounding to binary64 *)

Section Binary64Rounding.
Import Py.

Lemma two_pow_pos (e : Z) : 0 < 2 ^ e.
Proof. apply Qpower_0_lt. reflexivity. Qed.

Lemma two_pow_plus (a b : Z) : 2 ^ (a + b) == 2 ^ a * 2 ^ b.
Proof. apply Qpower_plus. discriminate. Qed.

Lemma two_pow_le (a b : Z) : (a <= b)%Z -> 2 ^ a <= 2 ^ b.
Proof. intros H. apply Qpower_le_compat_l; [exact H | discriminate]. Qed.

Lemma two_pow_Z (n : Z) : (0 <= n)%Z -> inject_Z (2 ^ n) == 2 ^ n.
Proof. intros H. apply (Zpower_Qpower 2 n H). Qed.

Lemma two_pow_succ (a : Z) : 2 ^ (a + 1) == 2 * 2 ^ a.
Proof. rewrite two_pow_plus. change (2 ^ 1) with 2. ring. Qed.

Lemma log2_bounds (n : Z) :
  (0 < n)%Z -> 2 ^ Z.log2 n <= inject_Z n /\ inject_Z n < 2 * 2 ^ Z.log2 n.
Proof.
  intros H. destruct (Z.log2_spec n H) as [L U].
  pose proof (Z.log2_nonneg n) as N.
  rewrite <- (two_pow_Z _ N). split.
  - rewrite <- Zle_Qle. exact L.
  - change 2 with (inject_Z 2) at 1. rewrite <- inject_Z_mult, <- Zlt_Qlt.
    rewrite Z.pow_succ_r in U by exact N. exact U.
Qed.

Lemma ilog2_spec (q : Q) :
  0 < q -> 2 ^ ilog2 q <= q /\ q < 2 ^ (ilog2 q + 1).
Proof.
  intros Hq. unfold ilog2.
  destruct q as [n d]. cbn [Qnum Qden].
  assert (Hn : (0 < n)%Z).
  { unfold Qlt in Hq. cbn in Hq. lia. }
  destruct (log2_bounds n Hn) as [La Ua].
  destruct (log2_bounds (Zpos d) eq_refl) as [Lb Ub].
  set (a := Z.log2 n) in *. set (b := Z.log2 (Zpos d)) in *.
  assert (E : inject_Z n == (n # d) * inject_Z (Zpos d)).
  { unfold Qeq, Qmult, inject_Z. cbn. lia. }
  assert (Ha : 2 ^ a == 2 ^ (a - b) * 2 ^ b).
  { rewrite <- two_pow_plus. replace (a - b + b)%Z with a by lia. reflexivity. }
  pose proof (two_pow_pos b) as Pb.
  pose proof (two_pow_pos (a - b)) as Pg.
  set (g := (a - b)%Z) in *.
  generalize dependent (2 ^ a). generalize dependent (2 ^ b).
  intros B Lb Ub Pb A La Ua Ha.
  destruct (Qle_bool (2 ^ g) (n # d)) eqn:C.
  - apply Qle_bool_iff in C. split; [exact C|].
    rewrite two_pow_succ. nra.
  - assert (C' : n # d < 2 ^ g).
    { apply Qnot_le_lt. intros X. apply Qle_bool_iff in X. congruence. }
    replace (g - 1 + 1)%Z with g by lia. split; [|exact C'].
    assert (Hg : 2 ^ g == 2 * 2 ^ (g - 1)).
    { rewrite <- two_pow_succ. replace (g - 1 + 1)%Z with g by lia. reflexivity. }
    pose proof (two_pow_pos (g - 1)) as Pg1.
    generalize dependent (2 ^ (g - 1)). intros G1 Hg Pg1.
    generalize dependent (2 ^ g). intros G Pg Ha _ _ Hg. nra.
Qed.

Lemma ilog2_unique (q : Q) (k : Z) :
  0 < q -> 2 ^ k <= q -> q < 2 ^ (k + 1) -> ilog2 q = k.
Proof.
  intros Hq L U. destruct (ilog2_spec q Hq) as [L' U'].
  destruct (Z.lt_trichotomy (ilog2 q) k) as [C | [C | C]]; [|exact C|].
  - pose proof (two_pow_le (ilog2 q + 1) k ltac:(lia)). lra.
  - pose proof (two_pow_le (k + 1) (ilog2 q) ltac:(lia)). lra.
Qed.

Lemma ilog2_comp (x y : Q) : 0 < x -> x == y -> ilog2 x = ilog2 y.
Proof.
  intros Hx E. symmetry. destruct (ilog2_spec x Hx) as [L U].
  apply ilog2_unique; lra.
Qed.

Lemma ilog2_mono (x y : Q) : 0 < x -> x <= y -> (ilog2 x <= ilog2 y)%Z.
Proof.
  intros Hx L. destruct (ilog2_spec x Hx) as [Lx Ux].
  destruct (ilog2_spec y ltac:(lra)) as [Ly Uy].
  destruct (Z_le_gt_dec (ilog2 x) (ilog2 y)) as [C|C]; [exact C|].
  pose proof (two_pow_le (ilog2 y + 1) (ilog2 x) ltac:(lia)). lra.
Qed.

Lemma fl_zero (q : Q) : q == 0 -> fl q = 0.
Proof. intros E. unfold fl. apply Qeq_bool_iff in E. by rewrite E. Qed.

Lemma fl_nonzero (q : Q) :
  ~ q == 0 ->
  fl q = inject_Z (round_half_even
                     (q / 2 ^ Z.max (ilog2 (Qabs q) - 52) (-1074)))
         * 2 ^ Z.max (ilog2 (Qabs q) - 52) (-1074).
Proof.
  intros N. unfold fl. destruct (Qeq_bool q 0) eqn:E; [|reflexivity].
  apply Qeq_bool_iff in E. contradiction.
Qed.

Lemma fl_comp (x y : Q) : x == y -> fl x = fl y.
Proof.
  intros E. destruct (Qeq_dec x 0) as [Z|N].
  - rewrite (fl_zero x Z), (fl_zero y); [reflexivity | lra].
  - rewrite (fl_nonzero x N), (fl_nonzero y) by lra.
    assert (A : 0 < Qabs x).
    { apply Qabs_case; intros; lra. }
    assert (Ea : Qabs x == Qabs y) by (rewrite E; reflexivity).
    rewrite (ilog2_comp _ _ A Ea).
    f_equal. f_equal. apply round_half_even_comp. by rewrite E.
Qed.

Lemma fl_pos (q : Q) :
  0 < q ->
  let e := Z.max (ilog2 q - 52) (-1074) in
  fl q = inject_Z (round_half_even (q / 2 ^ e)) * 2 ^ e.
Proof.
  intros Hq e. rewrite fl_nonzero by lra.
  assert (E : ilog2 (Qabs q) = ilog2 q).
  { apply ilog2_comp; [|apply Qabs_pos; lra].
    rewrite Qabs_pos; lra. }
  rewrite E. reflexivity.
Qed.

Lemma div_two_pow_le (x y : Q) (e : Z) : x <= y -> x / 2 ^ e <= y / 2 ^ e.
Proof.
  intros L. pose proof (two_pow_pos e) as P.
  unfold Qdiv. apply Qmult_le_compat_r; [exact L|].
  apply Qlt_le_weak, Qinv_lt_0_compat, P.
Qed.

Lemma fl_mono_pos (x y : Q) : 0 < x -> x <= y -> fl x <= fl y.
Proof.
  intros Hx L. assert (Hy : 0 < y) by lra.
  rewrite (fl_pos x Hx), (fl_pos y Hy). cbn zeta.
  pose proof (ilog2_mono x y Hx L) as M.
  destruct (ilog2_spec x Hx) as [Lx Ux]. destruct (ilog2_spec y Hy) as [Ly Uy].
  set (ex := Z.max (ilog2 x - 52) (-1074)).
  set (ey := Z.max (ilog2 y - 52) (-1074)).
  pose proof (two_pow_pos ex) as Px. pose proof (two_pow_pos ey) as Py.
  destruct (Z.eq_dec ex ey) as [E|N].
  - rewrite E. apply Qmult_le_compat_r; [|lra].
    rewrite <- Zle_Qle. apply round_half_even_mono. by apply div_two_pow_le.
  - assert (C : (ex + 1 <= ey)%Z) by lia.
    assert (Ey : ey = (ilog2 y - 52)%Z) by lia.
    (* the significand of [x] is at most 2^53 *)
    assert (Mx : inject_Z (round_half_even (x / 2 ^ ex)) <= 2 ^ 53).
    { rewrite <- (two_pow_Z 53) by lia. rewrite <- Zle_Qle.
      rewrite <- (round_half_even_Z (2 ^ 53)).
      apply round_half_even_mono. rewrite (two_pow_Z 53) by lia.
      apply Qle_shift_div_r; [exact Px|].
      rewrite <- two_pow_plus.
      pose proof (two_pow_le (ilog2 x + 1) (53 + ex) ltac:(lia)). lra. }
    (* the significand of [y] is at least 2^52 *)
    assert (My : 2 ^ 52 <= inject_Z (round_half_even (y / 2 ^ ey))).
    { rewrite <- (two_pow_Z 52) by lia. rewrite <- Zle_Qle.
      rewrite <- (round_half_even_Z (2 ^ 52)) at 1.
      apply round_half_even_mono. rewrite (two_pow_Z 52) by lia.
      apply Qle_shift_div_l; [exact Py|].
      rewrite <- two_pow_plus.
      replace (52 + ey)%Z with (ilog2 y) by lia. exact Ly. }
    pose proof (two_pow_le (53 + ex) (52 + ey) ltac:(lia)) as P.
    rewrite !two_pow_plus in P.
    generalize dependent (inject_Z (round_half_even (x / 2 ^ ex))).
    generalize dependent (inject_Z (round_half_even (y / 2 ^ ey))).
    generalize dependent (2 ^ ex). generalize dependent (2 ^ ey).
    generalize dependent (2 ^ 53). generalize dependent (2 ^ 52).
    intros. nra.
Qed.

Lemma fl_nonneg (q : Q) : 0 <= q -> 0 <= fl q.
Proof.
  intros H. destruct (Qeq_dec q 0) as [Z|N].
  - rewrite (fl_zero q Z). lra.
  - assert (Hq : 0 < q) by lra. rewrite (fl_pos q Hq). cbn zeta.
    apply Qmult_le_0_compat; [|apply Qlt_le_weak, two_pow_pos].
    change 0 with (inject_Z 0). rewrite <- Zle_Qle.
    rewrite <- (round_half_even_Z 0). apply round_half_even_mono.
    apply Qle_shift_div_l; [apply two_pow_pos |].
    change (inject_Z 0) with 0. lra.
Qed.

Lemma fl_mono (x y : Q) : 0 <= x -> x <= y -> fl x <= fl y.
Proof.
  intros Hx L. destruct (Qeq_dec x 0) as [Z|N].
  - rewrite (fl_zero x Z). apply fl_nonneg. lra.
  - apply fl_mono_pos; lra.
Qed.
End Binary64Rounding.

(** [fl] against the floats of the machine, on numbers the program meets:
    the angle of centre column 368 of a frame 2304 pixels wide, which is
    [28.749999999999996] and not [28.75], a distance of [0.075], and the
    distance of a box 1494 pixels wide; and what [round] makes of the
    first two. *)
#[local] Set Warnings "-inexact-float".
Example fl_on_binary64 :
  (exists y, Py.to_Q (368 / 2304 * 180)%float = Some y /\
             y == Py.fl (Py.fl (368 # 2304) * 180)) /\
  (exists y, Py.to_Q 0.075%float = Some y /\ y == Py.fl (75 # 1000)) /\
  (exists y, Py.to_Q (0.08 * 1200 / 1494)%float = Some y /\
             y == Py.fl (96 # 1494)) /\
  Py.fl (Py.fl (368 # 2304) * 180) < 2875 # 100 /\
  Py.round (Py.fl (Py.fl (368 # 2304) * 180)) 1 == 287 # 10 /\
  Py.round (75 # 1000) 2 == 7 # 100.
Proof.
  split; [|split; [|split; [|split; [|split]]]];
    try (eexists; split; [vm_compute; reflexivity|]);
    vm_compute; reflexivity.
Qed.
#[local] Set Warnings "inexact-float".

Section RoundingFacts.
Import Py.

Lemma round_comp (x y : Q) (n : nat) : x == y -> round x n = round y n.
Proof. intros E. unfold round. by rewrite (fl_comp x y E). Qed.

Lemma round_fl_mono (x y : Q) (n : nat) :
  fl x <= fl y -> round x n <= round y n.
Proof.
  intros F. unfold round.
  assert (M : fl x * (Z.pos (pow10 n) # 1) <= fl y * (Z.pos (pow10 n) # 1)).
  { apply Qmult_le_compat_r; [exact F | easy]. }
  apply round_half_even_mono in M.
  unfold Qle. simpl. nia.
Qed.

Lemma round_mono (x y : Q) (n : nat) :
  0 <= x -> x <= y -> round x n <= round y n.
Proof. intros Hx L. by apply round_fl_mono, fl_mono. Qed.

Lemma round_antisym (x y : Q) (n : nat) :
  round x n <= round y n -> round y n <= round x n -> round x n = round y n.
Proof.
  unfold round, Qle. cbn. intros A B. f_equal. nia.
Qed.

Lemma round_half_even_error (z : Q) :
  z - (1 # 2) <= inject_Z (round_half_even z) <= z + (1 # 2).
Proof.
  pose proof (Qfloor_le z) as L. pose proof (Qlt_floor z) as U.
  rewrite inject_Z_plus in U. change (inject_Z 1) with 1 in U.
  unfold round_half_even.
  destruct (Qcompare_spec (z - inject_Z (Qfloor z)) (1 # 2));
    [destruct (Z.even (Qfloor z))| |];
    rewrite ?inject_Z_plus; change (inject_Z 1) with 1; lra.
Qed.

Lemma round_half_even_near (z : Q) (k : Z) :
  inject_Z k - (1 # 2) < z -> z < inject_Z k + (1 # 2) ->
  round_half_even z = k.
Proof.
  intros L U. pose proof (round_half_even_error z) as [A B].
  assert (H1 : inject_Z (round_half_even z) < inject_Z (k + 1)).
  { rewrite inject_Z_plus. change (inject_Z 1) with 1. lra. }
  assert (H2 : inject_Z (k - 1) < inject_Z (round_half_even z)).
  { assert (E : inject_Z (k - 1) == inject_Z k - 1).
    { unfold Qeq, Qminus, Qplus, Qopp, inject_Z. cbn. lia. }
    lra. }
  rewrite <- Zlt_Qlt in H1, H2. lia.
Qed.

(** The error of [fl] on a positive number in the normal range is at most
    half a unit in the last place. *)
Lemma fl_error (q : Q) :
  0 < q -> (-1022 <= ilog2 q)%Z ->
  q - 2 ^ (ilog2 q - 52) * (1 # 2) <= fl q <= q + 2 ^ (ilog2 q - 52) * (1 # 2).
Proof.
  intros Hq N. rewrite (fl_pos q Hq). cbn zeta.
  replace (Z.max (ilog2 q - 52) (-1074)) with (ilog2 q - 52)%Z by lia.
  pose proof (two_pow_pos (ilog2 q - 52)) as P.
  pose proof (round_half_even_error (q / 2 ^ (ilog2 q - 52))) as [A B].
  assert (E : q == q / 2 ^ (ilog2 q - 52) * 2 ^ (ilog2 q - 52)).
  { field. lra. }
  generalize dependent (inject_Z (round_half_even (q / 2 ^ (ilog2 q - 52)))).
  generalize dependent (q / 2 ^ (ilog2 q - 52)).
  generalize dependent (2 ^ (ilog2 q - 52)).
  intros u P z E m A B. nra.
Qed.

(** Rounding to [n] decimals the binary64 number nearest to a decimal of at
    most [n] decimals gives that decimal back, below [2^52] units. *)
Lemma decimal_fixed (k : Z) (s : positive) :
  (0 <= k < 2 ^ 52)%Z -> (Zpos s <= 2 ^ 1000)%Z ->
  round_half_even (fl (k # s) * (Zpos s # 1)) = k.
Proof.
  intros [L U] S. destruct (Z.eq_dec k 0%Z) as [->|N].
  { rewrite (fl_zero (0 # s)) by reflexivity. reflexivity. }
  set (y := k # s).
  assert (Ey : inject_Z k == y * (Zpos s # 1)).
  { unfold y, Qeq, Qmult, inject_Z. cbn. lia. }
  assert (Hs : 1 <= (Zpos s # 1)).
  { unfold Qle. cbn. lia. }
  assert (Hs' : (Zpos s # 1) <= 2 ^ 1000).
  { rewrite <- (two_pow_Z 1000) by lia.
    change (Zpos s # 1) with (inject_Z (Zpos s)). by rewrite <- Zle_Qle. }
  assert (Hk : 1 <= inject_Z k).
  { change 1 with (inject_Z 1). rewrite <- Zle_Qle. lia. }
  assert (Hk' : inject_Z k < 2 ^ 52).
  { rewrite <- (two_pow_Z 52) by lia. by rewrite <- Zlt_Qlt. }
  assert (Hy : 0 < y) by nra.
  destruct (ilog2_spec y Hy) as [Ly Uy].
  assert (Ni : (-1022 <= ilog2 y)%Z).
  { destruct (Z_le_gt_dec (-1022)%Z (ilog2 y)) as [C|C]; [exact C|].
    pose proof (two_pow_le (ilog2 y + 1) (-1000) ltac:(lia)) as P.
    assert (Q1 : 2 ^ (-1000) * 2 ^ 1000 == 1).
    { rewrite <- two_pow_plus. reflexivity. }
    pose proof (two_pow_pos (-1000)) as P1.
    generalize dependent (2 ^ (-1000)). generalize dependent (2 ^ 1000).
    generalize dependent (2 ^ (ilog2 y + 1)). intros. nra. }
  destruct (fl_error y Hy Ni) as [A B].
  assert (Ei : 2 ^ ilog2 y == 2 ^ (ilog2 y - 52) * 2 ^ 52).
  { rewrite <- two_pow_plus. replace (ilog2 y - 52 + 52)%Z with (ilog2 y) by lia.
    reflexivity. }
  pose proof (two_pow_pos (ilog2 y - 52)) as Pu.
  pose proof (two_pow_pos 52) as P52.
  apply round_half_even_near.
  - generalize dependent (2 ^ (ilog2 y - 52)). generalize dependent (2 ^ 52).
    generalize dependent (2 ^ ilog2 y). generalize dependent (fl y).
    generalize dependent (inject_Z k). generalize dependent (Zpos s # 1).
    intros. nra.
  - generalize dependent (2 ^ (ilog2 y - 52)). generalize dependent (2 ^ 52).
    generalize dependent (2 ^ ilog2 y). generalize dependent (fl y).
    generalize dependent (inject_Z k). generalize dependent (Zpos s # 1).
    intros. nra.
Qed.

Lemma round_3_fixed (k : Z) :
  (0 <= k <= 9600)%Z -> round (k # 1000) 3 = k # 1000.
Proof.
  intros B. unfold round. change (pow10 3) with 1000%positive. f_equal.
  apply decimal_fixed; [|apply Z.leb_le; vm_compute; reflexivity].
  split; [lia|]. apply Z.le_lt_trans with 9600%Z; [lia|].
  apply Z.ltb_lt. vm_compute. reflexivity.
Qed.

Lemma round_3_range (d : Q) :
  0 <= d -> d <= 96 # 10 ->
  exists k, (0 <= k <= 9600)%Z /\ round d 3 = k # 1000.
Proof.
  intros L U. unfold round. change (pow10 3) with 1000%positive.
  eexists. split; [|reflexivity].
  pose proof (fl_nonneg d L) as F0.
  pose proof (fl_mono d (96 # 10) L U) as F1.
  split.
  - rewrite <- (round_half_even_Z 0). apply round_half_even_mono.
    change (inject_Z 0) with 0. nra.
  - assert (E : round_half_even (fl (96 # 10) * (1000 # 1)) = 9600%Z)
      by (vm_compute; reflexivity).
    rewrite <- E. apply round_half_even_mono.
    apply Qmult_le_compat_r; [exact F1 | discriminate].
Qed.

(** Rounding twice is rounding once on the values the program logs. *)
Lemma round_idem_in_range (x : Q) (n : nat) :
  0 <= x -> x <= 1000 -> (1 <= n <= 3)%nat ->
  round (round x n) n = round x n.
Proof.
  intros L U N.
  pose proof (fl_nonneg x L) as F0.
  pose proof (fl_mono x 1000 L U) as F1.
  assert (E : fl 1000 == 1000) by (vm_compute; reflexivity).
  rewrite E in F1.
  unfold round. f_equal.
  apply decimal_fixed.
  - split.
    + rewrite <- (round_half_even_Z 0). apply round_half_even_mono.
      change (inject_Z 0) with 0.
      apply Qmult_le_0_compat; [exact F0 | discriminate].
    + apply Z.le_lt_trans
        with (round_half_even (1000 * (Zpos (pow10 n) # 1))).
      * apply round_half_even_mono.
        apply Qmult_le_compat_r; [exact F1 | discriminate].
      * destruct n as [|[|[|[|n]]]]; try lia;
          apply Z.ltb_lt; vm_compute; reflexivity.
  - destruct n as [|[|[|[|n]]]]; try lia;
      apply Z.leb_le; vm_compute; reflexivity.
Qed.

Lemma round_3_idem (d : Q) :
  0 <= d -> d <= 96 # 10 -> round (round d 3) 3 = round d 3.
Proof.
  intros L U. destruct (round_3_range d L U) as (k & B & ->).
  by apply round_3_fixed.
Qed.
End RoundingFacts.

Section DictFacts.
Import Py.
Context {V : Type}.
Implicit Types (d : list (string * V)) (k : string) (v : V).

Lemma dict_get_set_eq k v d : dict_get k (dict_set k v d) = Some v.
Proof.
  induction d as [|[k' v'] d IH]; cbn [dict_get dict_set];
    repeat (case_decide; cbn [dict_get]); congruence.
Qed.

Lemma dict_get_set_ne k k' v d :
  k <> k' -> dict_get k' (dict_set k v d) = dict_get k' d.
Proof.
  intros N. induction d as [|[k0 v0] d IH]; cbn [dict_get dict_set];
    repeat (case_decide; cbn [dict_get]); congruence.
Qed.

Lemma dict_get_None k d : dict_get k d = None <-> k ∉ d.*1.
Proof.
  induction d as [|[k' v'] d IH]; cbn [dict_get fmap list_fmap fst].
  - split; [intros _; apply not_elem_of_nil | reflexivity].
  - rewrite not_elem_of_cons. case_decide.
    + split; [discriminate | intros [? _]; congruence].
    + rewrite IH. tauto.
Qed.

Lemma dict_set_keys k v d :
  (dict_set k v d).*1 = if decide (k ∈ d.*1) then d.*1 else (d.*1 ++ [k])%list.
Proof.
  induction d as [|[k' v'] d IH]; cbn [dict_set fmap list_fmap fst app].
  - case_decide as I; [by apply elem_of_nil in I | reflexivity].
  - destruct (decide (k = k')) as [->|N]; cbn [fmap list_fmap fst].
    + rewrite decide_True; [reflexivity | apply list_elem_of_here].
    + fold (@fmap list _ _ _ (@fst string V) (dict_set k v d)). rewrite IH.
      destruct (decide (k ∈ d.*1)) as [I|I].
      * rewrite decide_True; [reflexivity | by apply list_elem_of_further].
      * rewrite decide_False; [reflexivity |].
        rewrite not_elem_of_cons. done.
Qed.

Lemma dict_set_NoDup k v d : NoDup d.*1 -> NoDup (dict_set k v d).*1.
Proof.
  intros ND. rewrite dict_set_keys. destruct (decide (k ∈ d.*1)); [done|].
  apply NoDup_app. split; [done|]. split.
  - intros x Hx Hk. apply list_elem_of_singleton in Hk. congruence.
  - apply NoDup_singleton.
Qed.
End DictFacts.

(** ** The distance estimate and the speed update *)

Section DistanceAndSpeed.
Import Py Insect.

Lemma Qle_bool_false (x y : Q) : Qle_bool x y = false <-> y < x.
Proof.
  rewrite <- not_true_iff_false, Qle_bool_iff. split; intros H; lra.
Qed.

Lemma truediv_nonzero (x y : Q) : ~ y == 0 -> truediv x y = Ok (x / y).
Proof.
  intros N. unfold truediv. destruct (Qeq_bool y 0) eqn:E; [|reflexivity].
  apply Qeq_bool_eq in E. contradiction.
Qed.

Lemma get_distance_meters_guarded (w r f : Q) :
  w <= 0 \/ r <= 0 \/ f <= 0 -> get_distance_meters w r f = Ok 0.
Proof.
  intros H. unfold get_distance_meters.
  assert (G : Qle_bool w 0 || Qle_bool f 0 || Qle_bool r 0 = true).
  { rewrite !orb_true_iff, !Qle_bool_iff. tauto. }
  rewrite G. reflexivity.
Qed.

Lemma get_distance_meters_positive (w r f : Q) :
  0 < w -> 0 < r -> 0 < f -> get_distance_meters w r f = Ok (r * f / w).
Proof.
  intros Hw Hr Hf. unfold get_distance_meters.
  apply Qle_bool_false in Hw as Gw. apply Qle_bool_false in Hr as Gr.
  apply Qle_bool_false in Hf as Gf. rewrite Gw, Gr, Gf. cbn [orb].
  apply truediv_nonzero. lra.
Qed.

Lemma get_distance_meters_total (w r f : Q) :
  exists d, get_distance_meters w r f = Ok d.
Proof.
  destruct (Qlt_le_dec 0 w) as [Hw|Hw];
    [destruct (Qlt_le_dec 0 r) as [Hr|Hr];
     [destruct (Qlt_le_dec 0 f) as [Hf|Hf]|]|].
  - eexists. by apply get_distance_meters_positive.
  - exists 0. apply get_distance_meters_guarded. tauto.
  - exists 0. apply get_distance_meters_guarded. tauto.
  - exists 0. apply get_distance_meters_guarded. tauto.
Qed.

Variable np_sqrt : Z -> Q.

Lemma update_speed_total now lbl cx cy tracker :
  exists tracker', update_speed np_sqrt now lbl cx cy tracker = Ok tracker'.
Proof.
  unfold update_speed.
  destruct (tracker !! lbl) as [[[[px py] pt] prev]|]; [|eauto].
  destruct (Qlt_bool 0 (now - pt)) eqn:E; [|eauto].
  apply Qlt_bool_iff in E. rewrite truediv_nonzero by lra.
  cbn. eauto.
Qed.
End DistanceAndSpeed.

Section Binary64Facts.
Import Py FloatAxioms.

Lemma positive_not_le_zero (w : PrimFloat.float) :
  (0 <? w)%float = true -> (w <=? 0)%float = false.
Proof.
  rewrite ltb_spec, leb_spec.
  change (Prim2SF 0) with (S754_zero false).
  destruct (Prim2SF w) as [[]|[]| |[] m e]; cbn; try discriminate; auto.
Qed.

Lemma not_le_zero_not_zero (w : PrimFloat.float) :
  (w <=? 0)%float = false -> (w =? 0)%float = false.
Proof.
  rewrite leb_spec, eqb_spec.
  change (Prim2SF 0) with (S754_zero false).
  destruct (Prim2SF w) as [[]|[]| |[] m e]; cbn; try discriminate; auto.
Qed.

Lemma binary64_truediv_nonzero (x y : PrimFloat.float) :
  (y <=? 0)%float = false -> Binary64.truediv x y = Ok (x / y)%float.
Proof.
  intros H. unfold Binary64.truediv.
  rewrite (not_le_zero_not_zero y H). reflexivity.
Qed.

Lemma binary64_distance_guarded (w r f : PrimFloat.float) :
  (w <=? 0)%float = true \/ (r <=? 0)%float = true \/ (f <=? 0)%float = true ->
  Binary64.get_distance_meters w r f = Ok 0%float.
Proof.
  intros H. unfold Binary64.get_distance_meters.
  assert (G : (w <=? 0)%float || (f <=? 0)%float || (r <=? 0)%float = true).
  { rewrite !orb_true_iff. tauto. }
  rewrite G. reflexivity.
Qed.

Lemma binary64_distance_unguarded (w r f : PrimFloat.float) :
  (w <=? 0)%float = false -> (r <=? 0)%float = false ->
  (f <=? 0)%float = false ->
  Binary64.get_distance_meters w r f = Ok (r * f / w)%float.
Proof.
  intros Hw Hr Hf. unfold Binary64.get_distance_meters.
  rewrite Hw, Hr, Hf. cbn [orb]. by apply binary64_truediv_nonzero.
Qed.

Lemma binary64_distance_total (w r f : PrimFloat.float) :
  exists d, Binary64.get_distance_meters w r f = Ok d.
Proof.
  destruct (w <=? 0)%float eqn:Hw;
    [|destruct (r <=? 0)%float eqn:Hr; [|destruct (f <=? 0)%float eqn:Hf]].
  - eexists. apply binary64_distance_guarded. tauto.
  - eexists. apply binary64_distance_guarded. tauto.
  - eexists. apply binary64_distance_guarded. tauto.
  - eexists. by apply binary64_distance_unguarded.
Qed.

Lemma binary64_update_speed_total np_sqrt now lbl cx cy tracker :
  exists tracker',
    Binary64.update_speed np_sqrt now lbl cx cy tracker = Ok tracker'.
Proof.
  unfold Binary64.update_speed.
  destruct (tracker !! lbl) as [[[[px py] pt] prev]|]; [|eauto].
  destruct (0 <? now - pt)%float eqn:E; [|eauto].
  rewrite binary64_truediv_nonzero by (by apply positive_not_le_zero).
  cbn. eauto.
Qed.
End Binary64Facts.

#[local] Set Warnings "-inexact-float".

(** C3.  For every bounding-box width [width_px > 0], real-world width
    [real_width_m > 0] and focal length [focal_px > 0],
    [get_distance_meters] returns the pinhole-camera estimate
    [(real_width_m * focal_px) / width_px], computed on binary64 floats as
    the program computes it. *)
Theorem get_distance_meters_pinhole
    (width_px real_width_m focal_px : PrimFloat.float) :
  (0 <? width_px)%float = true ->
  (0 <? real_width_m)%float = true ->
  (0 <? focal_px)%float = true ->
  Binary64.get_distance_meters width_px real_width_m focal_px
  = Py.Ok (real_width_m * focal_px / width_px)%float.
Proof.
  intros Hw Hr Hf.
  apply binary64_distance_unguarded; by apply positive_not_le_zero.
Qed.

Lemma get_distance_meters_pinhole_witness :
  ((0 <? 100)%float = true /\ (0 <? 0.08)%float = true /\
   (0 <? 1200)%float = true) /\
  Binary64.get_distance_meters 100 0.08 1200
  = Py.Ok (0.08 * 1200 / 100)%float.
Proof.
  split; [repeat split; reflexivity |].
  apply (get_distance_meters_pinhole 100 0.08 1200); reflexivity.
Defined.

(** A box 100 pixels wide is 0.96 m away, on binary64 and on the exact
    rationals of module [Insect]. *)
Example get_distance_meters_of_100_pixels :
  Binary64.get_distance_meters 100 0.08 1200 = Py.Ok 0.96%float /\
  exists d, Insect.get_distance_meters 100 (8 # 100) 1200 = Py.Ok d /\
            d == 96 # 100.
Proof.
  split; [vm_compute; reflexivity |].
  eexists. split; [vm_compute; reflexivity | reflexivity].
Qed.

(** C4.  When the label is already in the speed tracker with centroid
    [(px, py)] at time [pt] and the elapsed time [now - pt] is strictly
    positive, the speed recorded for it is
    [sqrt((cx-px)^2 + (cy-py)^2) * 0.02 / (now - pt)]; on the first detection
    of a label the recorded speed is [0.0]; and when the elapsed time is not
    positive the tracker, hence the recorded speed, is left as it was.  The
    update never raises.  All of it on binary64 floats. *)
Theorem speed_tracker_update (np_sqrt : Z -> PrimFloat.float)
    (now : PrimFloat.float) (lbl : string) (cx cy : Z)
    (tracker : gmap string (Z * Z * PrimFloat.float * PrimFloat.float)) :
  exists tracker',
    Binary64.update_speed np_sqrt now lbl cx cy tracker = Py.Ok tracker' /\
    (forall px py pt prev,
        tracker !! lbl = Some (px, py, pt, prev) ->
        (0 <? now - pt)%float = true ->
        tracker' !! lbl
        = Some (cx, cy, now,
                (np_sqrt ((cx - px) ^ 2 + (cy - py) ^ 2)%Z * 0.02
                 / (now - pt))%float)) /\
    (tracker !! lbl = None -> tracker' !! lbl = Some (cx, cy, now, 0%float)) /\
    (forall px py pt prev,
        tracker !! lbl = Some (px, py, pt, prev) ->
        (0 <? now - pt)%float = false ->
        tracker' = tracker /\ tracker' !! lbl = Some (px, py, pt, prev)).
Proof.
  unfold Binary64.update_speed.
  destruct (tracker !! lbl) as [[[[px py] pt] prev]|] eqn:L.
  - destruct (0 <? now - pt)%float eqn:E.
    + rewrite binary64_truediv_nonzero by (by apply positive_not_le_zero).
      cbn. eexists. split; [reflexivity|]. split; [|split].
      * intros ? ? ? ? [= <- <- <- <-] _. apply lookup_insert_eq.
      * discriminate.
      * intros ? ? ? ? [= <- <- <- <-] N. congruence.
    + eexists. split; [reflexivity|]. split; [|split].
      * intros ? ? ? ? [= <- <- <- <-] P. congruence.
      * discriminate.
      * intros ? ? ? ? [= <- <- <- <-] _. split; [reflexivity | exact L].
  - eexists. split; [reflexivity|]. split; [|split]; try discriminate.
    intros _. apply lookup_insert_eq.
Qed.

(** The three cases of the speed update on a label that moves by a 3-4-5
    triangle in two seconds, then is seen again at the same instant. *)
Example speed_tracker_update_moving :
  Binary64.update_speed (fun z => PrimFloat.sqrt (PrimFloat.of_uint63 (Uint63.of_Z z)))
    3 "fly" 13 24 {[ "fly" := (10%Z, 20%Z, 1%float, 0%float) ]}
  = Py.Ok {[ "fly" := (13%Z, 24%Z, 3%float, 0.05%float) ]}.
Proof. vm_compute. reflexivity. Qed.

Example speed_tracker_update_first :
  Binary64.update_speed (fun z => PrimFloat.sqrt (PrimFloat.of_uint63 (Uint63.of_Z z)))
    3 "fly" 13 24 ∅
  = Py.Ok {[ "fly" := (13%Z, 24%Z, 3%float, 0%float) ]}.
Proof. vm_compute. reflexivity. Qed.

Example speed_tracker_update_same_instant :
  Binary64.update_speed (fun z => PrimFloat.sqrt (PrimFloat.of_uint63 (Uint63.of_Z z)))
    1 "fly" 13 24 {[ "fly" := (10%Z, 20%Z, 1%float, 0.7%float) ]}
  = Py.Ok {[ "fly" := (10%Z, 20%Z, 1%float, 0.7%float) ]}.
Proof. vm_compute. reflexivity. Qed.

(** C8.  The distance and speed formulas never divide by zero:
    [get_distance_meters] returns [0.0] whenever one of its arguments is
    [<= 0] and divides, by a non-zero width, only otherwise; it never raises.
    The speed update divides by the elapsed time only when that time is
    strictly positive: for a tracked label it returns the tracker as it is,
    with no quotient in it, whenever the elapsed time is not [> 0] (zero,
    negative or NaN), and otherwise the elapsed time is not zero and the
    speed it stores is the quotient by it; it never raises either.  This
    holds on binary64 floats, NaN and signed zeros included, and on the
    rationals of module [Insect]. *)
Theorem distance_and_speed_division_guarded :
  (forall w r f : PrimFloat.float,
      (w <=? 0)%float = true \/ (r <=? 0)%float = true
      \/ (f <=? 0)%float = true ->
      Binary64.get_distance_meters w r f = Py.Ok 0%float) /\
  (forall w r f : PrimFloat.float,
      (w <=? 0)%float = false -> (r <=? 0)%float = false ->
      (f <=? 0)%float = false ->
      (w =? 0)%float = false /\
      Binary64.get_distance_meters w r f = Binary64.truediv (r * f)%float w) /\
  (forall (w r f : PrimFloat.float) e,
      Binary64.get_distance_meters w r f <> Py.Raise e) /\
  (forall np_sqrt now lbl cx cy tracker e,
      Binary64.update_speed np_sqrt now lbl cx cy tracker <> Py.Raise e) /\
  (forall (w r f : Q) e, Insect.get_distance_meters w r f <> Py.Raise e) /\
  (forall np_sqrt now lbl cx cy tracker e,
      Insect.update_speed np_sqrt now lbl cx cy tracker <> Py.Raise e) /\
  (forall np_sqrt now lbl cx cy tracker px py pt prev,
      tracker !! lbl = Some (px, py, pt, prev) ->
      ((0 <? now - pt)%float = false ->
       Binary64.update_speed np_sqrt now lbl cx cy tracker = Py.Ok tracker) /\
      ((0 <? now - pt)%float = true ->
       (now - pt =? 0)%float = false /\
       Binary64.update_speed np_sqrt now lbl cx cy tracker
       = Py.Ok (<[lbl := (cx, cy, now,
                          (np_sqrt ((cx - px) ^ 2 + (cy - py) ^ 2)%Z * 0.02
                           / (now - pt))%float)]> tracker))) /\
  (forall np_sqrt now lbl cx cy tracker px py pt prev,
      tracker !! lbl = Some (px, py, pt, prev) ->
      (~ 0 < now - pt ->
       Insect.update_speed np_sqrt now lbl cx cy tracker = Py.Ok tracker) /\
      (0 < now - pt ->
       ~ now - pt == 0 /\
       Insect.update_speed np_sqrt now lbl cx cy tracker
       = Py.Ok (<[lbl := (cx, cy, now,
                          np_sqrt ((cx - px) ^ 2 + (cy - py) ^ 2)%Z * (2 # 100)
                          / (now - pt))]> tracker))).
Proof.
  split; [|split; [|split; [|split; [|split; [|split; [|split]]]]]].
  - apply binary64_distance_guarded.
  - intros w r f Hw Hr Hf. split; [by apply not_le_zero_not_zero|].
    rewrite binary64_distance_unguarded by assumption.
    symmetry. by apply binary64_truediv_nonzero.
  - intros w r f e. destruct (binary64_distance_total w r f) as [d ->].
    discriminate.
  - intros sq now lbl cx cy tracker e.
    destruct (binary64_update_speed_total sq now lbl cx cy tracker) as [t ->].
    discriminate.
  - intros w r f e. destruct (get_distance_meters_total w r f) as [d ->].
    discriminate.
  - intros sq now lbl cx cy tracker e.
    destruct (update_speed_total sq now lbl cx cy tracker) as [t ->].
    discriminate.
  - intros sq now lbl cx cy tracker px py pt prev L.
    unfold Binary64.update_speed. rewrite L. split; intros E; rewrite E.
    + reflexivity.
    + pose proof (positive_not_le_zero _ E) as N.
      split; [by apply not_le_zero_not_zero|].
      rewrite binary64_truediv_nonzero by exact N. reflexivity.
  - intros sq now lbl cx cy tracker px py pt prev L.
    unfold Insect.update_speed. rewrite L. split; intros E.
    + destruct (Py.Qlt_bool 0 (now - pt)) eqn:C; [|reflexivity].
      apply Qlt_bool_iff in C. contradiction.
    + assert (C : Py.Qlt_bool 0 (now - pt) = true) by (by apply Qlt_bool_iff).
      rewrite C. split; [lra|].
      rewrite truediv_nonzero by lra. reflexivity.
Qed.

#[local] Set Warnings "inexact-float".

(** ** Invariants of the capture loop *)

Section LoopInvariants.
Import Py Insect.
Variable np_sqrt : Z -> Q.

Lemma process_detection_inv sh now d st st' :
  process_detection np_sqrt sh now d st = Ok st' ->
  prev_time st' = prev_time st /\
  json_data st' = json_data st /\
  frame_id st' = frame_id st /\
  species_summary st'
  = update_summary (d_label d) (angle_of sh d)
      (d_distance_m d) (species_summary st) /\
  nearest_encounter st'
  = update_nearest (frame_id st) (d_label d) (d_distance_m d)
      (angle_of sh d) (nearest_encounter st) /\
  trajectories st'
  = push_trail (d_label d)
      (radar_point sh ((d_x1 d + d_x2 d) / 2) (d_distance_m d))
      (trajectories st) /\
  trace st'
  = Detected (frame_id st) (d_label d) (d_distance_m d) (angle_of sh d)
      :: trace st.
Proof.
  unfold process_detection.
  destruct (update_speed_total np_sqrt now (d_label d)
              ((d_x1 d + d_x2 d) / 2) ((d_y1 d + d_y2 d) / 2)
              (speed_tracker st)) as [t ->].
  cbn. intros [= <-]. cbn. repeat split.
Qed.

Lemma process_detection_total sh now d st :
  exists st', process_detection np_sqrt sh now d st = Ok st'.
Proof.
  unfold process_detection.
  destruct (update_speed_total np_sqrt now (d_label d)
              ((d_x1 d + d_x2 d) / 2) ((d_y1 d + d_y2 d) / 2)
              (speed_tracker st)) as [t ->].
  cbn. eauto.
Qed.

(** The loop over the detections of a frame runs to its end. *)
Lemma process_detections_total sh now ds st :
  (process_detections np_sqrt sh now ds st).2 = None.
Proof.
  revert st. induction ds as [|d ds IH]; intros st; cbn; [reflexivity|].
  destruct (process_detection_total sh now d st) as [st' ->]. apply IH.
Qed.

Section Rule.
Variable P : state -> Prop.
Hypothesis P_detection : forall sh now d st st',
    P st -> process_detection np_sqrt sh now d st = Ok st' -> P st'.
Hypothesis P_forget : forall lbl st, P st -> P (forget lbl st).

Lemma process_detections_preserves sh now ds st :
  P st -> P (process_detections np_sqrt sh now ds st).1.
Proof.
  revert st. induction ds as [|d ds IH]; intros st H; cbn; [exact H|].
  destruct (process_detection np_sqrt sh now d st) as [st'|e] eqn:E.
  - apply IH. eapply P_detection; eauto.
  - exact H.
Qed.

Lemma remove_missing_preserves current st :
  P st -> P (remove_missing current st).
Proof.
  unfold remove_missing.
  generalize ((map_to_list (trajectories st)).*1) as l.
  intros l. revert st. induction l as [|lbl l IH]; intros st H; cbn;
    [exact H|].
  apply IH. case_decide; [exact H | by apply P_forget].
Qed.

Hypothesis P_next : forall st, P st -> P (next_frame st).
Hypothesis P_save : forall ts st,
    P st -> P (save_species_summary_to_json ts st).
Hypothesis P_time : forall t st, P st -> P (set_prev_time t st).

Lemma iteration_preserves c st :
  P st -> P (final_state (iteration np_sqrt c st)).
Proof.
  intros H. destruct c as [|e|f now stamp curr key]; cbn; try exact H.
  destruct (detect f) as [ds|e]; cbn; [|exact H].
  pose proof (process_detections_preserves (shape1 f) now ds st H) as H1.
  destruct (process_detections np_sqrt (shape1 f) now ds st) as [st1 [e|]];
    cbn in *; [exact H1|].
  apply (remove_missing_preserves (current_labels ds)) in H1.
  apply P_next in H1.
  set (st3 := next_frame _) in *.
  assert (H4 : P (if (frame_id st3 mod 30 =? 0)%nat
                  then save_species_summary_to_json stamp st3 else st3)).
  { destruct (_ =? _)%nat; [by apply P_save | exact H1]. }
  set (st4 := if (_ =? _)%nat then _ else _) in *.
  destruct (if Qeq_bool (prev_time st4) 0 then _ else _); cbn; [|exact H4].
  destruct key; cbn; by apply P_time.
Qed.

Lemma main_loop_preserves cs st :
  P st -> P (final_state (main_loop np_sqrt cs st)).
Proof.
  revert st. induction cs as [|c cs IH]; intros st H; cbn; [exact H|].
  pose proof (iteration_preserves c st H) as Hc.
  destruct (iteration np_sqrt c st); cbn in *; [by apply IH | exact Hc..].
Qed.
End Rule.

Lemma deque_append_length {A} (x : A) (d : deque A) :
  (length (items d) <= maxlen d)%nat ->
  (length (items (deque_append x d)) <= maxlen d)%nat.
Proof.
  intros H. unfold deque_append. cbn [items].
  destruct (Nat.ltb_spec (maxlen d) (length (items d ++ [x]))) as [L|L];
    [|exact L].
  destruct (items d) as [|y l]; cbn in *; rewrite ?length_app in *; cbn in *;
    lia.
Qed.

Lemma deque_append_full {A} (x : A) (d : deque A) :
  length (items d) = maxlen d -> (0 < maxlen d)%nat ->
  items (deque_append x d) = (drop 1 (items d) ++ [x])%list.
Proof.
  intros H Hpos. unfold deque_append. cbn [items].
  destruct (Nat.ltb_spec (maxlen d) (length (items d ++ [x]))) as [L|L].
  - destruct (items d) as [|y l]; [cbn in H; lia | reflexivity].
  - rewrite length_app in L. cbn in L. lia.
Qed.

Lemma push_trail_bounded lbl p trails :
  trails_bounded trails -> trails_bounded (push_trail lbl p trails).
Proof.
  intros H k d. unfold push_trail.
  destruct (trails !! lbl) as [d0|] eqn:L.
  - rewrite L. destruct (decide (lbl = k)) as [<-|N].
    + rewrite lookup_insert_eq. intros [= <-].
      destruct (H _ _ L) as [M B]. cbn [maxlen deque_append].
      split; [exact M|]. rewrite <- M. apply deque_append_length. lia.
    + rewrite lookup_insert_ne by done. apply H.
  - rewrite lookup_insert_eq, insert_insert_eq.
    destruct (decide (lbl = k)) as [<-|N].
    + rewrite lookup_insert_eq. intros [= <-]. cbn. unfold MAX_TRAIL. lia.
    + rewrite lookup_insert_ne by done. apply H.
Qed.

Lemma trails_bounded_reachable loaded cs :
  trails_bounded
    (trajectories (final_state (main_loop np_sqrt cs (init loaded)))).
Proof.
  apply (main_loop_preserves (fun st => trails_bounded (trajectories st)));
    try (intros; assumption).
  - intros sh now d st st' H E.
    apply process_detection_inv in E as (_ & _ & _ & _ & _ & -> & _).
    by apply push_trail_bounded.
  - intros lbl st H k d. cbn. rewrite lookup_delete_Some. intros [_ L].
    exact (H _ _ L).
  - intros k d. cbn. rewrite lookup_empty. discriminate.
Qed.
End LoopInvariants.

(** C5.  Every per-label trail buffer holds at most [MAX_TRAIL = 30] points
    at all times: in every memory the main loop reaches each buffer is a
    deque bounded by 30 that holds at most 30 points; appending a point to a
    full buffer discards the oldest point; and the append the loop performs
    keeps every buffer within the bound. *)
Theorem trail_buffers_hold_at_most_MAX_TRAIL (np_sqrt : Z -> Q)
    (loaded : list (string * Py.json)) (cs : list Insect.capture) :
  let trails :=
    Insect.trajectories
      (Insect.final_state
         (Insect.main_loop np_sqrt cs (Insect.init loaded))) in
  (forall lbl d,
      trails !! lbl = Some d ->
      Py.maxlen d = 30%nat /\ (length (Py.items d) <= 30)%nat) /\
  (forall (d : Py.deque (Z * Z)) p,
      Py.maxlen d = 30%nat -> length (Py.items d) = 30%nat ->
      Py.items (Py.deque_append p d) = (drop 1 (Py.items d) ++ [p])%list) /\
  (forall trails0 lbl p,
      trails_bounded trails0 ->
      trails_bounded (Insect.push_trail lbl p trails0)).
Proof.
  intros trails.
  pose proof (trails_bounded_reachable np_sqrt loaded cs) as B.
  fold trails in B. split; [|split].
  - intros lbl d L. exact (B _ _ L).
  - intros d p M F. apply deque_append_full; rewrite M; [exact F | lia].
  - intros trails0 lbl p. apply push_trail_bounded.
Qed.

(** ** The snapshot schedule *)

Section SnapshotSchedule.
Import Py Insect.
Variable np_sqrt : Z -> Q.

Lemma multiples_of_30_S (n : nat) :
  multiples_of_30 (S n)
  = if (S n mod 30 =? 0)%nat then (multiples_of_30 n ++ [S n])%list
    else multiples_of_30 n.
Proof.
  unfold multiples_of_30.
  pose proof (Nat.div_mod_eq (S n) 30) as DS.
  pose proof (Nat.div_mod_eq n 30) as Dn.
  pose proof (Nat.mod_upper_bound (S n) 30) as BS.
  pose proof (Nat.mod_upper_bound n 30) as Bn.
  destruct (Nat.eqb_spec (S n mod 30) 0) as [E|E].
  - assert (D : (S n / 30 = S (n / 30))%nat) by lia.
    rewrite D, seq_S, fmap_app. cbn [fmap list_fmap]. do 3 f_equal. lia.
  - assert (D : (S n / 30 = n / 30)%nat) by lia. rewrite D. reflexivity.
Qed.

Lemma detection_phase_schedule sh now ds current st :
  let st2 :=
    remove_missing current (process_detections np_sqrt sh now ds st).1 in
  frame_id st2 = frame_id st /\
  snapshot_frames (trace st2) = snapshot_frames (trace st).
Proof.
  apply (remove_missing_preserves
           (fun s => frame_id s = frame_id st /\
                     snapshot_frames (trace s) = snapshot_frames (trace st))).
  - intros lbl s H. exact H.
  - apply (process_detections_preserves np_sqrt
             (fun s => frame_id s = frame_id st /\
                       snapshot_frames (trace s) = snapshot_frames (trace st))).
    + intros sh' now' d s s' [Hf Ht] E.
      apply process_detection_inv in E as (_ & _ & -> & _ & _ & _ & ->).
      split; [exact Hf | exact Ht].
    + split; reflexivity.
Qed.

Lemma iteration_on_schedule c st :
  on_schedule st -> on_schedule (final_state (iteration np_sqrt c st)).
Proof.
  intros H.
  destruct c as [|e|f now stamp curr key]; cbn [iteration final_state];
    try exact H.
  destruct (detect f) as [ds|e]; cbn [final_state]; [|exact H].
  pose proof (detection_phase_schedule (shape1 f) now ds (current_labels ds) st)
    as [Hf Ht].
  pose proof (process_detections_total np_sqrt (shape1 f) now ds st) as T.
  destruct (process_detections np_sqrt (shape1 f) now ds st) as [st1 o].
  cbn [fst snd] in *. subst o.
  set (st2 := remove_missing _ st1) in *.
  assert (H4 : on_schedule
                 (if (frame_id (next_frame st2) mod 30 =? 0)%nat
                  then save_species_summary_to_json stamp (next_frame st2)
                  else next_frame st2)).
  { unfold on_schedule in *.
    pose proof (multiples_of_30_S (frame_id st2)) as M.
    change (frame_id (next_frame st2)) with (S (frame_id st2)).
    destruct (S (frame_id st2) mod 30 =? 0)%nat.
    - change (snapshot_frames (trace st2) ++ [S (frame_id st2)]
              = multiples_of_30 (S (frame_id st2)))%list.
      rewrite M, Ht, H, Hf. reflexivity.
    - change (snapshot_frames (trace st2)
              = multiples_of_30 (S (frame_id st2))).
      rewrite M, Ht, H, Hf. reflexivity. }
  set (st4 := if (_ =? _)%nat then _ else _) in *.
  destruct (if Qeq_bool (prev_time st4) 0 then _ else _);
    cbn [final_state]; [|exact H4].
  destruct key; cbn [final_state]; exact H4.
Qed.

Lemma main_loop_on_schedule cs st :
  on_schedule st -> on_schedule (final_state (main_loop np_sqrt cs st)).
Proof.
  revert st. induction cs as [|c cs IH]; intros st H; cbn; [exact H|].
  pose proof (iteration_on_schedule c st H) as Hc.
  destruct (iteration np_sqrt c st); cbn in *; [by apply IH | exact Hc..].
Qed.
End SnapshotSchedule.

(** C6.  During the capture loop a snapshot of the summary is written to the
    log exactly when the frame counter reaches a positive multiple of 30:
    the counters at which snapshots were taken are 30, 60, ... up to the
    current counter, each once and in this order.  Leaving the loop writes
    one more snapshot, followed by the write that adds the nearest
    encounter. *)
Theorem snapshots_every_30_frames_and_on_exit (np_sqrt : Z -> Q)
    (loaded : list (string * Py.json)) (cs : list Insect.capture)
    (final_stamp : string) :
  let st :=
    Insect.final_state (Insect.main_loop np_sqrt cs (Insect.init loaded)) in
  snapshot_frames (Insect.trace st) = multiples_of_30 (Insect.frame_id st) /\
  exists snapshot_written log_written,
    Insect.trace (Insect.run np_sqrt loaded cs final_stamp)
    = Insect.FileWrite log_written
        :: Insect.FileWrite snapshot_written
        :: Insect.Snapshot (Insect.frame_id st) final_stamp
        :: Insect.trace st.
Proof.
  intros st. split.
  - apply main_loop_on_schedule. reflexivity.
  - unfold Insect.run. fold st. cbn. eauto.
Qed.

(** The trail bound and the snapshot schedule on a run of 31 passes that
    each see the same fly: one snapshot, taken at counter 30, and a trail of
    30 points. *)
Example thirty_one_passes :
  let st :=
    Insect.final_state
      (Insect.main_loop sqrt_floor (fly_at <$> seq 1 31) (Insect.init [])) in
  Insect.frame_id st = 31%nat /\
  snapshot_frames (Insect.trace st) = [30%nat] /\
  (length ∘ Py.items) <$> Insect.trajectories st !! "fly" = Some 30%nat.
Proof. vm_compute. repeat split. Qed.

(** ** Detections *)

Section Detections.
Import Py Insect.

Lemma in_class_labels_true lbl :
  in_class_labels lbl = true -> lbl = "fly" \/ lbl = "Cockroach".
Proof.
  unfold in_class_labels. rewrite bool_decide_eq_true.
  assert (E : (map_to_list CLASS_LABELS).*2 = ["Cockroach"; "fly"])
    by (vm_compute; reflexivity).
  rewrite E, !elem_of_cons, elem_of_nil. tauto.
Qed.

Lemma distance_of_width (w : Z) :
  (10 <= w)%Z ->
  let d := (8 # 100) * FOCAL_LENGTH_PIXELS / inject_Z w in
  d == 96 / inject_Z w /\ 0 < d /\ d <= 96 # 10.
Proof.
  intros Hw d. subst d. unfold FOCAL_LENGTH_PIXELS.
  assert (P : 10 <= inject_Z w).
  { change 10 with (inject_Z 10). by rewrite <- Zle_Qle. }
  assert (E : (8 # 100) * 1200 / inject_Z w == 96 / inject_Z w).
  { field. lra. }
  rewrite E. split; [reflexivity|]. split.
  - apply Qlt_shift_div_l; lra.
  - apply Qle_shift_div_r; lra.
Qed.

Lemma detect_box_well_formed f r b :
  exists od, detect_box f r b = Ok od /\
             forall d, od = Some d -> well_formed_detection d.
Proof.
  unfold detect_box.
  set (x1 := int (inject_Z (bx1 b) * _)). set (x2 := int (inject_Z (bx2 b) * _)).
  set (y1 := int (inject_Z (by1 b) * _)). set (y2 := int (inject_Z (by2 b) * _)).
  destruct ((x2 - x1 <? MIN_BOX_SIZE)%Z || (y2 - y1 <? MIN_BOX_SIZE)%Z) eqn:S.
  { eexists. split; [reflexivity | discriminate]. }
  apply orb_false_iff in S as [Sw Sh].
  apply Z.ltb_ge in Sw, Sh. unfold MIN_BOX_SIZE in Sw, Sh.
  set (lbl := default _ (CLASS_LABELS !! cls_id b)).
  destruct (in_class_labels lbl) eqn:L; cbn [negb].
  2:{ eexists. split; [reflexivity | discriminate]. }
  apply in_class_labels_true in L.
  assert (R : default (1 # 100) (REAL_WIDTHS_M !! lbl) = 8 # 100).
  { destruct L as [-> | ->]; reflexivity. }
  rewrite R.
  destruct (distance_of_width (x2 - x1) Sw) as (E & P & B).
  rewrite get_distance_meters_positive;
    [| change 0 with (inject_Z 0); rewrite <- Zlt_Qlt; lia
     | reflexivity | reflexivity].
  cbn. eexists. split; [reflexivity|].
  intros d [= <-]. unfold well_formed_detection. cbn. tauto.
Qed.

Lemma detect_boxes_well_formed f r bs acc :
  Forall well_formed_detection acc ->
  exists ds, detect_boxes f r bs acc = Ok ds /\ Forall well_formed_detection ds.
Proof.
  revert acc. induction bs as [|b bs IH]; intros acc H; cbn [detect_boxes].
  - eauto.
  - destruct (detect_box_well_formed f r b) as (od & -> & Hd). cbn.
    apply IH. destruct od as [d|]; [|exact H].
    apply Forall_app. split; [exact H|].
    apply Forall_cons. split; [by apply Hd | apply Forall_nil_2].
Qed.

Lemma detect_results_well_formed f rs acc :
  Forall well_formed_detection acc ->
  exists ds, detect_results f rs acc = Ok ds /\ Forall well_formed_detection ds.
Proof.
  revert acc. induction rs as [|r rs IH]; intros acc H; cbn [detect_results].
  - eauto.
  - destruct (detect_boxes_well_formed f r (boxes r) acc H) as (ds & -> & Hd).
    cbn. by apply IH.
Qed.
Lemma detect_total f : exists ds, detect f = Ok ds.
Proof.
  destruct (detect_results_well_formed f (predictions f) [] (Forall_nil_2 _))
    as (ds & E & _).
  by exists ds.
Qed.
End Detections.

(** ** The detections of a run *)

Section Sightings.
Import Py Insect.
Variable np_sqrt : Z -> Q.

Lemma process_detections_trace sh now ds st :
  let st1 := (process_detections np_sqrt sh now ds st).1 in
  frame_id st1 = frame_id st /\
  trace st1
  = (reverse ((fun d =>
                 Detected (frame_id st) (d_label d) (d_distance_m d)
                   (angle_of sh d)) <$> ds) ++ trace st)%list.
Proof.
  cbn zeta. revert st.
  induction ds as [|d ds IH]; intros st; cbn [process_detections].
  - split; reflexivity.
  - destruct (process_detection_total np_sqrt sh now d st) as [st' E].
    rewrite E.
    apply (process_detection_inv np_sqrt) in E
      as (_ & _ & Ef & _ & _ & _ & Et).
    destruct (IH st') as [F T]. rewrite F, T, Ef, Et.
    split; [reflexivity|].
    rewrite fmap_cons, reverse_cons. by rewrite <- app_assoc.
Qed.

Lemma remove_missing_trace current st :
  frame_id (remove_missing current st) = frame_id st /\
  trace (remove_missing current st) = trace st.
Proof.
  apply (remove_missing_preserves
           (fun s => frame_id s = frame_id st /\ trace s = trace st)).
  - intros lbl s H. exact H.
  - done.
Qed.

(** What one pass adds to the trace: the detections [detect] finds on the
    frame, then the snapshot and the file write of a frame counter that is a
    multiple of 30. *)
Lemma iteration_trace c st :
  let st' := final_state (iteration np_sqrt c st) in
  (seen c (frame_id st) = [] /\ st' = st) \/
  (frame_id st' = S (frame_id st) /\
   exists snap,
     trace st' = (snap ++ seen c (frame_id st) ++ trace st)%list /\
     (snap = [] \/
      exists w ts, snap = [FileWrite w; Snapshot (frame_id st') ts])).
Proof.
  cbn zeta.
  destruct c as [|e|f now stamp curr key]; cbn [iteration final_state seen];
    [by left | by left |].
  destruct (detect_total f) as [ds E]. rewrite E.
  pose proof (process_detections_total np_sqrt (shape1 f) now ds st) as T.
  destruct (process_detections_trace (shape1 f) now ds st) as [F1 T1].
  destruct (process_detections np_sqrt (shape1 f) now ds st) as [st1 o].
  cbn [fst snd] in *. subst o.
  destruct (remove_missing_trace (current_labels ds) st1) as [F2 T2].
  set (st2 := remove_missing _ st1) in *.
  right.
  destruct (frame_id (next_frame st2) mod 30 =? 0)%nat.
  - assert (G : forall st', frame_id st' = S (frame_id st2) ->
              trace st'
              = FileWrite (json_data st') :: Snapshot (S (frame_id st2)) stamp
                  :: trace st2 ->
              frame_id st' = S (frame_id st) /\
              exists snap,
                trace st'
                = (snap ++
                   reverse ((fun d =>
                               Detected (frame_id st) (d_label d)
                                 (d_distance_m d)
                                 (angle_of (shape1 f) d)) <$> ds)
                   ++ trace st)%list /\
                (snap = [] \/
                 exists w ts, snap = [FileWrite w; Snapshot (frame_id st') ts])).
    { intros st' Hf Ht. split; [congruence|].
      exists [FileWrite (json_data st'); Snapshot (S (frame_id st2)) stamp].
      split; [rewrite Ht, T2, T1; reflexivity|].
      right. rewrite Hf. by eexists _, _. }
    destruct (if Qeq_bool _ 0 then _ else _); [destruct key|];
      apply G; reflexivity.
  - assert (G : forall st', frame_id st' = S (frame_id st2) ->
              trace st' = trace st2 ->
              frame_id st' = S (frame_id st) /\
              exists snap,
                trace st'
                = (snap ++
                   reverse ((fun d =>
                               Detected (frame_id st) (d_label d)
                                 (d_distance_m d)
                                 (angle_of (shape1 f) d)) <$> ds)
                   ++ trace st)%list /\
                (snap = [] \/
                 exists w ts, snap = [FileWrite w; Snapshot (frame_id st') ts])).
    { intros st' Hf Ht. split; [congruence|].
      exists []. split; [rewrite Ht, T2, T1; reflexivity | by left]. }
    destruct (if Qeq_bool _ 0 then _ else _); [destruct key|];
      apply G; reflexivity.
Qed.

Lemma seen_detections c fid :
  Forall (fun e => exists lbl d a, e = Detected fid lbl d a /\ 0 < d /\ d <= 96 # 10)
         (seen c fid).
Proof.
  destruct c as [|e|f now stamp curr key]; cbn [seen];
    [apply Forall_nil_2 | apply Forall_nil_2 |].
  destruct (detect_results_well_formed f (predictions f) [] (Forall_nil_2 _))
    as (ds & E & W).
  unfold detect. rewrite E. apply Forall_forall. intros e I.
  rewrite elem_of_reverse in I.
  apply list_elem_of_fmap_1 in I as (d & -> & I).
  rewrite Forall_forall in W. destruct (W d I) as (_ & _ & _ & _ & L & U).
  by eexists _, _, _.
Qed.

Lemma filter_detected_app (l1 l2 : list event) :
  filter (fun e => Is_true (is_detected e)) (l1 ++ l2)%list
  = (filter (fun e => Is_true (is_detected e)) l1
     ++ filter (fun e => Is_true (is_detected e)) l2)%list.
Proof. apply filter_app. Qed.

Lemma filter_detected_seen c fid :
  filter (fun e => Is_true (is_detected e)) (seen c fid) = seen c fid.
Proof.
  pose proof (seen_detections c fid) as H.
  induction H as [|e l (lbl & d & a & -> & _) _ IH]; [reflexivity|].
  rewrite filter_cons_True by exact I. by rewrite IH.
Qed.

Lemma iteration_detected c st :
  filter (fun e => Is_true (is_detected e))
    (trace (final_state (iteration np_sqrt c st)))
  = (seen c (frame_id st)
     ++ filter (fun e => Is_true (is_detected e)) (trace st))%list.
Proof.
  destruct (iteration_trace c st) as [[-> ->] | (_ & snap & -> & Hs)];
    [reflexivity|].
  rewrite !filter_detected_app, filter_detected_seen.
  destruct Hs as [-> | (w & ts & ->)]; reflexivity.
Qed.

(** The detections of the trace are those read off the frames. *)
Lemma main_loop_detected cs st :
  filter (fun e => Is_true (is_detected e))
    (trace (final_state (main_loop np_sqrt cs st)))
  = (sighted np_sqrt cs st
     ++ filter (fun e => Is_true (is_detected e)) (trace st))%list.
Proof.
  revert st. induction cs as [|c cs IH]; intros st;
    cbn [main_loop sighted]; [reflexivity|].
  pose proof (iteration_detected c st) as D.
  destruct (iteration np_sqrt c st) as [st'|st'|e st']; cbn [final_state] in *.
  - rewrite IH, D. by rewrite app_assoc.
  - exact D.
  - exact D.
Qed.

Lemma sighted_detected cs loaded :
  filter (fun e => Is_true (is_detected e))
    (trace (final_state (main_loop np_sqrt cs (init loaded))))
  = sighted np_sqrt cs (init loaded).
Proof. rewrite main_loop_detected. apply app_nil_r. Qed.

Lemma detections_of_detected tr :
  detections_of (filter (fun e => Is_true (is_detected e)) tr)
  = detections_of tr.
Proof.
  induction tr as [|[f lbl d a|g ts|w] tr IH]; [reflexivity|..].
  - rewrite filter_cons_True by exact I. cbn [detections_of]. by rewrite IH.
  - rewrite filter_cons_False by (cbn; tauto). exact IH.
  - rewrite filter_cons_False by (cbn; tauto). exact IH.
Qed.

(** The detections the trace records are those read off the frames. *)
Lemma detections_of_sighted cs loaded :
  detections_of (trace (final_state (main_loop np_sqrt cs (init loaded))))
  = detections_of (sighted np_sqrt cs (init loaded)).
Proof. by rewrite <- detections_of_detected, sighted_detected. Qed.

Lemma sighted_in_range cs st : Forall in_range (sighted np_sqrt cs st).
Proof.
  revert st. induction cs as [|c cs IH]; intros st; cbn [sighted];
    [apply Forall_nil_2|].
  apply Forall_app. split.
  - destruct (iteration np_sqrt c st); [apply IH | apply Forall_nil_2..].
  - eapply Forall_impl; [apply seen_detections|].
    intros e (lbl & d & a & -> & L & U). by split.
Qed.

Lemma main_loop_app cs more st :
  main_loop np_sqrt (cs ++ more) st
  = match main_loop np_sqrt cs st with
    | Continue st' => main_loop np_sqrt more st'
    | o => o
    end.
Proof.
  revert st. induction cs as [|c cs IH]; intros st; cbn; [reflexivity|].
  destruct (iteration np_sqrt c st); [apply IH | reflexivity..].
Qed.

Lemma sighted_app cs more st :
  exists later,
    sighted np_sqrt (cs ++ more) st = (later ++ sighted np_sqrt cs st)%list.
Proof.
  revert st. induction cs as [|c cs IH]; intros st; cbn [app sighted].
  - exists (sighted np_sqrt more st). by rewrite app_nil_r.
  - destruct (iteration np_sqrt c st) as [st'|st'|e st'].
    + destruct (IH st') as [later ->]. exists later. by rewrite app_assoc.
    + by exists [].
    + by exists [].
Qed.

(** *** The order of the frames *)

Lemma frames_in_order_weaken tr (nd ns nd' ns' : nat) :
  (nd <= nd')%nat -> (ns <= ns')%nat ->
  frames_in_order tr nd ns -> frames_in_order tr nd' ns'.
Proof.
  revert nd ns nd' ns'.
  induction tr as [|[f lbl d a|g ts|w] tr IH]; intros nd ns nd' ns' H1 H2;
    cbn [frames_in_order].
  - done.
  - intros [[A B] C]. split; [lia | exact C].
  - intros [A C]. split; [lia | exact C].
  - by apply IH.
Qed.

Lemma frames_in_order_seen c (fid : nat) tr :
  frames_in_order tr (S fid) fid ->
  frames_in_order (seen c fid ++ tr) (S fid) fid.
Proof.
  intros H. pose proof (seen_detections c fid) as Hs.
  induction Hs as [|e l (lbl & d & a & -> & _) _ IH]; [exact H|].
  cbn [app frames_in_order]. split; [lia | exact IH].
Qed.

Lemma iteration_frames c st :
  frames_in_order (trace st) (frame_id st) (frame_id st) ->
  let st' := final_state (iteration np_sqrt c st) in
  frames_in_order (trace st') (frame_id st') (frame_id st').
Proof.
  intros H. cbn zeta.
  destruct (iteration_trace c st) as [[_ ->] | (F & snap & -> & Hs)];
    [exact H|].
  rewrite F.
  assert (G : frames_in_order (seen c (frame_id st) ++ trace st)
                (S (frame_id st)) (S (frame_id st))).
  { apply (frames_in_order_weaken _ (S (frame_id st)) (frame_id st));
      [lia | lia |].
    apply frames_in_order_seen.
    apply (frames_in_order_weaken _ (frame_id st) (frame_id st));
      [lia | lia | exact H]. }
  destruct Hs as [-> | (w & ts & ->)]; [exact G|].
  rewrite F. cbn [app frames_in_order]. split; [lia | exact G].
Qed.

Lemma main_loop_frames cs st :
  frames_in_order (trace st) (frame_id st) (frame_id st) ->
  let st' := final_state (main_loop np_sqrt cs st) in
  frames_in_order (trace st') (frame_id st') (frame_id st').
Proof.
  cbn zeta. revert st. induction cs as [|c cs IH]; intros st H;
    cbn [main_loop]; [exact H|].
  pose proof (iteration_frames c st H) as Hc. cbn zeta in Hc.
  destruct (iteration np_sqrt c st); cbn [final_state] in *;
    [by apply IH | exact Hc..].
Qed.

Lemma frames_in_order_detected tr (nd ns : nat) f lbl d a :
  frames_in_order tr nd ns -> Detected f lbl d a ∈ tr ->
  (f < Nat.max nd ns)%nat.
Proof.
  revert nd ns.
  induction tr as [|[f' lbl' d' a'|g ts|w] tr IH]; intros nd ns;
    cbn [frames_in_order].
  - intros _ I. by apply elem_of_nil in I.
  - intros [[A B] C] I. apply elem_of_cons in I as [[= -> -> -> ->] | I];
      [lia|].
    specialize (IH _ _ C I). lia.
  - intros [A C] I. apply elem_of_cons in I as [[=] | I].
    specialize (IH _ _ C I). lia.
  - intros C I. apply elem_of_cons in I as [[=] | I]. by apply (IH _ _ C).
Qed.

(** Around a snapshot taken at frame counter [fid]: what came before is of
    the frames before [fid], what came after is not. *)
Lemma frames_in_order_split later fid ts earlier (nd ns : nat) :
  frames_in_order (later ++ Snapshot fid ts :: earlier) nd ns ->
  (fid <= ns)%nat /\
  (forall f lbl d a, Detected f lbl d a ∈ later -> (fid <= f)%nat) /\
  (forall f lbl d a, Detected f lbl d a ∈ earlier -> (f < fid)%nat).
Proof.
  revert nd ns.
  induction later as [|[f' lbl' d' a'|g ts'|w] later IH]; intros nd ns;
    cbn [app frames_in_order].
  - intros [A C]. split; [exact A|]. split.
    + intros f lbl d a I. by apply elem_of_nil in I.
    + intros f lbl d a I.
      pose proof (frames_in_order_detected _ _ _ _ _ _ _ C I). lia.
  - intros [[A B] C]. destruct (IH _ _ C) as (L & H1 & H2).
    split; [lia|]. split; [|exact H2].
    intros f lbl d a I. apply elem_of_cons in I as [[= -> -> -> ->] | I];
      [exact L | by apply (H1 f lbl d a)].
  - intros [A C]. destruct (IH _ _ C) as (L & H1 & H2).
    split; [lia|]. split; [|exact H2].
    intros f lbl d a I. apply elem_of_cons in I as [[=] | I].
    by apply (H1 f lbl d a).
  - intros C. destruct (IH _ _ C) as (L & H1 & H2).
    split; [exact L|]. split; [|exact H2].
    intros f lbl d a I. apply elem_of_cons in I as [[=] | I].
    by apply (H1 f lbl d a).
Qed.

Lemma before_later tr fid :
  (forall f lbl d a, Detected f lbl d a ∈ tr -> (fid <= f)%nat) ->
  before fid (filter (fun e => Is_true (is_detected e)) tr) = [].
Proof.
  unfold before. induction tr as [|[f lbl d a|g ts|w] tr IH]; intros H.
  - reflexivity.
  - rewrite filter_cons_True by exact I.
    rewrite filter_cons_False.
    + apply IH. intros f' lbl' d' a' I. apply (H f' lbl' d' a').
      by apply list_elem_of_further.
    + cbn. intros X. apply Is_true_true, Nat.ltb_lt in X.
      specialize (H f lbl d a (list_elem_of_here _ _)). lia.
  - rewrite filter_cons_False by (cbn; tauto).
    apply IH. intros f' lbl' d' a' I. apply (H f' lbl' d' a').
    by apply list_elem_of_further.
  - rewrite filter_cons_False by (cbn; tauto).
    apply IH. intros f' lbl' d' a' I. apply (H f' lbl' d' a').
    by apply list_elem_of_further.
Qed.

Lemma before_earlier tr fid :
  (forall f lbl d a, Detected f lbl d a ∈ tr -> (f < fid)%nat) ->
  detections_of (before fid (filter (fun e => Is_true (is_detected e)) tr))
  = detections_of tr.
Proof.
  unfold before. induction tr as [|[f lbl d a|g ts|w] tr IH]; intros H.
  - reflexivity.
  - rewrite filter_cons_True by exact I.
    rewrite filter_cons_True.
    + cbn [detections_of]. rewrite IH; [reflexivity|].
      intros f' lbl' d' a' I. apply (H f' lbl' d' a').
      by apply list_elem_of_further.
    + cbn. apply Is_true_true, Nat.ltb_lt.
      apply (H f lbl d a), list_elem_of_here.
  - rewrite filter_cons_False by (cbn; tauto). cbn [detections_of].
    apply IH. intros f' lbl' d' a' I. apply (H f' lbl' d' a').
    by apply list_elem_of_further.
  - rewrite filter_cons_False by (cbn; tauto). cbn [detections_of].
    apply IH. intros f' lbl' d' a' I. apply (H f' lbl' d' a').
    by apply list_elem_of_further.
Qed.

End Sightings.

(** ** The nearest encounter *)

Section NearestEncounter.
Import Py Insect.
Variable np_sqrt : Z -> Q.

Lemma le_float_refl x : le_float x x.
Proof. destruct x; cbn; [lra | exact I]. Qed.

Lemma le_float_trans x y z : le_float x y -> le_float y z -> le_float x z.
Proof. destruct x, y, z; cbn; try tauto. intros; lra. Qed.

Lemma closest_in_range obs :
  Forall in_range obs ->
  match closest obs with
  | Finite m => 0 < m /\ m <= 96 # 10
  | Infinity => True
  end.
Proof.
  induction 1 as [|[f lbl d a|g ts|w] obs H _ IH]; cbn [closest];
    [exact I | | exact IH..].
  cbn in H. destruct (closest obs) as [m|]; [|exact H].
  destruct (Q.min_spec d m) as [[_ ->] | [_ ->]]; tauto.
Qed.

Lemma closest_decreases fid lbl d a tr :
  le_float (closest (Detected fid lbl d a :: tr)) (closest tr).
Proof.
  cbn. destruct (closest tr) as [m|]; cbn; [apply Q.le_min_r | exact I].
Qed.

Lemma closest_app later obs :
  le_float (closest (later ++ obs)) (closest obs).
Proof.
  induction later as [|[f lbl d a|g ts|w] later IH]; cbn [app];
    [apply le_float_refl | | exact IH..].
  eapply le_float_trans; [apply closest_decreases | exact IH].
Qed.

Lemma round_float_mono x y n :
  match x with Finite a => 0 <= a | Infinity => True end ->
  le_float x y -> le_float (round_float x n) (round_float y n).
Proof. destruct x, y; cbn; try tauto. intros. by apply round_mono. Qed.

(** Lines 221-227 keep the record in agreement with the detections. *)
Lemma update_nearest_ok fid lbl d a n obs :
  0 < d -> d <= 96 # 10 -> Forall in_range obs ->
  nearest_ok n obs ->
  nearest_ok (update_nearest fid lbl d a n) (Detected fid lbl d a :: obs).
Proof.
  intros Ld Ud R (Hd & Hf & Hs).
  pose proof (closest_in_range obs R) as Hm.
  assert (Old : from_a_detection n (Detected fid lbl d a :: obs)).
  { intros s E. destruct (Hf s E) as (fid' & lbl' & d' & a' & I & K).
    exists fid', lbl', d', a'. split; [by apply list_elem_of_further | exact K]. }
  assert (Nf : from_a_detection
                 {| distance_m := Finite (round d 3); frame := Some fid;
                    label := Some lbl; angle_deg := Some (round a 1) |}
                 (Detected fid lbl d a :: obs)).
  { intros s [= <-]. exists fid, lbl, d, a.
    split; [apply list_elem_of_here | tauto]. }
  assert (Ns : stored_distance
                 {| distance_m := Finite (round d 3); frame := Some fid;
                    label := Some lbl; angle_deg := Some (round a 1) |}).
  { intros s [= <-]. apply round_3_idem; lra. }
  unfold update_nearest, nearest_ok. cbn [closest]. rewrite Hd.
  destruct (closest obs) as [m|]; cbn [round_float lt_float].
  2:{ split; [reflexivity | split; assumption]. }
  destruct Hm as [Lm Um].
  assert (Es : round (round m 3) 3 = round m 3) by (apply round_3_idem; lra).
  destruct (Qlt_bool (fl d) (fl (round m 3))) eqn:E.
  - apply Qlt_bool_iff in E. split; [|split; assumption].
    cbn [distance_m]. f_equal.
    destruct (Qlt_le_dec m d) as [L|L].
    + rewrite (round_comp (Qmin d m) m) by (apply Q.min_r; lra).
      apply round_antisym.
      * rewrite <- Es. apply round_fl_mono. lra.
      * apply round_mono; lra.
    + apply round_comp. symmetry. apply Q.min_l. exact L.
  - apply Qlt_bool_false in E. split; [|split; assumption].
    rewrite Hd. cbn [round_float]. f_equal.
    destruct (Qlt_le_dec d m) as [L|L].
    + rewrite (round_comp (Qmin d m) d) by (apply Q.min_l; lra).
      apply round_antisym.
      * rewrite <- Es. by apply round_fl_mono.
      * apply round_mono; lra.
    + apply round_comp. symmetry. apply Q.min_r. exact L.
Qed.

Lemma nearest_after_ok obs n :
  distance_m n = Infinity -> Forall in_range obs ->
  nearest_ok (nearest_after obs n) obs.
Proof.
  intros E R. induction R as [|[f lbl d a|g ts|w] obs H R IH];
    cbn [nearest_after].
  - split; [exact E|]. split; intros s X; congruence.
  - destruct H as [L U]. by apply update_nearest_ok.
  - destruct IH as (Hd & Hf & Hs). split; [exact Hd | split; [|exact Hs]].
    intros s X. destruct (Hf s X) as (fid' & lbl' & d' & a' & I & K).
    exists fid', lbl', d', a'. split; [by apply list_elem_of_further | exact K].
  - destruct IH as (Hd & Hf & Hs). split; [exact Hd | split; [|exact Hs]].
    intros s X. destruct (Hf s X) as (fid' & lbl' & d' & a' & I & K).
    exists fid', lbl', d', a'. split; [by apply list_elem_of_further | exact K].
Qed.

Lemma nearest_after_detected tr n :
  nearest_after (filter (fun e => Is_true (is_detected e)) tr) n
  = nearest_after tr n.
Proof.
  induction tr as [|[f lbl d a|g ts|w] tr IH]; [reflexivity|..].
  - rewrite filter_cons_True by exact I. cbn [nearest_after]. by rewrite IH.
  - rewrite filter_cons_False by (cbn; tauto). exact IH.
  - rewrite filter_cons_False by (cbn; tauto). exact IH.
Qed.

(** The record is the result of lines 221-227 on the detections of the
    trace. *)
Lemma main_loop_nearest_after cs loaded :
  let st := final_state (main_loop np_sqrt cs (init loaded)) in
  nearest_encounter st
  = nearest_after (trace st) (nearest_encounter (init loaded)).
Proof.
  cbn zeta.
  apply (main_loop_preserves np_sqrt
           (fun s => nearest_encounter s
                     = nearest_after (trace s) (nearest_encounter (init loaded))));
    try (intros; assumption).
  - intros sh now d s s' H E.
    apply process_detection_inv in E as (_ & _ & _ & _ & En & _ & Et).
    rewrite En, Et, H. reflexivity.
  - reflexivity.
Qed.

Lemma main_loop_nearest_ok cs loaded :
  nearest_ok
    (nearest_encounter (final_state (main_loop np_sqrt cs (init loaded))))
    (sighted np_sqrt cs (init loaded)).
Proof.
  rewrite main_loop_nearest_after, <- nearest_after_detected.
  rewrite sighted_detected.
  apply nearest_after_ok; [reflexivity | apply sighted_in_range].
Qed.
End NearestEncounter.

(** C1 (as amended).  The stored [distance_m] of the nearest encounter is
    the smallest distance among the detections read off the frames so far,
    rounded to three decimals (infinity before the first detection); the
    label, frame id and rounded angle stored with it are those of one of
    these detections, whose distance rounds to the stored value; and the
    stored distance never increases, neither when one more detection is
    processed nor as the loop goes on. *)
Theorem nearest_encounter_rounded_running_min (np_sqrt : Z -> Q)
    (loaded : list (string * Py.json)) (cs more : list Insect.capture) :
  let st :=
    Insect.final_state (Insect.main_loop np_sqrt cs (Insect.init loaded)) in
  let st' :=
    Insect.final_state
      (Insect.main_loop np_sqrt (cs ++ more) (Insect.init loaded)) in
  let obs := sighted np_sqrt cs (Insect.init loaded) in
  Insect.distance_m (Insect.nearest_encounter st)
  = round_float (closest obs) 3 /\
  from_a_detection (Insect.nearest_encounter st) obs /\
  (forall fid lbl d a,
      le_float
        (Insect.distance_m
           (Insect.update_nearest fid lbl d a (Insect.nearest_encounter st)))
        (Insect.distance_m (Insect.nearest_encounter st))) /\
  le_float (Insect.distance_m (Insect.nearest_encounter st'))
           (Insect.distance_m (Insect.nearest_encounter st)).
Proof.
  intros st st' obs.
  destruct (main_loop_nearest_ok np_sqrt cs loaded) as (Hd & Hf & Hs).
  fold st obs in Hd, Hf, Hs.
  split; [exact Hd | split; [exact Hf | split]].
  { intros fid lbl d a. unfold Insect.update_nearest.
    destruct (Insect.distance_m (Insect.nearest_encounter st)) as [s|] eqn:E;
      cbn [Py.lt_float]; [|exact I].
    destruct (Py.Qlt_bool (Py.fl d) (Py.fl s)) eqn:C;
      cbn [Insect.distance_m]; [|rewrite E; apply le_float_refl].
    apply Qlt_bool_iff in C. cbn [le_float].
    rewrite <- (Hs s E). apply round_fl_mono. lra. }
  destruct (main_loop_nearest_ok np_sqrt (cs ++ more) loaded) as (Hd' & _).
  pose proof (sighted_in_range np_sqrt (cs ++ more) (Insect.init loaded)) as G.
  destruct (sighted_app np_sqrt cs more (Insect.init loaded)) as [later E].
  rewrite E in Hd', G. fold st' in Hd'. fold obs in Hd', G.
  rewrite Hd', Hd.
  apply round_float_mono; [|apply closest_app].
  pose proof (closest_in_range _ G) as R.
  destruct (closest (later ++ obs)); [|exact I].
  apply Qlt_le_weak, R.
Qed.

(** C1 as stated fails: after the two passes the record still describes the
    fly of frame 0 at 0.064 m, although the cockroach of frame 1 was closer
    (96/1497 m against 96/1494 m), and 0.064 is the distance of neither. *)
Lemma nearest_encounter_misses_closer_detection :
  let st :=
    Insect.final_state
      (Insect.main_loop sqrt_floor two_close_insects (Insect.init [])) in
  let obs := sighted sqrt_floor two_close_insects (Insect.init []) in
  obs
  = [ Insect.Detected 1 "Cockroach" (9600 # 149700)
        (Py.fl (Py.fl (748 # 2304) * 180));
      Insect.Detected 0 "fly" (9600 # 149400)
        (Py.fl (Py.fl (747 # 2304) * 180)) ] /\
  (9600 # 149700) < (9600 # 149400) /\
  Insect.nearest_encounter st
  = {| Insect.distance_m := Py.Finite (64 # 1000);
       Insect.frame := Some 0%nat;
       Insect.label := Some "fly";
       Insect.angle_deg := Some (584 # 10) |} /\
  ~ records_closest_detection (Insect.nearest_encounter st) obs.
Proof.
  intros st obs.
  assert (Ho : obs
               = [ Insect.Detected 1 "Cockroach" (9600 # 149700)
                     (Py.fl (Py.fl (748 # 2304) * 180));
                   Insect.Detected 0 "fly" (9600 # 149400)
                     (Py.fl (Py.fl (747 # 2304) * 180)) ])
    by (vm_compute; reflexivity).
  assert (Hn : Insect.nearest_encounter st
               = {| Insect.distance_m := Py.Finite (64 # 1000);
                    Insect.frame := Some 0%nat;
                    Insect.label := Some "fly";
                    Insect.angle_deg := Some (584 # 10) |})
    by (vm_compute; reflexivity).
  split; [exact Ho | split; [reflexivity | split; [exact Hn |]]].
  unfold records_closest_detection. rewrite Ho, Hn. cbn [closest].
  intros (s & fid & lbl & d & a & Hs & Heq & _).
  cbn in Hs. injection Hs as <-. vm_compute in Heq. discriminate.
Qed.

(** The three comparisons that decide the example, evaluated on binary64
    floats as Python evaluates them: the cockroach is closer than the fly,
    the fly replaces the initial infinity, and the cockroach is not below
    the stored [0.064]. *)
#[local] Set Warnings "-inexact-float".
Example two_close_insects_on_binary64 :
  PrimFloat.ltb (0.08 * 1200 / 1497) (0.08 * 1200 / 1494)%float = true /\
  PrimFloat.ltb (0.08 * 1200 / 1494)%float PrimFloat.infinity = true /\
  PrimFloat.ltb (0.08 * 1200 / 1497)%float 0.064%float = false.
Proof. vm_compute. repeat split. Qed.
#[local] Set Warnings "inexact-float".

(** ** The species summary and the log *)

Section SpeciesSummary.
Import Py Insect.
Variable np_sqrt : Z -> Q.

Lemma log_ok_tail e tr : log_ok (e :: tr) -> log_ok tr.
Proof. destruct e; cbn; tauto. Qed.

Lemma log_ok_at later written fid ts earlier :
  log_ok (later ++ FileWrite written :: Snapshot fid ts :: earlier) ->
  snapshot_ok ts written earlier.
Proof.
  induction later as [|e later IH]; cbn [app].
  - cbn. tauto.
  - intros H. apply IH. exact (log_ok_tail _ _ H).
Qed.

Lemma of_label_snoc lbl k d a obs :
  of_label lbl (obs ++ [(k, d, a)])
  = (of_label lbl obs ++ if decide (k = lbl) then [(k, d, a)] else [])%list.
Proof.
  unfold of_label. rewrite filter_app. f_equal.
Qed.

Lemma update_summary_ok lbl a d summary fid tr :
  summary_ok summary tr ->
  summary_ok (update_summary lbl a d summary) (Detected fid lbl d a :: tr).
Proof.
  intros [ND H]. unfold update_summary. split.
  - destruct (dict_get lbl summary) as [i|] eqn:E.
    + rewrite E. by apply dict_set_NoDup.
    + rewrite dict_get_set_eq. by do 2 apply dict_set_NoDup.
  - intros k. cbn [detections_of]. unfold expected_info.
    rewrite of_label_snoc.
    destruct (decide (lbl = k)) as [<-|N].
    + specialize (H lbl). unfold expected_info in H.
      destruct (dict_get lbl summary) as [i|] eqn:E.
      * rewrite E, dict_get_set_eq.
        destruct (of_label lbl (detections_of tr)) as [|first rest];
          [discriminate|].
        injection H as ->. cbn [app count entry_angle_deg entry_distance_m].
        rewrite last_last. cbn [length]. rewrite length_app.
        cbn [length fst snd]. do 2 f_equal. lia.
      * rewrite !dict_get_set_eq.
        destruct (of_label lbl (detections_of tr)) as [|first rest];
          [|discriminate].
        reflexivity.
    + rewrite app_nil_r. specialize (H k). unfold expected_info in H.
      rewrite <- H.
      destruct (dict_get lbl summary) as [i|] eqn:E.
      * rewrite E. by apply dict_get_set_ne.
      * rewrite dict_get_set_eq. by rewrite !dict_get_set_ne.
Qed.

Lemma summary_snapshot_get lbl summary :
  NoDup summary.*1 ->
  dict_get lbl (summary_snapshot summary)
  = summary_entry <$> dict_get lbl summary.
Proof.
  unfold summary_snapshot.
  assert (G : forall acc, NoDup summary.*1 ->
            dict_get lbl
              (foldl (fun acc '(l, i) => dict_set l (summary_entry i) acc)
                     acc summary)
            = match dict_get lbl summary with
              | Some i => Some (summary_entry i)
              | None => dict_get lbl acc
              end).
  { induction summary as [|[k i] s IH]; intros acc ND; [reflexivity|].
    cbn [foldl dict_get]. apply NoDup_cons in ND as [Hk ND].
    cbn [fst] in Hk. apply dict_get_None in Hk.
    rewrite IH by exact ND. case_decide as D.
    - subst lbl. rewrite Hk. apply dict_get_set_eq.
    - destruct (dict_get lbl s); [reflexivity|].
      apply dict_get_set_ne. congruence. }
  intros ND. rewrite G by exact ND. by destruct (dict_get lbl summary).
Qed.

Lemma summary_snapshot_ok summary tr lbl :
  summary_ok summary tr ->
  dict_get lbl (summary_snapshot summary)
  = expected_entry lbl (detections_of tr).
Proof.
  intros [ND H]. rewrite summary_snapshot_get by exact ND. rewrite H.
  unfold expected_info, expected_entry.
  destruct (of_label lbl (detections_of tr)) as [|first rest]; [reflexivity|].
  reflexivity.
Qed.

Lemma save_species_summary_invariant ts st :
  log_invariant st -> log_invariant (save_species_summary_to_json ts st).
Proof.
  intros [[ND H] L]. split; [split; [exact ND | exact H] |].
  cbn. split; [|exact L].
  exists (summary_snapshot (species_summary st)). split.
  - apply dict_get_set_eq.
  - intros lbl. by apply summary_snapshot_ok.
Qed.

Lemma main_loop_log_invariant cs loaded :
  log_invariant (final_state (main_loop np_sqrt cs (init loaded))).
Proof.
  apply (main_loop_preserves np_sqrt log_invariant);
    try (intros; assumption).
  - intros sh now d s s' [Hs Hl] E.
    apply process_detection_inv in E as (_ & _ & _ & Es & _ & _ & Et).
    unfold log_invariant. rewrite Es, Et. split; [|exact Hl].
    by apply update_summary_ok.
  - apply save_species_summary_invariant.
  - split; [split; [apply NoDup_nil_2 | reflexivity] | exact I].
Qed.
End SpeciesSummary.

Lemma expected_entry_fields lbl obs fields :
  expected_entry lbl obs = Some (Py.JObj fields) ->
  Py.dict_keys fields
  = [ "start_distance_m"; "end_distance_m"; "start_angle_deg";
      "end_angle_deg"; "count" ].
Proof.
  unfold expected_entry. destruct (of_label lbl obs); [discriminate|].
  intros [= <-]. reflexivity.
Qed.

(** C2.  Every snapshot written to the log is stored under the timestamp it
    was taken at and maps each label detected so far to the five fields
    [start_distance_m], [end_distance_m], [start_angle_deg], [end_angle_deg]
    and [count]: for a snapshot taken at frame counter [fid], [count] is
    the number of detections of the label that [detect] found on the frames
    before [fid], the [start_*] fields are the distance and angle of the
    first of them and the [end_*] fields those of the latest one, rounded
    when the summary stores them and again when the snapshot is made, which
    for a value between 0 and 1000 is rounding once; a label never detected
    has no entry.  The log the run leaves behind holds the nearest
    encounter under the reserved key [nearest_encounter]. *)
Theorem log_snapshot_schema (np_sqrt : Z -> Q)
    (loaded : list (string * Py.json)) (cs : list Insect.capture)
    (final_stamp : string) :
  let st := Insect.run np_sqrt loaded cs final_stamp in
  let obs := sighted np_sqrt cs (Insect.init loaded) in
  (exists rest,
      Insect.trace st = Insect.FileWrite (Insect.json_data st) :: rest) /\
  Py.dict_get "nearest_encounter" (Insect.json_data st)
  = Some (Insect.nearest_json (Insect.nearest_encounter st)) /\
  (forall later written fid ts earlier,
    Insect.trace st
    = (later ++ Insect.FileWrite written :: Insect.Snapshot fid ts :: earlier)%list ->
    exists entries,
      Py.dict_get ts written = Some (Py.JObj entries) /\
      forall lbl,
        Py.dict_get lbl entries
        = expected_entry lbl (detections_of (before fid obs))) /\
  (forall x n, 0 <= x -> x <= 1000 -> (1 <= n <= 3)%nat ->
               logged x n = Py.round x n).
Proof.
  intros st obs. split; [|split; [|split]].
  4:{ intros x n L U N. by apply round_idem_in_range. }
  - eexists. reflexivity.
  - apply dict_get_set_eq.
  - intros later written fid ts earlier E.
    assert (S0 : snapshot_ok ts written earlier).
    { apply (log_ok_at later written fid ts earlier). rewrite <- E.
      pose proof (main_loop_log_invariant np_sqrt cs loaded) as H.
      apply (save_species_summary_invariant final_stamp) in H as [_ L].
      subst st. unfold Insect.run, Insect.finally.
      cbn [Insect.trace Insect.save_json]. cbn [log_ok]. split; [|exact L].
      cbn. exact I. }
    destruct S0 as (entries & G & K). exists entries. split; [exact G|].
    intros lbl. rewrite K. f_equal.
    set (st0 := Insect.final_state
                  (Insect.main_loop np_sqrt cs (Insect.init loaded))) in *.
    assert (T : Insect.trace st
                = Insect.FileWrite (Insect.json_data st)
                    :: Insect.FileWrite
                         (Insect.json_data
                            (Insect.save_species_summary_to_json final_stamp st0))
                    :: Insect.Snapshot (Insect.frame_id st0) final_stamp
                    :: Insect.trace st0) by reflexivity.
    assert (F : frames_in_order (Insect.trace st) (Insect.frame_id st0)
                  (Insect.frame_id st0)).
    { rewrite T. cbn [frames_in_order]. split; [lia|].
      apply (main_loop_frames np_sqrt cs (Insect.init loaded)). exact I. }
    assert (D : obs
                = filter (fun e => Is_true (is_detected e)) (Insect.trace st)).
    { rewrite T. rewrite !filter_cons_False by (cbn; tauto).
      symmetry. apply sighted_detected. }
    rewrite E in F, D.
    replace (later ++ Insect.FileWrite written
               :: Insect.Snapshot fid ts :: earlier)%list
      with ((later ++ [Insect.FileWrite written])
              ++ Insect.Snapshot fid ts :: earlier)%list in F
      by (by rewrite <- app_assoc).
    apply frames_in_order_split in F as (_ & H1 & H2).
    rewrite D, filter_detected_app.
    rewrite filter_cons_False by (cbn; tauto).
    rewrite filter_cons_False by (cbn; tauto).
    unfold before. rewrite filter_app. fold (before fid).
    fold (before fid (filter (fun e => Is_true (is_detected e)) later)).
    rewrite before_later.
    + cbn [app]. symmetry. by apply before_earlier.
    + intros f l d a X. apply (H1 f l d a), elem_of_app. by left.
Qed.

(** The log left by the two passes of [two_close_insects]. *)
Example log_of_two_close_insects :
  Insect.json_data
    (Insect.run sqrt_floor [] two_close_insects "2025-06-01T10:00:02.000000")
  = [ ("2025-06-01T10:00:02.000000",
       Py.JObj
         [ ("fly",
            Py.JObj
              [ ("start_distance_m", Py.JFloat (Py.Finite (6 # 100)));
                ("end_distance_m", Py.JFloat (Py.Finite (6 # 100)));
                ("start_angle_deg", Py.JFloat (Py.Finite (584 # 10)));
                ("end_angle_deg", Py.JFloat (Py.Finite (584 # 10)));
                ("count", Py.JInt 1) ]);
           ("Cockroach",
            Py.JObj
              [ ("start_distance_m", Py.JFloat (Py.Finite (6 # 100)));
                ("end_distance_m", Py.JFloat (Py.Finite (6 # 100)));
                ("start_angle_deg", Py.JFloat (Py.Finite (584 # 10)));
                ("end_angle_deg", Py.JFloat (Py.Finite (584 # 10)));
                ("count", Py.JInt 1) ]) ]);
      ("nearest_encounter",
       Py.JObj
         [ ("distance_m", Py.JFloat (Py.Finite (64 # 1000)));
           ("frame", Py.JInt 0);
           ("label", Py.JStr "fly");
           ("angle_deg", Py.JFloat (Py.Finite (584 # 10))) ]) ].
Proof. vm_compute. reflexivity. Qed.

(** The log of one pass on a frame whose only box has its centre on column
    368 of 2304: the angle is logged as 28.7. *)
Example log_of_column_368 :
  Insect.json_data
    (Insect.run sqrt_floor []
       [ Insect.Captured
           (Insect.Frame 1296 2304
              [Insect.ModelResult ∅ [Insect.RawBox 1 0 204 100 2 (9 # 10)]])
           1 "2025-06-01T10:00:00.000000" (11 # 10) false ]
       "2025-06-01T10:00:02.000000")
  = [ ("2025-06-01T10:00:02.000000",
       Py.JObj
         [ ("fly",
            Py.JObj
              [ ("start_distance_m", Py.JFloat (Py.Finite (13 # 100)));
                ("end_distance_m", Py.JFloat (Py.Finite (13 # 100)));
                ("start_angle_deg", Py.JFloat (Py.Finite (287 # 10)));
                ("end_angle_deg", Py.JFloat (Py.Finite (287 # 10)));
                ("count", Py.JInt 1) ]) ]);
      ("nearest_encounter",
       Py.JObj
         [ ("distance_m", Py.JFloat (Py.Finite (131 # 1000)));
           ("frame", Py.JInt 0);
           ("label", Py.JStr "fly");
           ("angle_deg", Py.JFloat (Py.Finite (287 # 10))) ]) ].
Proof. vm_compute. reflexivity. Qed.

(** ** The peripheral wrapper *)

(** C9.  Without hardware the wrapper does nothing harmful: when [chip] is
    [None], [reset_leds] returns normally and attempts no operation at all,
    so no GPIO write; when [oled] is [None], [display_on_oled] returns
    normally for every list of lines and its only effect is the message it
    prints, so no I2C operation.  This holds whatever the hardware would do
    and whatever happened before. *)
Theorem peripherals_degrade_gracefully
    (fails : list OledAndLed.hw_event -> OledAndLed.hw_event -> bool)
    (before : list OledAndLed.hw_event) (lines : list string) :
  OledAndLed.reset_leds fails None before = (Py.Ok (), before) /\
  exists message,
    OledAndLed.display_on_oled fails None lines before
    = (Py.Ok (), message :: before) /\
    OledAndLed.is_i2c message = false /\
    OledAndLed.is_gpio message = false.
Proof.
  split; [reflexivity|].
  exists (OledAndLed.Print "OLED disabled, cannot display:" lines).
  repeat split.
Qed.

(** With a chip the three LEDs are written, and a failing write is an
    exception of [reset_leds]: the guard on [chip] is what prevents it. *)
Example reset_leds_with_chip :
  OledAndLed.reset_leds (fun _ _ => false) (Some 4%Z) []
  = (Py.Ok (),
     [ OledAndLed.GpioWrite 4 OledAndLed.GREEN_LED 0;
       OledAndLed.GpioWrite 4 OledAndLed.YELLOW_LED 0;
       OledAndLed.GpioWrite 4 OledAndLed.RED_LED 0 ]) /\
  OledAndLed.reset_leds (fun _ _ => true) (Some 4%Z) []
  = (Py.Raise Py.HardwareError, [ OledAndLed.GpioWrite 4 OledAndLed.RED_LED 0 ]).
Proof. split; reflexivity. Qed.

Example display_on_oled_with_device :
  OledAndLed.display_on_oled (fun _ _ => false)
    (Some (OledAndLed.OledDevice 128 64)) ["Insects: 1"; "Nearest: fly"] []
  = (Py.Ok (),
     [ OledAndLed.OledShow;
       OledAndLed.OledImage (128%Z, 64%Z)
         [ (0%Z, 0%Z, "Insects: 1"); (0%Z, 12%Z, "Nearest: fly") ];
       OledAndLed.OledShow;
       OledAndLed.OledFill 0 ]).
Proof. reflexivity. Qed.

(** ** Reading the log back *)

Section LoadSessions.
Import Py Llm.

Lemma build_sessions_length kv sessions result :
  build_sessions kv sessions = Ok result ->
  length result = (length sessions + length kv)%nat.
Proof.
  revert sessions. induction kv as [|[ts data] kv IH]; intros sessions; cbn.
  - intros [= <-]. lia.
  - destruct (make_session ts data) as [sess|e]; cbn; [|discriminate].
    intros E. apply IH in E. rewrite length_app in E. cbn in E. lia.
Qed.

(** The sessions are all built or none is returned. *)
Lemma load_sessions_all_or_nothing (fs : files) :
  load_sessions fs = [] \/
  exists kv, fs !! LOG_PATH = Some (Ok (JObj kv)) /\
             length (load_sessions fs) = length kv.
Proof.
  unfold load_sessions.
  destruct (fs !! LOG_PATH) as [[raw|e]|]; cbn; [|tauto..].
  destruct raw; cbn; try tauto.
  destruct (build_sessions kv []) as [sessions|e] eqn:E; [|tauto].
  right. exists kv. split; [reflexivity|].
  apply build_sessions_length in E. exact E.
Qed.

(** A top-level key whose value is a dict becomes a session, whatever the
    key is. *)
Lemma make_session_of_dict ts d :
  make_session ts (JObj d)
  = Ok (JObj (dict_set "video_reference" (JStr DEFAULT_VIDEO)
                (dict_set "session_info"
                   (JObj [("session_id", JStr ts); ("timestamp", JStr ts)])
                   d))).
Proof. reflexivity. Qed.
End LoadSessions.

(** C10.  [load_sessions] returns the empty list, without raising, whenever
    the log file does not exist or opening and parsing it raises; no
    partially built list of sessions is returned. *)
Theorem load_sessions_without_a_readable_log (fs : Llm.files) :
  fs !! Llm.LOG_PATH = None \/ (exists e, fs !! Llm.LOG_PATH = Some (Py.Raise e)) ->
  Llm.load_sessions fs = [].
Proof.
  unfold Llm.load_sessions. intros [-> | [e ->]]; reflexivity.
Qed.

Lemma load_sessions_without_a_readable_log_witness :
  ({[ Llm.LOG_PATH := Py.Raise Py.JSONDecodeError ]} : Llm.files)
    !! Llm.LOG_PATH = Some (Py.Raise Py.JSONDecodeError) /\
  Llm.load_sessions {[ Llm.LOG_PATH := Py.Raise Py.JSONDecodeError ]} = [].
Proof.
  split; [reflexivity |].
  apply (load_sessions_without_a_readable_log
           {[ Llm.LOG_PATH := Py.Raise Py.JSONDecodeError ]}).
  right. exists Py.JSONDecodeError. reflexivity.
Defined.

(** C7 is not met on the log the capture program itself leaves behind: the
    log of the two passes of [two_close_insects] holds one timestamped
    snapshot, yet [load_sessions] returns two sessions, the second one made
    from the reserved key [nearest_encounter]. *)
Lemma load_sessions_counts_nearest_encounter :
  let log :=
    Insect.json_data
      (Insect.run sqrt_floor [] two_close_insects "2025-06-01T10:00:02.000000") in
  let sessions := Llm.load_sessions {[ Llm.LOG_PATH := Py.Ok (Py.JObj log) ]} in
  Py.dict_keys log = [ "2025-06-01T10:00:02.000000"; "nearest_encounter" ] /\
  length sessions = 2%nat /\
  Llm.session_id <$> sessions
  = [ Some (Py.JStr "2025-06-01T10:00:02.000000");
      Some (Py.JStr "nearest_encounter") ].
Proof. vm_compute. repeat split. Qed.

(** What [load_sessions] does with the log of any run that started from an
    empty log: one session per top-level key, the reserved key included. *)
Section LogOfARun.
Import Py Insect Llm.
Variable np_sqrt : Z -> Q.

Lemma dict_set_all_dicts k d log :
  all_dicts log -> all_dicts (dict_set k (JObj d) log).
Proof.
  unfold all_dicts. induction log as [|[k' v'] log IH]; cbn [dict_set].
  - intros _. apply Forall_cons. split; [by exists d | apply Forall_nil_2].
  - intros H. apply Forall_cons in H as [Hv H]. case_decide.
    + apply Forall_cons. split; [by exists d | exact H].
    + apply Forall_cons. split; [exact Hv | by apply IH].
Qed.

Lemma run_log_all_dicts cs final_stamp :
  all_dicts (json_data (run np_sqrt [] cs final_stamp)).
Proof.
  unfold run, finally. cbn [json_data save_json save_species_summary_to_json].
  do 2 apply dict_set_all_dicts.
  apply (main_loop_preserves np_sqrt (fun st => all_dicts (json_data st)));
    try (intros; assumption).
  - intros sh now d st st' H E.
    apply process_detection_inv in E as (_ & -> & _). exact H.
  - intros ts st H. cbn. by apply dict_set_all_dicts.
  - apply Forall_nil_2.
Qed.

Lemma session_id_make_session ts d sess :
  make_session ts (JObj d) = Ok sess -> session_id sess = Some (JStr ts).
Proof.
  rewrite make_session_of_dict. intros [= <-]. unfold session_id.
  rewrite dict_get_set_ne by discriminate. rewrite dict_get_set_eq.
  reflexivity.
Qed.

Lemma build_sessions_all_dicts log sessions :
  all_dicts log ->
  exists made,
    build_sessions log sessions = Ok (sessions ++ made)%list /\
    session_id <$> made = (fun k => Some (JStr k)) <$> dict_keys log.
Proof.
  revert sessions. induction log as [|[ts v] log IH]; intros sessions H.
  - exists []. rewrite app_nil_r. split; reflexivity.
  - apply Forall_cons in H as [[d Hd] H]. cbn in Hd. subst v.
    cbn [build_sessions]. rewrite make_session_of_dict. cbn [mbind result_bind bind].
    destruct (IH (sessions ++ [JObj
                (dict_set "video_reference" (JStr DEFAULT_VIDEO)
                   (dict_set "session_info"
                      (JObj [("session_id", JStr ts); ("timestamp", JStr ts)])
                      d))])%list H) as (made & E & I).
    eexists (_ :: made). rewrite E, <- app_assoc. split; [reflexivity|].
    cbn [fmap list_fmap dict_keys fst]. f_equal.
    + eapply session_id_make_session. apply make_session_of_dict.
    + exact I.
Qed.

Lemma load_sessions_of_a_run cs final_stamp :
  let log := json_data (run np_sqrt [] cs final_stamp) in
  session_id <$> load_sessions {[ LOG_PATH := Ok (JObj log) ]}
  = (fun k => Some (JStr k)) <$> dict_keys log /\
  "nearest_encounter" ∈ dict_keys log.
Proof.
  intros log. split.
  - unfold load_sessions. rewrite lookup_singleton_eq.
    cbn [mbind result_bind bind items].
    destruct (build_sessions_all_dicts log [] (run_log_all_dicts cs final_stamp))
      as (made & E & I).
    fold log in E. rewrite E. exact I.
  - destruct (decide ("nearest_encounter" ∈ dict_keys log)) as [I|N]; [exact I|].
    apply dict_get_None in N. subst log. unfold run, finally in N.
    cbn [json_data save_json] in N. rewrite dict_get_set_eq in N.
    discriminate.
Qed.
End LogOfARun.

(** * Properties of the rest of the code *)

#[local] Set Warnings "-clear-no-such-hyp".


(** X1.  Building the list of detections of a frame never raises, and every
    detection it keeps is labelled "fly" or "Cockroach", has a box at least
    10 pixels wide and 10 pixels high, and carries the distance 96 / width,
    which lies in (0, 9.6] metres. *)
Theorem detections_are_well_formed (f : Insect.captured_frame) :
  exists ds, Insect.detect f = Py.Ok ds /\ Forall well_formed_detection ds.
Proof.
  apply detect_results_well_formed. apply Forall_nil_2.
Qed.

(** ** The per-label trackers *)

Section Trackers.
Import Py Insect.
Variable np_sqrt : Z -> Q.

Lemma push_trail_dom lbl p trails :
  dom (push_trail lbl p trails) = {[lbl]} ∪ dom trails.
Proof.
  unfold push_trail. destruct (trails !! lbl) as [d|] eqn:L.
  - rewrite L, dom_insert_L. reflexivity.
  - rewrite lookup_insert_eq, insert_insert_eq, dom_insert_L. reflexivity.
Qed.

Lemma update_speed_dom now lbl cx cy tracker tracker' :
  update_speed np_sqrt now lbl cx cy tracker = Ok tracker' ->
  dom tracker' = {[lbl]} ∪ dom tracker.
Proof.
  unfold update_speed.
  destruct (tracker !! lbl) as [[[[px py] pt] prev]|] eqn:L.
  - assert (I : lbl ∈ dom tracker) by (apply elem_of_dom; eauto).
    destruct (Qlt_bool 0 (now - pt)).
    + destruct (truediv _ _); cbn; [|discriminate].
      intros [= <-]. rewrite dom_insert_L. reflexivity.
    + intros [= <-]. set_solver.
  - intros [= <-]. rewrite dom_insert_L. reflexivity.
Qed.

Lemma process_detection_doms sh now d st st' :
  process_detection np_sqrt sh now d st = Ok st' ->
  dom (trajectories st') = {[d_label d]} ∪ dom (trajectories st) /\
  dom (prev_centers st') = {[d_label d]} ∪ dom (prev_centers st) /\
  dom (speed_tracker st') = {[d_label d]} ∪ dom (speed_tracker st).
Proof.
  unfold process_detection.
  destruct (update_speed np_sqrt now (d_label d) _ _ (speed_tracker st))
    as [t|e] eqn:E; cbn; [|discriminate].
  intros [= <-]. cbn. rewrite push_trail_dom, dom_insert_L.
  apply update_speed_dom in E. rewrite E. done.
Qed.

Lemma process_detections_doms sh now ds st :
  let st' := (process_detections np_sqrt sh now ds st).1 in
  dom (trajectories st') = current_labels ds ∪ dom (trajectories st) /\
  dom (prev_centers st') = current_labels ds ∪ dom (prev_centers st) /\
  dom (speed_tracker st') = current_labels ds ∪ dom (speed_tracker st).
Proof.
  revert st. induction ds as [|d ds IH]; intros st; cbn.
  - unfold current_labels. cbn. set_solver.
  - destruct (process_detection_total np_sqrt sh now d st) as [st1 E].
    rewrite E. apply process_detection_doms in E as (E1 & E2 & E3).
    destruct (IH st1) as (I1 & I2 & I3). cbn in I1, I2, I3.
    rewrite I1, I2, I3, E1, E2, E3. unfold current_labels. cbn. set_solver.
Qed.

(** Lines 253-257 as lookups: a label is dropped from the three dicts when
    it has a trail and is not among the labels of the frame. *)
Lemma forget_all_lookup (current : gset string) l st k :
  let st' :=
    foldl (fun s lbl => if decide (lbl ∈ current) then s else forget lbl s)
      st l in
  let dropped := k ∈ l /\ k ∉ current in
  (trajectories st' !! k
   = if decide dropped then None else trajectories st !! k) /\
  (prev_centers st' !! k
   = if decide dropped then None else prev_centers st !! k) /\
  (speed_tracker st' !! k
   = if decide dropped then None else speed_tracker st !! k).
Proof.
  revert st. induction l as [|a l IH]; intros st; cbn [foldl].
  - cbn. rewrite !decide_False by (rewrite elem_of_nil; tauto). done.
  - cbn zeta. destruct (IH (if decide (a ∈ current) then st else forget a st))
      as (I1 & I2 & I3). cbn zeta in I1, I2, I3. rewrite I1, I2, I3.
    destruct (decide (a ∈ current)) as [Ha|Ha].
    + repeat case_decide; try done; set_solver.
    + cbn [trajectories prev_centers speed_tracker forget].
      destruct (decide (a = k)) as [->|N].
      * rewrite !lookup_delete_eq.
        repeat case_decide; try done; set_solver.
      * rewrite !lookup_delete_ne by done.
        repeat case_decide; try done; set_solver.
Qed.

Lemma remove_missing_lookup (current : gset string) st k :
  let st' := remove_missing current st in
  (trajectories st' !! k
   = if decide (k ∈ current) then trajectories st !! k else None) /\
  (prev_centers st' !! k
   = if decide (k ∈ dom (trajectories st) /\ k ∉ current) then None
     else prev_centers st !! k) /\
  (speed_tracker st' !! k
   = if decide (k ∈ dom (trajectories st) /\ k ∉ current) then None
     else speed_tracker st !! k).
Proof.
  unfold remove_missing.
  destruct (forget_all_lookup current (map_to_list (trajectories st)).*1 st k)
    as (I1 & I2 & I3). cbn zeta in *. rewrite I1, I2, I3.
  assert (K : k ∈ (map_to_list (trajectories st)).*1
              <-> k ∈ dom (trajectories st)).
  { rewrite elem_of_dom, list_elem_of_fmap. split.
    - intros ([k' v] & -> & I). apply elem_of_map_to_list in I. eauto.
    - intros [v I]. exists (k, v). split; [done|].
      by apply elem_of_map_to_list. }
  split; [|split].
  - clear I1 I2 I3. repeat case_decide; try done; try tauto.
    apply not_elem_of_dom. tauto.
  - clear I1 I2 I3. repeat case_decide; try done; tauto.
  - clear I1 I2 I3. repeat case_decide; try done; tauto.
Qed.

Lemma remove_missing_doms (current : gset string) st :
  trackers_aligned st ->
  dom (trajectories (remove_missing current st))
  = dom (trajectories st) ∩ current /\
  trackers_aligned (remove_missing current st).
Proof.
  intros [A1 A2].
  assert (L := remove_missing_lookup current st). cbn zeta in L.
  assert (T : dom (trajectories (remove_missing current st))
              = dom (trajectories st) ∩ current).
  { apply set_eq. intros k. rewrite elem_of_intersection, !elem_of_dom.
    destruct (L k) as (-> & _).
    case_decide; [tauto|]. split; [intros [? ?]; done | tauto]. }
  split; [exact T|]. split.
  - rewrite T. apply set_eq. intros k.
    assert (Hk : k ∈ dom (trajectories st) <-> is_Some (prev_centers st !! k))
      by (rewrite <- A1; apply elem_of_dom).
    rewrite elem_of_intersection, (elem_of_dom (prev_centers _)).
    destruct (L k) as (_ & -> & _).
    case_decide as D; [split; [intros [? ?]; done | tauto] | ].
    rewrite <- Hk. split; [|tauto]. intros I. split; [exact I|].
    destruct (decide (k ∈ current)); [done | tauto].
  - rewrite T. apply set_eq. intros k.
    assert (Hk : k ∈ dom (trajectories st) <-> is_Some (speed_tracker st !! k))
      by (rewrite <- A2; apply elem_of_dom).
    rewrite elem_of_intersection, (elem_of_dom (speed_tracker _)).
    destruct (L k) as (_ & _ & ->).
    case_decide as D; [split; [intros [? ?]; done | tauto] | ].
    rewrite <- Hk. split; [|tauto]. intros I. split; [exact I|].
    destruct (decide (k ∈ current)); [done | tauto].
Qed.
End Trackers.

Section TrackersOfAPass.
Import Py Insect.
Variable np_sqrt : Z -> Q.

(** After line 257 nothing in the pass touches the three dicts. *)
Lemma iteration_trackers f now stamp curr key st ds :
  detect f = Ok ds ->
  let st2 :=
    remove_missing (current_labels ds)
      (process_detections np_sqrt (shape1 f) now ds st).1 in
  let st' := final_state (iteration np_sqrt (Captured f now stamp curr key) st) in
  trajectories st' = trajectories st2 /\
  prev_centers st' = prev_centers st2 /\
  speed_tracker st' = speed_tracker st2.
Proof.
  intros E. cbn [iteration]. rewrite E.
  pose proof (process_detections_total np_sqrt (shape1 f) now ds st) as T.
  destruct (process_detections np_sqrt (shape1 f) now ds st) as [st1 o].
  cbn [fst snd] in *. subst o.
  set (st2 := remove_missing _ st1).
  destruct (frame_id (next_frame st2) mod 30 =? 0)%nat;
    (destruct (if Qeq_bool _ 0 then _ else _);
     [destruct key|]; cbn; repeat split).
Qed.

Lemma main_loop_trackers_aligned cs loaded :
  trackers_aligned (final_state (main_loop np_sqrt cs (init loaded))).
Proof.
  apply (main_loop_preserves np_sqrt trackers_aligned);
    try (intros; assumption).
  - intros sh now d st st' [A1 A2] E.
    apply process_detection_doms in E as (E1 & E2 & E3).
    split; congruence.
  - intros lbl st [A1 A2]. split; cbn; rewrite !dom_delete_L; congruence.
  - split; reflexivity.
Qed.

Lemma pass_trackers f now stamp curr key st ds :
  trackers_aligned st -> detect f = Ok ds ->
  let st' := final_state (iteration np_sqrt (Captured f now stamp curr key) st) in
  dom (trajectories st') = current_labels ds /\
  dom (prev_centers st') = current_labels ds /\
  dom (speed_tracker st') = current_labels ds.
Proof.
  intros [A1 A2] E. cbn zeta.
  destruct (iteration_trackers f now stamp curr key st ds E) as (-> & -> & ->).
  destruct (process_detections_doms np_sqrt (shape1 f) now ds st)
    as (D1 & D2 & D3). cbn zeta in D1, D2, D3.
  set (st1 := (process_detections np_sqrt (shape1 f) now ds st).1) in *.
  assert (A : trackers_aligned st1) by (split; congruence).
  destruct (remove_missing_doms (current_labels ds) st1 A) as (T & B1 & B2).
  rewrite B1, B2, T, D1.
  assert (X : (current_labels ds ∪ dom (trajectories st)) ∩ current_labels ds
              = current_labels ds) by set_solver.
  rewrite X. done.
Qed.
End TrackersOfAPass.

(** X2.  In every memory the main loop reaches, the trails, the previous
    centres and the speed tracker hold the same labels; and when one more
    frame has been processed, the labels they hold are exactly the labels
    detected in that frame: everything kept for a label that is missing from
    the frame is dropped. *)
Theorem trackers_hold_the_labels_of_the_last_frame (np_sqrt : Z -> Q)
    (loaded : list (string * Py.json)) (cs : list Insect.capture)
    (f : Insect.captured_frame) (now : Q) (stamp : string) (curr_time : Q)
    (key_q : bool) :
  let st :=
    Insect.final_state (Insect.main_loop np_sqrt cs (Insect.init loaded)) in
  let st' :=
    Insect.final_state
      (Insect.iteration np_sqrt (Insect.Captured f now stamp curr_time key_q) st) in
  trackers_aligned st /\
  exists ds,
    Insect.detect f = Py.Ok ds /\
    dom (Insect.trajectories st') = Insect.current_labels ds /\
    dom (Insect.prev_centers st') = Insect.current_labels ds /\
    dom (Insect.speed_tracker st') = Insect.current_labels ds.
Proof.
  intros st st'.
  pose proof (main_loop_trackers_aligned np_sqrt cs loaded) as A.
  split; [exact A|].
  destruct (detect_total f) as [ds E].
  exists ds. split; [exact E|].
  by apply pass_trackers.
Qed.

(** X3.  A label that was missing from the last processed frame starts
    over: when it is detected again, its speed is recorded as 0.0, whatever
    was measured before, and its trail restarts with the single new point. *)
Theorem missing_label_starts_over (np_sqrt : Z -> Q)
    (loaded : list (string * Py.json)) (cs : list Insect.capture)
    (f : Insect.captured_frame) (now : Q) (stamp : string) (curr_time : Q)
    (key_q : bool) (ds : list Insect.detection)
    (d : Insect.detection) (shape_1 : positive) (now' : Q) :
  let st :=
    Insect.final_state (Insect.main_loop np_sqrt cs (Insect.init loaded)) in
  let st' :=
    Insect.final_state
      (Insect.iteration np_sqrt (Insect.Captured f now stamp curr_time key_q) st) in
  let cx := ((Insect.d_x1 d + Insect.d_x2 d) / 2)%Z in
  let cy := ((Insect.d_y1 d + Insect.d_y2 d) / 2)%Z in
  Insect.detect f = Py.Ok ds ->
  Insect.d_label d ∉ Insect.current_labels ds ->
  exists st'',
    Insect.process_detection np_sqrt shape_1 now' d st' = Py.Ok st'' /\
    Insect.speed_tracker st'' !! Insect.d_label d = Some (cx, cy, now', 0) /\
    Py.items <$> Insect.trajectories st'' !! Insect.d_label d
    = Some [Insect.radar_point shape_1 cx (Insect.d_distance_m d)].
Proof.
  intros st st' cx cy E N.
  destruct (pass_trackers np_sqrt f now stamp curr_time key_q st ds
              (main_loop_trackers_aligned np_sqrt cs loaded) E)
    as (T & _ & S).
  fold st' in T, S. rewrite <- T in N.
  assert (NT : Insect.trajectories st' !! Insect.d_label d = None)
    by (by apply not_elem_of_dom).
  assert (NS : Insect.speed_tracker st' !! Insect.d_label d = None)
    by (apply not_elem_of_dom; by rewrite S, <- T).
  unfold Insect.process_detection, Insect.update_speed. fold cx cy.
  rewrite NS. cbn. eexists. split; [reflexivity|]. cbn. split.
  - apply lookup_insert_eq.
  - unfold Insect.push_trail. rewrite NT, lookup_insert_eq, lookup_insert_eq.
    reflexivity.
Qed.

Lemma missing_label_starts_over_witness :
  let fly_frame :=
    Insect.Frame 1296 2304
      [Insect.ModelResult ∅ [Insect.RawBox 0 0 415 100 2 (9 # 10)]] in
  let roach :=
    Insect.Detection 0 0 1497 202 "Cockroach" (9600 # 149700) (9 # 10) in
  exists st'',
    Insect.process_detection sqrt_floor 2304 2 roach
      (Insect.final_state
         (Insect.iteration sqrt_floor
            (Insect.Captured fly_frame 1 "2025-06-01T10:00:00.000000"
               (11 # 10) false)
            (Insect.final_state
               (Insect.main_loop sqrt_floor [] (Insect.init [])))))
    = Py.Ok st'' /\
    Insect.speed_tracker st'' !! "Cockroach" = Some (748%Z, 101%Z, 2, 0) /\
    Py.items <$> Insect.trajectories st'' !! "Cockroach"
    = Some [Insect.radar_point 2304 748 (9600 # 149700)].
Proof.
  intros fly_frame roach.
  apply (missing_label_starts_over sqrt_floor [] [] fly_frame 1
           "2025-06-01T10:00:00.000000" (11 # 10) false
           [Insect.Detection 0 0 1494 202 "fly" (9600 # 149400) (9 # 10)]
           roach 2304 2).
  - vm_compute. reflexivity.
  - unfold Insect.current_labels. cbn. set_solver.
Defined.

(** ** The radar *)

Section Radar.
Import Py Insect InsectRest.

Lemma int_between (a b : Z) (q : Q) :
  (0 <= a)%Z -> inject_Z a <= q -> q <= inject_Z b -> (a <= int q <= b)%Z.
Proof.
  intros Ha L U. unfold int.
  assert (P : 0 <= q).
  { apply Qle_trans with (inject_Z a); [|exact L].
    change 0 with (inject_Z 0). by rewrite <- Zle_Qle. }
  apply Qle_bool_iff in P. rewrite P. split.
  - rewrite <- (Qfloor_Z a). by apply Qfloor_resp_le.
  - rewrite <- (Qfloor_Z b). by apply Qfloor_resp_le.
Qed.

Lemma int_comp (x y : Q) : x == y -> int x = int y.
Proof.
  intros E. unfold int. rewrite (Qleb_comp _ _ (Qeq_refl 0) _ _ E).
  destruct (Qle_bool 0 y); [by apply Qfloor_comp | by apply Qceiling_comp].
Qed.

Lemma norm_x_between (cx : Z) (w : positive) :
  (0 <= cx <= Zpos w)%Z ->
  let n := inject_Z cx / inject_Z (Zpos w) - (1 # 2) in
  - (1 # 2) <= n /\ n <= 1 # 2.
Proof.
  intros [L U] n. subst n.
  assert (W : 0 < inject_Z (Zpos w)) by reflexivity.
  assert (A : 0 <= inject_Z cx / inject_Z (Zpos w)).
  { apply Qle_shift_div_l; [exact W|]. rewrite Qmult_0_l.
    change 0 with (inject_Z 0). by rewrite <- Zle_Qle. }
  assert (B : inject_Z cx / inject_Z (Zpos w) <= 1).
  { apply Qle_shift_div_r; [exact W|]. rewrite Qmult_1_l.
    by rewrite <- Zle_Qle. }
  split; lra.
Qed.
End Radar.

(** X4.  The point pushed on a trail lies inside the 300 by 300 radar image:
    for a detection whose centre is inside the frame and whose distance is
    not negative, its column is between 85 and 215 and its row between 20
    and 150, however far the insect is. *)
Theorem radar_point_inside_the_radar (shape_1 : positive) (cx : Z) (dist : Q) :
  (0 <= cx <= Zpos shape_1)%Z -> 0 <= dist ->
  (85 <= (Insect.radar_point shape_1 cx dist).1 <= 215)%Z /\
  (20 <= (Insect.radar_point shape_1 cx dist).2 <= 150)%Z.
Proof.
  intros Hc Hd. destruct (norm_x_between cx shape_1 Hc) as [L U].
  unfold Insect.radar_point, Insect.RADAR_SIZE, Insect.RADAR_RANGE_M.
  cbn [fst snd]. change (300 / 2 - 20)%Z with 130%Z. change (300 / 2)%Z with 150%Z.
  set (n := inject_Z cx / inject_Z (Zpos shape_1) - (1 # 2)) in *.
  split.
  - apply int_between; [lia | |].
    + change (inject_Z 85) with 85. change (inject_Z 150) with 150.
      change (inject_Z 130) with 130. lra.
    + change (inject_Z 215) with 215. change (inject_Z 150) with 150.
      change (inject_Z 130) with 130. lra.
  - assert (R : (0 <= Py.int (Qmin (dist / 1 * inject_Z 130) (inject_Z 130)) <= 130)%Z).
    { apply int_between; [lia | |].
      - apply Q.min_glb; [|done].
        change (inject_Z 130) with 130. change (inject_Z 0) with 0.
        assert (E : dist / 1 == dist) by field. rewrite E. lra.
      - apply Q.le_min_r. }
    lia.
Qed.

Lemma radar_point_inside_the_radar_witness :
  ((0 <= 748 <= 2304)%Z /\ 0 <= 9600 # 149700) /\
  (85 <= (Insect.radar_point 2304 748 (9600 # 149700)).1 <= 215)%Z /\
  (20 <= (Insect.radar_point 2304 748 (9600 # 149700)).2 <= 150)%Z.
Proof.
  split; [split; [lia | done] |].
  apply (radar_point_inside_the_radar 2304 748 (9600 # 149700));
    [lia | done].
Defined.

Section RadarDots.
Import Py Insect InsectRest.

Lemma draw_radar_points_app (shape_1 : positive) ds dots :
  Forall well_formed_detection ds ->
  foldl
    (fun dots '(norm_x, dist, lbl) =>
       if negb (in_class_labels lbl) then dots
       else
         (dots ++
          [(int (inject_Z (RADAR_SIZE / 2)
                 + norm_x * inject_Z (RADAR_SIZE / 2 - 20)),
            (RADAR_SIZE / 2
             - int (Qmin (inject_Z (RADAR_SIZE / 2 - 20))
                         (dist / RADAR_RANGE_M
                          * inject_Z (RADAR_SIZE / 2 - 20))))%Z,
            first_letter lbl)])%list)
    dots (radar_entry shape_1 <$> ds)
  = (dots ++ (dot_of shape_1 <$> ds))%list.
Proof.
  intros H. revert dots. induction H as [|d ds Hd H IH]; intros dots.
  - cbn. by rewrite app_nil_r.
  - cbn [fmap list_fmap foldl]. unfold radar_entry at 1.
    assert (L : in_class_labels (d_label d) = true).
    { destruct Hd as [[-> | ->] _]; reflexivity. }
    rewrite L. cbn [negb].
    fold (@fmap list _ _ _ (radar_entry shape_1) ds).
    rewrite IH, <- app_assoc. f_equal. cbn [app fmap list_fmap]. f_equal.
    unfold dot_of, radar_point. cbn [fst snd].
    rewrite (int_comp _ _ (Q.min_comm (inject_Z (RADAR_SIZE / 2 - 20)) _)).
    reflexivity.
Qed.
End RadarDots.

(** X5.  The two radars agree: for the detections of a frame, the dots
    [draw_radar_points] draws for the entries the loop collected are, in
    order, the points the loop pushed on the trails, each with the first
    letter of its label; no detection is skipped. *)
Theorem points_radar_agrees_with_trails (f : Insect.captured_frame) :
  exists ds,
    Insect.detect f = Py.Ok ds /\
    InsectRest.draw_radar_points
      (InsectRest.radar_entry (Insect.shape1 f) <$> ds) Insect.RADAR_SIZE
    = dot_of (Insect.shape1 f) <$> ds.
Proof.
  destruct (detect_results_well_formed f (Insect.predictions f) []
              (Forall_nil_2 _)) as (ds & E & W).
  exists ds. split; [exact E|].
  unfold InsectRest.draw_radar_points.
  apply (draw_radar_points_app (Insect.shape1 f) ds [] W).
Qed.

(** ** The frame-rate division *)

Section FrameRate.
Import Py Insect.
Variable np_sqrt : Z -> Q.

(** Up to line 299 a pass leaves [prev_time] alone and adds one to the frame
    counter. *)
Lemma pass_before_fps stamp sh now ds st :
  let st2 :=
    remove_missing (current_labels ds)
      (process_detections np_sqrt sh now ds st).1 in
  let st4 :=
    if (frame_id (next_frame st2) mod 30 =? 0)%nat
    then save_species_summary_to_json stamp (next_frame st2)
    else next_frame st2 in
  prev_time st4 = prev_time st /\ frame_id st4 = S (frame_id st).
Proof.
  cbn zeta.
  assert (H : prev_time
                (remove_missing (current_labels ds)
                   (process_detections np_sqrt sh now ds st).1)
              = prev_time st /\
              frame_id
                (remove_missing (current_labels ds)
                   (process_detections np_sqrt sh now ds st).1)
              = frame_id st).
  { apply (remove_missing_preserves
             (fun s => prev_time s = prev_time st /\ frame_id s = frame_id st)).
    - intros lbl s H. exact H.
    - apply (process_detections_preserves np_sqrt
               (fun s => prev_time s = prev_time st /\ frame_id s = frame_id st)).
      + intros sh' now' d s s' [Hp Hf] E.
        apply process_detection_inv in E as (-> & _ & -> & _). done.
      + done. }
  destruct H as [Hp Hf].
  destruct (_ =? _)%nat; cbn; rewrite Hp, Hf; done.
Qed.
End FrameRate.

(** X6.  The frame-rate division of line 301 is not guarded against two
    equal clock readings: when the previous reading is not zero and the new
    one equals it, the pass raises [ZeroDivisionError] after the frame was
    processed and counted, which ends the loop; in every other case the pass
    ends normally, with the new reading stored. *)
Theorem equal_clock_readings_end_the_loop (np_sqrt : Z -> Q)
    (f : Insect.captured_frame) (now : Q) (stamp : string) (curr_time : Q)
    (key_q : bool) (st : Insect.state) :
  let pass :=
    Insect.iteration np_sqrt (Insect.Captured f now stamp curr_time key_q) st in
  (~ Insect.prev_time st == 0 /\ curr_time == Insect.prev_time st ->
   exists st',
     pass = Insect.Raised Py.ZeroDivisionError st' /\
     Insect.frame_id st' = S (Insect.frame_id st)) /\
  (Insect.prev_time st == 0 \/ ~ curr_time == Insect.prev_time st ->
   exists st',
     pass = (if key_q then Insect.Break st' else Insect.Continue st') /\
     Insect.prev_time st' = curr_time /\
     Insect.frame_id st' = S (Insect.frame_id st)).
Proof.
  intros pass. subst pass. cbn [Insect.iteration].
  destruct (detect_total f) as [ds ->].
  pose proof (process_detections_total np_sqrt (Insect.shape1 f) now ds st) as T.
  pose proof (pass_before_fps np_sqrt stamp (Insect.shape1 f) now ds st)
    as [Hp Hf].
  destruct (Insect.process_detections np_sqrt (Insect.shape1 f) now ds st)
    as [st1 o].
  cbn [fst snd] in *. subst o.
  set (st4 := if (_ =? _)%nat then _ else _) in *.
  rewrite Hp. unfold Py.truediv. split.
  - intros [N E].
    destruct (Qeq_bool (Insect.prev_time st) 0) eqn:Z;
      [apply Qeq_bool_eq in Z; contradiction|].
    assert (D : Qeq_bool (curr_time - Insect.prev_time st) 0 = true).
    { apply Qeq_eq_bool. lra. }
    rewrite D. eauto.
  - intros H.
    destruct (Qeq_bool (Insect.prev_time st) 0) eqn:Z.
    + exists (Insect.set_prev_time curr_time st4).
      split; [by destruct key_q | split; [reflexivity | exact Hf]].
    + destruct (Qeq_bool (curr_time - Insect.prev_time st) 0) eqn:D.
      * apply Qeq_bool_eq in D. apply Qeq_bool_neq in Z.
        destruct H as [H | H]; [contradiction | exfalso; apply H; lra].
      * exists (Insect.set_prev_time curr_time st4).
        split; [by destruct key_q | split; [reflexivity | exact Hf]].
Qed.

(** Two passes that read the same clock value: the second one raises, and
    the run still ends with its final snapshot. *)
Example same_clock_reading_twice :
  exists st',
    Insect.main_loop sqrt_floor [fly_at 1; fly_at 1] (Insect.init [])
    = Insect.Raised Py.ZeroDivisionError st' /\
    Insect.frame_id st' = 2%nat.
Proof. eexists. split; [vm_compute; reflexivity | reflexivity]. Qed.

(** ** The log across runs *)

Section LogKeys.
Import Py Insect InsectRest.
Variable np_sqrt : Z -> Q.

Lemma dict_set_keys_prefix {V} (k : string) (v : V) d :
  dict_keys d `prefix_of` dict_keys (dict_set k v d).
Proof.
  unfold dict_keys. rewrite dict_set_keys. case_decide; [done|].
  by apply prefix_app_r.
Qed.

Lemma dict_set_keys_elem {V} (k k' : string) (v : V) d :
  k' ∈ dict_keys (dict_set k v d) -> k' = k \/ k' ∈ dict_keys d.
Proof.
  unfold dict_keys. rewrite dict_set_keys. case_decide; [tauto|].
  rewrite elem_of_app, list_elem_of_singleton. tauto.
Qed.

Lemma save_species_summary_extends loaded ts st :
  log_extends loaded st ->
  log_extends loaded (save_species_summary_to_json ts st).
Proof.
  intros (P & U & F). split; [|split]; cbn.
  - etrans; [exact P | apply dict_set_keys_prefix].
  - intros k N R. rewrite dict_get_set_ne.
    + apply U; [|exact R]. intros fid I. apply (N fid).
      by do 2 apply list_elem_of_further.
    + intros ->. apply (N (frame_id st)).
      apply list_elem_of_further, list_elem_of_here.
  - intros k I. apply dict_set_keys_elem in I as [-> | I].
    + right. right. exists (frame_id st).
      apply list_elem_of_further, list_elem_of_here.
    + destruct (F k I) as [? | [? | [fid ?]]]; [tauto | tauto |].
      right. right. exists fid. by do 2 apply list_elem_of_further.
Qed.

Lemma main_loop_log_extends loaded cs :
  log_extends loaded (final_state (main_loop np_sqrt cs (init loaded))).
Proof.
  apply (main_loop_preserves np_sqrt (log_extends loaded));
    try (intros; assumption).
  - intros sh now d st st' (P & U & F) E.
    apply process_detection_inv in E as (_ & Ej & _ & _ & _ & _ & Et).
    unfold log_extends. rewrite Ej, Et. split; [exact P | split].
    + intros k N R. apply U; [|exact R]. intros fid I. apply (N fid).
      by apply list_elem_of_further.
    + intros k I. destruct (F k I) as [? | [? | [fid ?]]]; [tauto | tauto |].
      right. right. exists fid. by apply list_elem_of_further.
  - apply save_species_summary_extends.
  - split; [done | split; [done | tauto]].
Qed.

Lemma run_log_extends loaded cs final_stamp :
  log_extends loaded (run np_sqrt loaded cs final_stamp).
Proof.
  pose proof (main_loop_log_extends loaded cs) as H.
  apply (save_species_summary_extends loaded final_stamp) in H
    as (P & U & F).
  unfold run, finally.
  set (st1 := save_species_summary_to_json final_stamp _) in *.
  split; [|split]; cbn.
  - etrans; [exact P | apply dict_set_keys_prefix].
  - intros k N R. rewrite dict_get_set_ne by done.
    apply U; [|exact R]. intros fid I. apply (N fid).
    by apply list_elem_of_further.
  - intros k I. apply dict_set_keys_elem in I as [-> | I]; [tauto|].
    destruct (F k I) as [? | [? | [fid ?]]]; [tauto | tauto |].
    right. right. exists fid. by apply list_elem_of_further.
Qed.
End LogKeys.

(** X7.  A run continues an existing log: when the log file holds a JSON
    object, its keys are still there when the run ends, in the same order
    and in front of everything the run added. *)
Theorem existing_log_is_continued (np_sqrt : Z -> Q)
    (kv : list (string * Py.json)) (cs : list Insect.capture)
    (final_stamp : string) :
  Py.dict_keys kv
    `prefix_of`
  Py.dict_keys
    (Insect.json_data
       (Insect.run np_sqrt
          (InsectRest.load_json_data (Some (Py.Ok (Py.JObj kv))))
          cs final_stamp)).
Proof.
  exact (proj1 (run_log_extends np_sqrt kv cs final_stamp)).
Qed.

(** X8.  A run rewrites only its own entries: a key of the loaded log that
    is neither the timestamp of a snapshot taken in this run nor the
    reserved key keeps the value it had. *)
Theorem other_log_entries_are_untouched (np_sqrt : Z -> Q)
    (loaded : list (string * Py.json)) (cs : list Insect.capture)
    (final_stamp : string) (k : string) :
  let st := Insect.run np_sqrt loaded cs final_stamp in
  (forall fid, Insect.Snapshot fid k ∉ Insect.trace st) ->
  k <> "nearest_encounter" ->
  Py.dict_get k (Insect.json_data st) = Py.dict_get k loaded.
Proof.
  intros st. exact (proj1 (proj2 (run_log_extends np_sqrt loaded cs final_stamp)) k).
Qed.

Lemma other_log_entries_are_untouched_witness :
  Py.dict_get "2025-05-31T09:00:00.000000"
    (Insect.json_data
       (Insect.run sqrt_floor
          [("2025-05-31T09:00:00.000000", Py.JObj [])] two_close_insects
          "2025-06-01T10:00:02.000000"))
  = Some (Py.JObj []).
Proof.
  apply (other_log_entries_are_untouched sqrt_floor
           [("2025-05-31T09:00:00.000000", Py.JObj [])] two_close_insects
           "2025-06-01T10:00:02.000000" "2025-05-31T09:00:00.000000").
  - intros fid I. vm_compute in I.
    repeat (apply elem_of_cons in I as [I | I]; [discriminate I|]).
    by apply elem_of_nil in I.
  - discriminate.
Defined.

(** X9.  A log that cannot be continued is replaced: when the log file is
    missing, cannot be read or parsed, or holds something else than a JSON
    object, every key of the log the run leaves behind is the timestamp of a
    snapshot taken in this run or the reserved key. *)
Theorem unusable_log_is_replaced (np_sqrt : Z -> Q)
    (file : option (Py.result Py.json)) (cs : list Insect.capture)
    (final_stamp : string) (k : string) :
  let st :=
    Insect.run np_sqrt (InsectRest.load_json_data file) cs final_stamp in
  (forall kv, file <> Some (Py.Ok (Py.JObj kv))) ->
  k ∈ Py.dict_keys (Insect.json_data st) ->
  k = "nearest_encounter" \/ exists fid, Insect.Snapshot fid k ∈ Insect.trace st.
Proof.
  intros st N I.
  assert (E : InsectRest.load_json_data file = []).
  { destruct file as [[[]|]|]; try reflexivity. by destruct (N kv). }
  subst st. rewrite E in *.
  destruct (proj2 (proj2 (run_log_extends np_sqrt [] cs final_stamp)) k I)
    as [B | H]; [|exact H].
  by apply elem_of_nil in B.
Qed.

Lemma unusable_log_is_replaced_witness :
  let st :=
    Insect.run sqrt_floor
      (InsectRest.load_json_data (Some (Py.Ok (Py.JArr [])))) []
      "2025-06-01T10:00:02.000000" in
  "2025-06-01T10:00:02.000000" = "nearest_encounter" \/
  exists fid, Insect.Snapshot fid "2025-06-01T10:00:02.000000" ∈ Insect.trace st.
Proof.
  apply (unusable_log_is_replaced sqrt_floor (Some (Py.Ok (Py.JArr []))) []
           "2025-06-01T10:00:02.000000" "2025-06-01T10:00:02.000000").
  - discriminate.
  - vm_compute. apply list_elem_of_here.
Defined.

(** ** The species summary over time *)

Section SummaryOverTime.
Import Py Insect.
Variable np_sqrt : Z -> Q.

Lemma main_loop_trace_extends cs st :
  exists ev, trace (final_state (main_loop np_sqrt cs st)) = (ev ++ trace st)%list.
Proof.
  apply (main_loop_preserves np_sqrt
           (fun s => exists ev, trace s = (ev ++ trace st)%list));
    try (intros; assumption).
  - intros sh now d s s' [ev E] H.
    apply process_detection_inv in H as (_ & _ & _ & _ & _ & _ & ->).
    rewrite E. by eexists (_ :: ev).
  - intros ts s [ev E]. cbn. rewrite E. by eexists (_ :: _ :: ev).
  - by exists [].
Qed.

Lemma detections_of_app ev tr :
  detections_of (ev ++ tr) = (detections_of tr ++ detections_of ev)%list.
Proof.
  induction ev as [|e ev IH]; cbn [app detections_of].
  - by rewrite app_nil_r.
  - destruct e; cbn [detections_of]; rewrite IH; [|done..].
    by rewrite app_assoc.
Qed.

Lemma expected_info_later lbl obs more i :
  expected_info lbl obs = Some i ->
  exists i',
    expected_info lbl (obs ++ more) = Some i' /\
    entry_angle_deg i' = entry_angle_deg i /\
    entry_distance_m i' = entry_distance_m i /\
    (1 <= count i <= count i')%Z.
Proof.
  unfold expected_info, of_label. rewrite filter_app.
  destruct (filter _ obs) as [|first rest]; [discriminate|].
  intros [= <-]. cbn [app]. eexists. split; [reflexivity|]. cbn.
  rewrite length_app. repeat split; lia.
Qed.
End SummaryOverTime.

(** X10.  The species summary never forgets: once a label has an entry, it
    keeps one for the rest of the run, with the same entry angle and entry
    distance, and with a count that is at least 1 and never decreases. *)
Theorem species_summary_never_forgets (np_sqrt : Z -> Q)
    (loaded : list (string * Py.json)) (cs more : list Insect.capture)
    (lbl : string) (i : Insect.info) :
  let st :=
    Insect.final_state (Insect.main_loop np_sqrt cs (Insect.init loaded)) in
  let st' :=
    Insect.final_state
      (Insect.main_loop np_sqrt (cs ++ more) (Insect.init loaded)) in
  Py.dict_get lbl (Insect.species_summary st) = Some i ->
  exists i',
    Py.dict_get lbl (Insect.species_summary st') = Some i' /\
    Insect.entry_angle_deg i' = Insect.entry_angle_deg i /\
    Insect.entry_distance_m i' = Insect.entry_distance_m i /\
    (1 <= Insect.count i <= Insect.count i')%Z.
Proof.
  intros st st' H.
  destruct (main_loop_log_invariant np_sqrt cs loaded) as [[_ S] _].
  destruct (main_loop_log_invariant np_sqrt (cs ++ more) loaded) as [[_ S'] _].
  fold st in S. fold st' in S'. rewrite S in H. rewrite S'.
  assert (T : exists ev, Insect.trace st' = (ev ++ Insect.trace st)%list).
  { subst st st'. rewrite main_loop_app.
    destruct (Insect.main_loop np_sqrt cs (Insect.init loaded)) as [s|s|e s];
      [apply main_loop_trace_extends | by exists [] ..]. }
  destruct T as [ev ->]. rewrite detections_of_app.
  by apply expected_info_later.
Qed.

Lemma species_summary_never_forgets_witness :
  exists i',
    Py.dict_get "fly"
      (Insect.species_summary
         (Insect.final_state
            (Insect.main_loop sqrt_floor ([fly_at 1] ++ [fly_at 2; fly_at 3])
               (Insect.init []))))
    = Some i' /\
    Insect.entry_angle_deg i' = 584 # 10 /\
    Insect.entry_distance_m i' = 6 # 100 /\
    (1 <= 1 <= Insect.count i')%Z.
Proof.
  apply (species_summary_never_forgets sqrt_floor [] [fly_at 1]
           [fly_at 2; fly_at 3] "fly"
           (Insect.Info 1 (584 # 10) (584 # 10) (6 # 100) (6 # 100))).
  vm_compute. reflexivity.
Defined.

(** ** The LEDs and the display *)

Section Peripherals.
Import Py OledAndLed.

Lemma switches_off_led h pin :
  pin ∈ [RED_LED; YELLOW_LED; GREEN_LED] -> switches_off (GpioWrite h pin 0).
Proof. intros I. by exists h, pin. Qed.

Lemma texts_on_rows (lines : list string) :
  Forall on_a_row
    (imap (fun i line => (0%Z, (Z.of_nat i * 12)%Z, line)) (take 5 lines)).
Proof.
  apply Forall_lookup. intros i t. rewrite list_lookup_imap.
  destruct (take 5 lines !! i) as [line|] eqn:L; [|discriminate].
  intros [= <-]. apply lookup_lt_Some in L. rewrite length_take in L.
  split; [reflexivity|]. cbn [fst snd].
  assert (B : (i < 5)%nat) by lia.
  destruct i as [|[|[|[|[|i]]]]]; [set_solver.. | lia].
Qed.
End Peripherals.

(** X11.  [reset_leds] only ever switches LEDs off: whatever the hardware
    does, every operation it attempts is a write of level 0 to one of the
    pins 17, 27 and 22.  It attempts none when [chip] is [None] and also
    when the handle is 0, which the test [if chip:] takes for "no chip"; with
    any other handle and working hardware it writes the three pins, red,
    yellow, green, and returns normally. *)
Theorem reset_leds_only_switches_off
    (fails : list OledAndLed.hw_event -> OledAndLed.hw_event -> bool)
    (chip : option Z) (before : list OledAndLed.hw_event) :
  exists attempted,
    (OledAndLed.reset_leds fails chip before).2 = (attempted ++ before)%list /\
    Forall switches_off attempted /\
    (chip = None \/ chip = Some 0%Z -> attempted = []) /\
    (forall h, chip = Some h -> h <> 0%Z ->
               (forall tr e, fails tr e = false) ->
               OledAndLed.reset_leds fails chip before
               = (Py.Ok (),
                  [ OledAndLed.GpioWrite h OledAndLed.GREEN_LED 0;
                    OledAndLed.GpioWrite h OledAndLed.YELLOW_LED 0;
                    OledAndLed.GpioWrite h OledAndLed.RED_LED 0 ] ++ before)%list).
Proof.
  unfold OledAndLed.reset_leds.
  destruct chip as [h|]; cbn [OledAndLed.chip_truthy].
  2:{ exists []. split; [reflexivity|]. split; [apply Forall_nil_2|].
      split; [done | discriminate]. }
  destruct (h =? 0)%Z eqn:Z; cbn [negb].
  { apply Z.eqb_eq in Z. subst h. exists []. split; [reflexivity|].
    split; [apply Forall_nil_2|]. split; [done|].
    intros h [= <-] N. done. }
  apply Z.eqb_neq in Z. cbn [default from_option].
  unfold OledAndLed.hw_bind, OledAndLed.perform.
  assert (R : switches_off (OledAndLed.GpioWrite h OledAndLed.RED_LED 0))
    by (apply switches_off_led; set_solver).
  assert (Y : switches_off (OledAndLed.GpioWrite h OledAndLed.YELLOW_LED 0))
    by (apply switches_off_led; set_solver).
  assert (G : switches_off (OledAndLed.GpioWrite h OledAndLed.GREEN_LED 0))
    by (apply switches_off_led; set_solver).
  destruct (fails before _) eqn:F1.
  { exists [OledAndLed.GpioWrite h OledAndLed.RED_LED 0].
    split; [reflexivity|]. split; [by repeat constructor|].
    split; [intros [? | [= ->]]; done |].
    intros h' [= <-] _ W. by rewrite W in F1. }
  destruct (fails (_ :: before) _) eqn:F2.
  { exists [OledAndLed.GpioWrite h OledAndLed.YELLOW_LED 0;
            OledAndLed.GpioWrite h OledAndLed.RED_LED 0].
    split; [reflexivity|]. split; [by repeat constructor|].
    split; [intros [? | [= ->]]; done |].
    intros h' [= <-] _ W. by rewrite W in F2. }
  exists [OledAndLed.GpioWrite h OledAndLed.GREEN_LED 0;
          OledAndLed.GpioWrite h OledAndLed.YELLOW_LED 0;
          OledAndLed.GpioWrite h OledAndLed.RED_LED 0].
  destruct (fails (_ :: _ :: before) _) eqn:F3.
  - split; [reflexivity|]. split; [by repeat constructor|].
    split; [intros [? | [= ->]]; done |].
    intros h' [= <-] _ W. by rewrite W in F3.
  - split; [reflexivity|]. split; [by repeat constructor|].
    split; [intros [? | [= ->]]; done |].
    intros h' [= <-] _ W. reflexivity.
Qed.

(** X12.  [display_on_oled] shows at most five lines: the lines after the
    fifth change nothing, and with a working display the image sent to it
    holds the first five lines and nothing else, line number [i] (from 0)
    at column 0 of row [12 * i], so on the rows 0, 12, 24, 36 and 48 in
    this order, between a clearing of the display and a final refresh. *)
Theorem display_on_oled_shows_five_lines
    (fails : list OledAndLed.hw_event -> OledAndLed.hw_event -> bool)
    (dev : OledAndLed.oled_device) (lines : list string)
    (before : list OledAndLed.hw_event) :
  OledAndLed.display_on_oled fails (Some dev) lines before
  = OledAndLed.display_on_oled fails (Some dev) (take 5 lines) before /\
  exists texts,
    (length texts <= 5)%nat /\ texts.*2 = take 5 lines /\
    Forall on_a_row texts /\
    length texts = length (take 5 lines) /\
    (forall (i : nat) line,
        take 5 lines !! i = Some line ->
        texts !! i = Some (0%Z, (Z.of_nat i * 12)%Z, line)) /\
    ((forall tr e, fails tr e = false) ->
     OledAndLed.display_on_oled fails (Some dev) lines before
     = (Py.Ok (),
        [ OledAndLed.OledShow;
          OledAndLed.OledImage
            (OledAndLed.width dev, OledAndLed.height dev) texts;
          OledAndLed.OledShow;
          OledAndLed.OledFill 0 ] ++ before)%list).
Proof.
  split.
  - unfold OledAndLed.display_on_oled. by rewrite take_take.
  - exists (imap (fun i line => (0%Z, (Z.of_nat i * 12)%Z, line)) (take 5 lines)).
    split; [|split; [|split; [|split; [|split]]]].
    + rewrite length_imap, length_take. lia.
    + apply list_eq. intros i.
      rewrite list_lookup_fmap, list_lookup_imap.
      by destruct (take 5 lines !! i).
    + apply texts_on_rows.
    + apply length_imap.
    + intros i line L. rewrite list_lookup_imap, L. reflexivity.
    + intros W. unfold OledAndLed.display_on_oled, OledAndLed.hw_bind,
        OledAndLed.perform.
      by rewrite !W.
Qed.

(** ** Sessions of a log *)

Section Sessions.
Import Py Llm LlmRest.

Lemma all_dicts_inv log :
  all_dicts log ->
  exists dicts : list (string * list (string * json)),
    log = (fun p => (p.1, JObj p.2)) <$> dicts.
Proof.
  induction log as [|[ts v] log IH]; intros H.
  - by exists [].
  - apply Forall_cons in H as [[d Hd] H]. cbn in Hd. subst v.
    destruct (IH H) as [dicts ->]. by exists ((ts, d) :: dicts).
Qed.

Lemma build_sessions_of_dicts
    (dicts : list (string * list (string * json))) sessions :
  build_sessions ((fun p => (p.1, JObj p.2)) <$> dicts) sessions
  = Ok (sessions ++ ((fun p => JObj (session_of p.1 p.2)) <$> dicts))%list.
Proof.
  revert sessions. induction dicts as [|[ts d] dicts IH]; intros sessions.
  - cbn. by rewrite app_nil_r.
  - rewrite !fmap_cons. cbn [build_sessions fst snd].
    rewrite make_session_of_dict. cbn [mbind result_bind bind].
    rewrite IH, <- app_assoc. reflexivity.
Qed.

Lemma load_sessions_of_dicts (fs : files)
    (dicts : list (string * list (string * json))) :
  load_sessions (<[LOG_PATH := Ok (JObj ((fun p => (p.1, JObj p.2)) <$> dicts))]> fs)
  = (fun p => JObj (session_of p.1 p.2)) <$> dicts.
Proof.
  unfold load_sessions. rewrite lookup_insert_eq.
  cbn [mbind result_bind bind items].
  by rewrite build_sessions_of_dicts.
Qed.

Lemma build_sessions_not_dict log sessions :
  Exists (fun kv => ~ is_dict kv.2) log ->
  exists e, build_sessions log sessions = Raise e.
Proof.
  revert sessions. induction log as [|[ts v] log IH]; intros sessions H.
  - by apply Exists_nil in H.
  - apply Exists_cons in H. cbn [build_sessions].
    destruct v; try (by eexists).
    rewrite make_session_of_dict. cbn [mbind result_bind bind].
    destruct H as [H | H]; [|by apply IH].
    destruct H. by eexists.
Qed.

Lemma session_of_info ts d :
  dict_get "session_info" (session_of ts d)
  = Some (JObj [("session_id", JStr ts); ("timestamp", JStr ts)]).
Proof.
  unfold session_of. rewrite dict_get_set_ne by discriminate.
  apply dict_get_set_eq.
Qed.

Lemma session_of_video ts d :
  dict_get "video_reference" (session_of ts d) = Some (JStr DEFAULT_VIDEO).
Proof. apply dict_get_set_eq. Qed.

Lemma session_of_other ts d k :
  k <> "session_info" -> k <> "video_reference" ->
  dict_get k (session_of ts d) = dict_get k d.
Proof.
  intros N1 N2. unfold session_of. by rewrite !dict_get_set_ne.
Qed.

Lemma session_of_id ts d : session_id (JObj (session_of ts d)) = Some (JStr ts).
Proof. unfold session_id. by rewrite session_of_info. Qed.

Lemma session_of_NoDup ts d :
  NoDup (dict_keys d) -> NoDup (dict_keys (session_of ts d)).
Proof. intros H. unfold session_of, dict_keys. by do 2 apply dict_set_NoDup. Qed.
End Sessions.

(** X13.  [load_sessions] needs a log whose top-level value is an object
    with nothing but objects in it: when the log parses to anything else,
    it returns the empty list, and the sessions it had built before it met
    the offending entry are dropped. *)
Theorem load_sessions_needs_a_dict_of_dicts (fs : Llm.files) (raw : Py.json) :
  fs !! Llm.LOG_PATH = Some (Py.Ok raw) ->
  (forall log, raw = Py.JObj log -> Exists (fun kv => ~ is_dict kv.2) log) ->
  Llm.load_sessions fs = [].
Proof.
  intros E H. unfold Llm.load_sessions. rewrite E.
  cbn [mbind result_bind Py.bind].
  destruct raw; try reflexivity.
  cbn [mbind result_bind Py.bind Llm.items].
  destruct (build_sessions_not_dict kv [] (H kv eq_refl)) as [e ->].
  reflexivity.
Qed.

Lemma load_sessions_needs_a_dict_of_dicts_witness :
  Llm.load_sessions
    {[ Llm.LOG_PATH :=
         Py.Ok (Py.JObj [ ("2025-06-01T10:00:02.000000", Py.JObj []);
                          ("version", Py.JInt 2) ]) ]}
  = [].
Proof.
  apply (load_sessions_needs_a_dict_of_dicts _
           (Py.JObj [ ("2025-06-01T10:00:02.000000", Py.JObj []);
                      ("version", Py.JInt 2) ])).
  - reflexivity.
  - intros log [= <-]. apply Exists_cons_tl, Exists_cons_hd.
    intros [d Hd]. discriminate Hd.
Defined.

(** X14.  On a log that is an object of objects, [load_sessions] returns
    one session per top-level key, in the order of the keys: the entry
    stored under the key, with [session_info] set to the key as id and
    timestamp, [video_reference] set to the default video, and every other
    field as it is in the log. *)
Theorem load_sessions_one_session_per_key (fs : Llm.files)
    (dicts : list (string * list (string * Py.json))) :
  Forall2
    (fun p sess =>
       exists s,
         sess = Py.JObj s /\
         Py.dict_get "session_info" s
         = Some (Py.JObj [("session_id", Py.JStr p.1); ("timestamp", Py.JStr p.1)]) /\
         Py.dict_get "video_reference" s = Some (Py.JStr Llm.DEFAULT_VIDEO) /\
         forall k, k <> "session_info" -> k <> "video_reference" ->
                   Py.dict_get k s = Py.dict_get k p.2)
    dicts
    (Llm.load_sessions
       (<[Llm.LOG_PATH := Py.Ok (Py.JObj ((fun p => (p.1, Py.JObj p.2)) <$> dicts))]> fs)).
Proof.
  rewrite load_sessions_of_dicts. apply Forall2_fmap_r, Forall_Forall2_diag.
  apply Forall_forall. intros [ts d] _. exists (session_of ts d).
  split; [reflexivity|]. split; [apply session_of_info|].
  split; [apply session_of_video|]. apply session_of_other.
Qed.

(** ** What the GUI shows of a snapshot *)

Section DictFolds.
Import Py.
Variable f : string -> json -> option json.

Lemma foldl_set_some_get lbl (d acc : list (string * json)) :
  NoDup d.*1 ->
  dict_get lbl
    (foldl (fun acc kv =>
              match f kv.1 kv.2 with
              | Some e => dict_set kv.1 e acc
              | None => acc
              end) acc d)
  = match dict_get lbl d ≫= f lbl with
    | Some e => Some e
    | None => dict_get lbl acc
    end.
Proof.
  revert acc. induction d as [|[k v] d IH]; intros acc ND; [reflexivity|].
  cbn [foldl dict_get fst snd]. apply NoDup_cons in ND as [Hk ND].
  cbn [fst] in Hk. apply dict_get_None in Hk.
  rewrite IH by exact ND. case_decide as D.
  - subst lbl. rewrite Hk. cbn [mbind option_bind].
    destruct (f k v); [apply dict_get_set_eq | reflexivity].
  - destruct (dict_get lbl d ≫= f lbl); [reflexivity|].
    destruct (f k v); [|reflexivity].
    apply dict_get_set_ne. congruence.
Qed.

Lemma foldl_dict_set_NoDup {A} (g : A -> string) (h : A -> json)
    (l : list A) (acc : list (string * json)) :
  NoDup acc.*1 ->
  NoDup (foldl (fun acc x => dict_set (g x) (h x) acc) acc l).*1.
Proof.
  revert acc. induction l as [|x l IH]; intros acc ND; [exact ND|].
  cbn [foldl]. apply IH. by apply dict_set_NoDup.
Qed.
End DictFolds.

Section Positions.
Import Py Insect Llm LlmRest.

Lemma compute_angles_and_distances_get lbl session :
  NoDup (dict_keys session) ->
  dict_get lbl (compute_angles_and_distances session)
  = dict_get lbl session ≫= position_of lbl.
Proof.
  intros ND. unfold compute_angles_and_distances.
  assert (E : forall acc,
            foldl
              (fun out '(lbl, info) =>
                 match info with
                 | JObj i =>
                     if bool_decide (lbl ∈ ["session_info"; "video_reference"])
                     then out
                     else
                       dict_set lbl
                         (JObj
                            [ ("entry_angle_deg", get "start_angle_deg" (JInt 0) i);
                              ("exit_angle_deg", get "end_angle_deg" (JInt 0) i);
                              ("entry_dist_m", get "start_distance_m" (JInt 0) i);
                              ("exit_dist_m", get "end_distance_m" (JInt 0) i) ])
                         out
                 | _ => out
                 end) acc session
            = foldl (fun acc kv =>
                       match position_of kv.1 kv.2 with
                       | Some e => dict_set kv.1 e acc
                       | None => acc
                       end) acc session).
  { induction session as [|[k v] s IH]; intros acc; [reflexivity|].
    cbn [foldl fst snd]. apply NoDup_cons in ND as [_ ND].
    rewrite <- (IH ND). f_equal.
    destruct v; try reflexivity. cbn [position_of].
    by case_bool_decide. }
  rewrite E, foldl_set_some_get by exact ND.
  by destruct (dict_get lbl session ≫= position_of lbl).
Qed.

Lemma per_label_get lbl session :
  NoDup (dict_keys session) ->
  dict_get lbl (per_label session) = dict_get lbl session ≫= count_of lbl.
Proof.
  intros ND. unfold per_label.
  assert (E : forall acc,
            foldl
              (fun acc '(k, v) =>
                 match v with
                 | JObj i =>
                     if bool_decide (k = "nearest") then acc
                     else dict_set k (get "count" (JInt 0) i) acc
                 | _ => acc
                 end) acc session
            = foldl (fun acc kv =>
                       match count_of kv.1 kv.2 with
                       | Some e => dict_set kv.1 e acc
                       | None => acc
                       end) acc session).
  { induction session as [|[k v] s IH]; intros acc; [reflexivity|].
    cbn [foldl fst snd]. apply NoDup_cons in ND as [_ ND].
    rewrite <- (IH ND). f_equal.
    destruct v; try reflexivity. cbn [count_of].
    by case_bool_decide. }
  rewrite E, foldl_set_some_get by exact ND.
  by destruct (dict_get lbl session ≫= count_of lbl).
Qed.

Lemma summary_snapshot_NoDup summary :
  NoDup (dict_keys (summary_snapshot summary)).
Proof.
  unfold summary_snapshot, dict_keys.
  assert (E : forall acc,
            foldl (fun acc '(lbl, i) => dict_set lbl (summary_entry i) acc)
                  acc summary
            = foldl (fun acc x => dict_set x.1 (summary_entry x.2) acc)
                    acc summary).
  { induction summary as [|[k i] s IH]; intros acc; [reflexivity|].
    cbn [foldl fst snd]. apply IH. }
  rewrite E. apply foldl_dict_set_NoDup. apply NoDup_nil_2.
Qed.

(** The positions and the counts of the session made of the snapshot of a
    summary that agrees with the detections of the trace [tr]. *)
Lemma snapshot_session_positions ts summary tr lbl :
  summary_ok summary tr ->
  dict_get lbl
    (compute_angles_and_distances (session_of ts (summary_snapshot summary)))
  = if bool_decide (lbl ∈ ["session_info"; "video_reference"]) then None
    else expected_position lbl (detections_of tr).
Proof.
  intros H.
  rewrite compute_angles_and_distances_get
    by apply session_of_NoDup, summary_snapshot_NoDup.
  destruct (decide (lbl = "session_info")) as [->|N1].
  { by rewrite session_of_info. }
  destruct (decide (lbl = "video_reference")) as [->|N2].
  { by rewrite session_of_video. }
  rewrite session_of_other by assumption.
  rewrite (summary_snapshot_ok summary tr lbl H).
  rewrite bool_decide_eq_false_2.
  2:{ rewrite !elem_of_cons, elem_of_nil. tauto. }
  unfold expected_entry, expected_position.
  destruct (of_label lbl (detections_of tr)) as [|first rest]; [reflexivity|].
  cbn [mbind option_bind position_of].
  rewrite bool_decide_eq_false_2.
  2:{ rewrite !elem_of_cons, elem_of_nil. tauto. }
  reflexivity.
Qed.

Lemma snapshot_session_counts ts summary tr lbl :
  summary_ok summary tr ->
  dict_get lbl (per_label (session_of ts (summary_snapshot summary)))
  = if decide (lbl = "session_info") then Some (JInt 0)
    else if decide (lbl = "video_reference" \/ lbl = "nearest") then None
    else expected_count lbl (detections_of tr).
Proof.
  intros H.
  rewrite per_label_get by apply session_of_NoDup, summary_snapshot_NoDup.
  destruct (decide (lbl = "session_info")) as [->|N1].
  { by rewrite session_of_info. }
  destruct (decide (lbl = "video_reference")) as [->|N2].
  { rewrite session_of_video. rewrite decide_True by tauto. reflexivity. }
  rewrite session_of_other by assumption.
  rewrite (summary_snapshot_ok summary tr lbl H).
  unfold expected_entry, expected_count.
  destruct (of_label lbl (detections_of tr)) as [|first rest].
  { cbn. by case_decide. }
  cbn [mbind option_bind count_of].
  case_bool_decide as B.
  - rewrite decide_True by tauto. reflexivity.
  - rewrite decide_False by tauto. reflexivity.
Qed.
End Positions.

(** ** From the log of a run to the GUI *)

Section RunToGui.
Import Py Insect Llm LlmRest.
Variable np_sqrt : Z -> Q.

Lemma dict_get_Some_elem {V} k (v : V) d : dict_get k d = Some v -> (k, v) ∈ d.
Proof.
  induction d as [|[k' v'] d IH]; cbn [dict_get]; [discriminate|].
  case_decide.
  - intros [= ->]. subst k'. apply list_elem_of_here.
  - intros E. by apply list_elem_of_further, IH.
Qed.

Lemma dict_get_elem_NoDup {V} k (v : V) d :
  NoDup d.*1 -> (k, v) ∈ d -> dict_get k d = Some v.
Proof.
  induction d as [|[k' v'] d IH]; intros ND I.
  - by apply elem_of_nil in I.
  - cbn [fmap list_fmap fst] in ND. apply NoDup_cons in ND as [Hk ND].
    cbn [dict_get]. apply elem_of_cons in I as [[= -> ->] | I].
    + by rewrite decide_True.
    + rewrite decide_False; [by apply IH|].
      intros ->. apply Hk. by apply (list_elem_of_fmap_2 fst _ (k', v)).
Qed.

Lemma dict_set_new {V} k (v : V) d :
  k ∉ dict_keys d -> dict_set k v d = (d ++ [(k, v)])%list.
Proof.
  unfold dict_keys. induction d as [|[k' v'] d IH]; intros N; [reflexivity|].
  cbn [fmap list_fmap fst] in N. apply not_elem_of_cons in N as [N1 N2].
  cbn [dict_set app]. rewrite decide_False by done. by rewrite IH.
Qed.

Lemma dict_set_app_l {V} k (v : V) d1 d2 :
  k ∈ dict_keys d1 -> dict_set k v (d1 ++ d2) = (dict_set k v d1 ++ d2)%list.
Proof.
  unfold dict_keys. induction d1 as [|[k' v'] d IH]; intros I.
  - by apply elem_of_nil in I.
  - cbn [fmap list_fmap fst] in I. cbn [dict_set app]. case_decide.
    + reflexivity.
    + apply elem_of_cons in I as [-> | I]; [done|].
      cbn [app]. by rewrite IH.
Qed.

(** A property of the log that every entry a run writes keeps. *)
Lemma run_log_preserves (P : list (string * json) -> Prop) loaded cs final_stamp :
  (forall k d log, P log -> P (dict_set k (JObj d) log)) ->
  P loaded ->
  P (json_data (final_state (main_loop np_sqrt cs (init loaded)))) /\
  P (json_data (run np_sqrt loaded cs final_stamp)).
Proof.
  intros S H0.
  assert (H : P (json_data (final_state (main_loop np_sqrt cs (init loaded))))).
  { apply (main_loop_preserves np_sqrt (fun st => P (json_data st)));
      try (intros; assumption).
    - intros sh now d st st' H E.
      apply process_detection_inv in E as (_ & -> & _). exact H.
    - intros ts st H. cbn. by apply S. }
  split; [exact H|].
  unfold run, finally. cbn [json_data save_json save_species_summary_to_json].
  by do 2 apply S.
Qed.

(** Before the [finally] block, every key of the log was loaded or is the
    timestamp of a snapshot. *)
Lemma main_loop_log_keys loaded cs k :
  let st := final_state (main_loop np_sqrt cs (init loaded)) in
  k ∈ dict_keys (json_data st) ->
  k ∈ dict_keys loaded \/ exists fid, Snapshot fid k ∈ trace st.
Proof.
  cbn zeta. revert k.
  apply (main_loop_preserves np_sqrt
           (fun st => forall k, k ∈ dict_keys (json_data st) ->
              k ∈ dict_keys loaded \/ exists fid, Snapshot fid k ∈ trace st));
    try (intros ? ? F; exact F); try (intros ? F; exact F).
  - intros sh now d st st' F E.
    apply process_detection_inv in E as (_ & Ej & _ & _ & _ & _ & Et).
    rewrite Ej, Et. intros k I. destruct (F k I) as [? | [fid ?]]; [tauto|].
    right. exists fid. by apply list_elem_of_further.
  - intros ts st F k I.
    cbn [json_data save_json save_species_summary_to_json] in I.
    cbn [trace save_json save_species_summary_to_json].
    apply dict_set_keys_elem in I as [-> | I].
    + right. exists (frame_id st).
      apply list_elem_of_further, list_elem_of_here.
    + destruct (F k I) as [? | [fid ?]]; [tauto|].
      right. exists fid. by do 2 apply list_elem_of_further.
  - intros k I. by left.
Qed.

Lemma run_log_last_snapshot loaded cs final_stamp :
  final_stamp <> "nearest_encounter" ->
  dict_get final_stamp (json_data (run np_sqrt loaded cs final_stamp))
  = Some (JObj (summary_snapshot
                  (species_summary
                     (final_state (main_loop np_sqrt cs (init loaded)))))).
Proof.
  intros N. unfold run, finally.
  cbn [json_data save_json save_species_summary_to_json species_summary].
  rewrite dict_get_set_ne by done. apply dict_get_set_eq.
Qed.

Lemma sessions_of_all_dicts (fs : files) log :
  all_dicts log ->
  exists dicts : list (string * list (string * json)),
    log = (fun p => (p.1, JObj p.2)) <$> dicts /\
    load_sessions (<[LOG_PATH := Ok (JObj log)]> fs)
    = (fun p => JObj (session_of p.1 p.2)) <$> dicts.
Proof.
  intros H. destruct (all_dicts_inv log H) as [dicts ->].
  exists dicts. split; [reflexivity | apply load_sessions_of_dicts].
Qed.

(** In a log of dicts with distinct keys, the entry [d] stored under [k]
    gives the one session whose id is [k]. *)
Lemma session_by_id (fs : files) log k d :
  all_dicts log -> NoDup (dict_keys log) ->
  dict_get k log = Some (JObj d) ->
  let sessions := load_sessions (<[LOG_PATH := Ok (JObj log)]> fs) in
  JObj (session_of k d) ∈ sessions /\
  forall s, s ∈ sessions -> session_id s = Some (JStr k) ->
            s = JObj (session_of k d).
Proof.
  intros A ND G sessions.
  destruct (sessions_of_all_dicts fs log A) as (dicts & El & Es).
  subst sessions. rewrite Es. split.
  - apply dict_get_Some_elem in G. rewrite El in G.
    apply list_elem_of_fmap_1 in G as ([k' d'] & [= -> ->] & I).
    by apply (list_elem_of_fmap_2 (fun p => JObj (session_of p.1 p.2)) _ (k', d')).
  - intros s I Hid.
    apply list_elem_of_fmap_1 in I as ([k' d'] & -> & I). cbn [fst snd] in *.
    rewrite session_of_id in Hid. injection Hid as ->.
    assert (I' : (k, JObj d') ∈ log).
    { rewrite El.
      by apply (list_elem_of_fmap_2 (fun p => (p.1, JObj p.2)) _ (k, d')). }
    apply (dict_get_elem_NoDup _ _ _ ND) in I'. rewrite G in I'.
    by injection I' as ->.
Qed.

(** The GUI starts on the session made of the last entry of the log. *)
Lemma current_session_last (fs : files) log k d :
  all_dicts log -> last log = Some (k, JObj d) ->
  current_session (load_sessions (<[LOG_PATH := Ok (JObj log)]> fs))
  = JObj (session_of k d).
Proof.
  intros A L. destruct (sessions_of_all_dicts fs log A) as (dicts & El & ->).
  unfold current_session. rewrite fmap_last.
  rewrite El, fmap_last in L.
  destruct (last dicts) as [[k' d']|]; [|discriminate].
  cbn in L. injection L as -> ->. reflexivity.
Qed.

Lemma nearest_session_positions k n fields :
  nearest_json n = JObj fields ->
  compute_angles_and_distances (session_of k fields) = [] /\
  per_label (session_of k fields) = [("session_info", JInt 0)].
Proof.
  unfold nearest_json. intros [= <-].
  destruct (frame n), (label n), (angle_deg n); split; reflexivity.
Qed.
End RunToGui.

(** X15.  Writer to reader, positions: when a run starts from a log of
    dicts with distinct keys, [load_sessions] makes exactly one session
    with the timestamp of the final snapshot as its id, and
    [compute_angles_and_distances] gives for it, under each label that
    [detect] found on the frames of the run, the angle and distance of the
    first and of the last of these detections as the log holds them
    (rounded twice), and nothing under any other key. *)
Theorem final_snapshot_positions (np_sqrt : Z -> Q) (fs : Llm.files)
    (loaded : list (string * Py.json)) (cs : list Insect.capture)
    (final_stamp : string) :
  let obs := sighted np_sqrt cs (Insect.init loaded) in
  let log := Insect.json_data (Insect.run np_sqrt loaded cs final_stamp) in
  let sessions := Llm.load_sessions (<[Llm.LOG_PATH := Py.Ok (Py.JObj log)]> fs) in
  all_dicts loaded -> NoDup (Py.dict_keys loaded) ->
  final_stamp <> "nearest_encounter" ->
  exists sess,
    Py.JObj sess ∈ sessions /\
    (forall s, s ∈ sessions -> Llm.session_id s = Some (Py.JStr final_stamp) ->
               s = Py.JObj sess) /\
    Llm.session_id (Py.JObj sess) = Some (Py.JStr final_stamp) /\
    forall lbl,
      Py.dict_get lbl (LlmRest.compute_angles_and_distances sess)
      = if bool_decide (lbl ∈ ["session_info"; "video_reference"]) then None
        else expected_position lbl (detections_of obs).
Proof.
  intros obs log sessions A ND N.
  destruct (run_log_preserves np_sqrt all_dicts loaded cs final_stamp) as [_ A'].
  { intros k d l. apply dict_set_all_dicts. }
  { exact A. }
  destruct (run_log_preserves np_sqrt (fun l => NoDup (Py.dict_keys l))
              loaded cs final_stamp) as [_ ND'].
  { intros k d l. apply dict_set_NoDup. }
  { exact ND. }
  pose proof (run_log_last_snapshot np_sqrt loaded cs final_stamp N) as G.
  destruct (session_by_id fs _ _ _ A' ND' G) as [I U].
  eexists. split; [exact I|]. split; [exact U|].
  split; [apply session_of_id|].
  intros lbl. subst obs. rewrite <- detections_of_sighted.
  apply snapshot_session_positions.
  apply (main_loop_log_invariant np_sqrt cs loaded).
Qed.

Lemma final_snapshot_positions_witness :
  let log :=
    Insect.json_data
      (Insect.run sqrt_floor [] two_close_insects "2025-06-01T10:00:02.000000") in
  exists sess,
    Py.JObj sess ∈ Llm.load_sessions (<[Llm.LOG_PATH := Py.Ok (Py.JObj log)]> ∅) /\
    Py.dict_get "fly" (LlmRest.compute_angles_and_distances sess)
    = expected_position "fly"
        (detections_of (sighted sqrt_floor two_close_insects (Insect.init []))).
Proof.
  destruct (final_snapshot_positions sqrt_floor ∅ [] two_close_insects
              "2025-06-01T10:00:02.000000") as (sess & I & _ & _ & P).
  - apply Forall_nil_2.
  - apply NoDup_nil_2.
  - discriminate.
  - exists sess. split; [exact I | exact (P "fly")].
Defined.

(** X16.  Writer to reader, counts: for the session of the final snapshot,
    the pie chart's [per_label] holds, for each label, the number of
    detections of that label [detect] found on the frames of the run, and
    also a slice [session_info] of count 0, which the session gets from
    [load_sessions]. *)
Theorem final_snapshot_counts (np_sqrt : Z -> Q) (fs : Llm.files)
    (loaded : list (string * Py.json)) (cs : list Insect.capture)
    (final_stamp : string) :
  let obs := sighted np_sqrt cs (Insect.init loaded) in
  let log := Insect.json_data (Insect.run np_sqrt loaded cs final_stamp) in
  let sessions := Llm.load_sessions (<[Llm.LOG_PATH := Py.Ok (Py.JObj log)]> fs) in
  all_dicts loaded -> NoDup (Py.dict_keys loaded) ->
  final_stamp <> "nearest_encounter" ->
  exists sess,
    Py.JObj sess ∈ sessions /\
    Llm.session_id (Py.JObj sess) = Some (Py.JStr final_stamp) /\
    forall lbl,
      Py.dict_get lbl (LlmRest.per_label sess)
      = if decide (lbl = "session_info") then Some (Py.JInt 0)
        else if decide (lbl = "video_reference" \/ lbl = "nearest") then None
        else expected_count lbl (detections_of obs).
Proof.
  intros obs log sessions A ND N.
  destruct (run_log_preserves np_sqrt all_dicts loaded cs final_stamp) as [_ A'].
  { intros k d l. apply dict_set_all_dicts. }
  { exact A. }
  destruct (run_log_preserves np_sqrt (fun l => NoDup (Py.dict_keys l))
              loaded cs final_stamp) as [_ ND'].
  { intros k d l. apply dict_set_NoDup. }
  { exact ND. }
  pose proof (run_log_last_snapshot np_sqrt loaded cs final_stamp N) as G.
  destruct (session_by_id fs _ _ _ A' ND' G) as [I _].
  eexists. split; [exact I|]. split; [apply session_of_id|].
  intros lbl. subst obs. rewrite <- detections_of_sighted.
  apply snapshot_session_counts.
  apply (main_loop_log_invariant np_sqrt cs loaded).
Qed.

Lemma final_snapshot_counts_witness :
  let log :=
    Insect.json_data
      (Insect.run sqrt_floor [] two_close_insects "2025-06-01T10:00:02.000000") in
  exists sess,
    Py.JObj sess ∈ Llm.load_sessions (<[Llm.LOG_PATH := Py.Ok (Py.JObj log)]> ∅) /\
    Py.dict_get "session_info" (LlmRest.per_label sess) = Some (Py.JInt 0).
Proof.
  destruct (final_snapshot_counts sqrt_floor ∅ [] two_close_insects
              "2025-06-01T10:00:02.000000") as (sess & I & _ & P).
  - apply Forall_nil_2.
  - apply NoDup_nil_2.
  - discriminate.
  - exists sess. split; [exact I | exact (P "session_info")].
Defined.

(** ** The session the GUI opens on *)

Section DefaultSession.
Import Py Insect Llm LlmRest.
Variable np_sqrt : Z -> Q.

Lemma run_log_first_time loaded cs final_stamp :
  let st := run np_sqrt loaded cs final_stamp in
  "nearest_encounter" ∉ dict_keys loaded ->
  (forall fid, Snapshot fid "nearest_encounter" ∉ trace st) ->
  exists earlier,
    json_data st
    = (earlier ++ [("nearest_encounter", nearest_json (nearest_encounter st))])%list.
Proof.
  intros st N S. subst st. unfold run, finally in *.
  set (st0 := final_state (main_loop np_sqrt cs (init loaded))) in *.
  cbn [json_data trace nearest_encounter save_json
       save_species_summary_to_json] in *.
  eexists. apply dict_set_new. intros I.
  apply dict_set_keys_elem in I as [E | I].
  - apply (S (frame_id st0)). rewrite <- E.
    apply list_elem_of_further, list_elem_of_further, list_elem_of_here.
  - apply (main_loop_log_keys np_sqrt loaded cs) in I as [I | [fid I]];
      [by apply N|].
    apply (S fid). by do 3 apply list_elem_of_further.
Qed.

Lemma run_log_later_time loaded cs final_stamp :
  let st0 := final_state (main_loop np_sqrt cs (init loaded)) in
  "nearest_encounter" ∈ dict_keys loaded ->
  final_stamp ∉ dict_keys loaded ->
  (forall fid, Snapshot fid final_stamp ∉ trace st0) ->
  last (json_data (run np_sqrt loaded cs final_stamp))
  = Some (final_stamp, JObj (summary_snapshot (species_summary st0))).
Proof.
  intros st0 I N S. unfold run, finally. fold st0.
  cbn [json_data nearest_encounter save_json save_species_summary_to_json].
  rewrite (dict_set_new final_stamp).
  - rewrite dict_set_app_l; [apply last_snoc|].
    destruct (run_log_preserves np_sqrt
                (fun l => dict_keys loaded `prefix_of` dict_keys l)
                loaded cs final_stamp) as [[more E] _].
    + intros k d l P. etrans; [exact P | apply dict_set_keys_prefix].
    + done.
    + fold st0 in E. rewrite E. apply elem_of_app. by left.
  - intros K.
    apply (main_loop_log_keys np_sqrt loaded cs) in K as [K | [fid K]];
      [by apply N | by apply (S fid)].
Qed.
End DefaultSession.

(** X17.  After the first run on a log, the GUI opens on no data: when the
    loaded log is made of dicts and has no [nearest_encounter] entry yet,
    the last session [load_sessions] returns, which the GUI makes its
    current session, is the one made of the [nearest_encounter] entry; no
    position is computed for it, and its pie chart has the single slice
    [session_info] of count 0. *)
Theorem first_run_opens_on_nearest_encounter (np_sqrt : Z -> Q)
    (fs : Llm.files) (loaded : list (string * Py.json))
    (cs : list Insect.capture) (final_stamp : string) :
  let st := Insect.run np_sqrt loaded cs final_stamp in
  let sessions :=
    Llm.load_sessions (<[Llm.LOG_PATH := Py.Ok (Py.JObj (Insect.json_data st))]> fs) in
  all_dicts loaded ->
  "nearest_encounter" ∉ Py.dict_keys loaded ->
  (forall fid, Insect.Snapshot fid "nearest_encounter" ∉ Insect.trace st) ->
  exists sess,
    LlmRest.current_session sessions = Py.JObj sess /\
    Llm.session_id (Py.JObj sess) = Some (Py.JStr "nearest_encounter") /\
    LlmRest.compute_angles_and_distances sess = [] /\
    LlmRest.per_label sess = [("session_info", Py.JInt 0)].
Proof.
  intros st sessions A N S.
  destruct (run_log_first_time np_sqrt loaded cs final_stamp N S)
    as [earlier E].
  destruct (run_log_preserves np_sqrt all_dicts loaded cs final_stamp) as [_ A'].
  { intros k d l. apply dict_set_all_dicts. }
  { exact A. }
  fold st in E, A'.
  destruct (Insect.nearest_json (Insect.nearest_encounter st)) as [| | | | | |fields]
    eqn:J; try discriminate J.
  assert (L : last (Insect.json_data st) = Some ("nearest_encounter", Py.JObj fields)).
  { rewrite E. apply last_snoc. }
  subst sessions. rewrite (current_session_last fs _ _ _ A' L).
  eexists. split; [reflexivity|]. split; [apply session_of_id|].
  exact (nearest_session_positions _ _ _ J).
Qed.

Lemma first_run_opens_on_nearest_encounter_witness :
  let st :=
    Insect.run sqrt_floor [] two_close_insects "2025-06-01T10:00:02.000000" in
  exists sess,
    LlmRest.current_session
      (Llm.load_sessions
         (<[Llm.LOG_PATH := Py.Ok (Py.JObj (Insect.json_data st))]> ∅))
    = Py.JObj sess /\
    Llm.session_id (Py.JObj sess) = Some (Py.JStr "nearest_encounter") /\
    LlmRest.compute_angles_and_distances sess = [] /\
    LlmRest.per_label sess = [("session_info", Py.JInt 0)].
Proof.
  apply (first_run_opens_on_nearest_encounter sqrt_floor ∅ [] two_close_insects
           "2025-06-01T10:00:02.000000").
  - apply Forall_nil_2.
  - apply not_elem_of_nil.
  - intros fid I. vm_compute in I.
    repeat (apply elem_of_cons in I as [I | I]; [discriminate I|]).
    by apply elem_of_nil in I.
Defined.

(** X18.  On a log that already has its [nearest_encounter] entry, a run
    whose final timestamp is new leaves its final snapshot last in the log:
    the GUI opens on the session of that snapshot, and plots for each label
    that [detect] found on the frames of the run the angle and distance of
    the first and of the last of these detections, as the log holds them
    (rounded twice). *)
Theorem later_run_opens_on_final_snapshot (np_sqrt : Z -> Q)
    (fs : Llm.files) (loaded : list (string * Py.json))
    (cs : list Insect.capture) (final_stamp : string) :
  let st0 := Insect.final_state (Insect.main_loop np_sqrt cs (Insect.init loaded)) in
  let st := Insect.run np_sqrt loaded cs final_stamp in
  let sessions :=
    Llm.load_sessions (<[Llm.LOG_PATH := Py.Ok (Py.JObj (Insect.json_data st))]> fs) in
  all_dicts loaded ->
  "nearest_encounter" ∈ Py.dict_keys loaded ->
  final_stamp ∉ Py.dict_keys loaded ->
  (forall fid, Insect.Snapshot fid final_stamp ∉ Insect.trace st0) ->
  exists sess,
    LlmRest.current_session sessions = Py.JObj sess /\
    Llm.session_id (Py.JObj sess) = Some (Py.JStr final_stamp) /\
    forall lbl,
      Py.dict_get lbl (LlmRest.compute_angles_and_distances sess)
      = if bool_decide (lbl ∈ ["session_info"; "video_reference"]) then None
        else expected_position lbl
               (detections_of (sighted np_sqrt cs (Insect.init loaded))).
Proof.
  intros st0 st sessions A I N S.
  pose proof (run_log_later_time np_sqrt loaded cs final_stamp I N S) as L.
  destruct (run_log_preserves np_sqrt all_dicts loaded cs final_stamp) as [_ A'].
  { intros k d l. apply dict_set_all_dicts. }
  { exact A. }
  subst sessions st. rewrite (current_session_last fs _ _ _ A' L).
  eexists. split; [reflexivity|]. split; [apply session_of_id|].
  intros lbl. rewrite <- detections_of_sighted.
  apply snapshot_session_positions.
  apply (main_loop_log_invariant np_sqrt cs loaded).
Qed.

Lemma later_run_opens_on_final_snapshot_witness :
  let loaded :=
    [ ("2025-05-31T09:00:00.000000", Py.JObj []);
      ("nearest_encounter", Py.JObj [("distance_m", Py.JFloat Py.Infinity)]) ] in
  let st :=
    Insect.run sqrt_floor loaded two_close_insects "2025-06-01T10:00:02.000000" in
  exists sess,
    LlmRest.current_session
      (Llm.load_sessions
         (<[Llm.LOG_PATH := Py.Ok (Py.JObj (Insect.json_data st))]> ∅))
    = Py.JObj sess /\
    Llm.session_id (Py.JObj sess)
    = Some (Py.JStr "2025-06-01T10:00:02.000000").
Proof.
  intros loaded st.
  destruct (later_run_opens_on_final_snapshot sqrt_floor ∅ loaded
              two_close_insects "2025-06-01T10:00:02.000000")
    as (sess & C & Hid & _).
  - repeat (apply Forall_cons; split; [by eexists|]). apply Forall_nil_2.
  - apply list_elem_of_further, list_elem_of_here.
  - intros I. vm_compute in I.
    repeat (apply elem_of_cons in I as [I | I]; [discriminate I|]).
    by apply elem_of_nil in I.
  - intros fid I. vm_compute in I.
    repeat (apply elem_of_cons in I as [I | I]; [discriminate I|]).
    by apply elem_of_nil in I.
  - exists sess. split; [exact C | exact Hid].
Defined.

(** ** The angle of the polar plot *)

Section NormalizeAngle.
Import Py LlmRest.

Lemma mod_360_bounds (a : Q) :
  0 <= a - 360 * inject_Z (Qfloor (a / 360)) < 360.
Proof.
  pose proof (Qfloor_le (a / 360)) as L.
  pose proof (Qlt_floor (a / 360)) as U.
  rewrite inject_Z_plus in U. change (inject_Z 1) with 1 in U.
  assert (E : a == 360 * (a / 360)) by field.
  revert L U E. generalize (a / 360) (inject_Z (Qfloor (a / 360))).
  intros x z L U E. split; lra.
Qed.

Lemma mod_360_small (a : Q) :
  0 <= a -> a < 360 -> Qfloor (a / 360) = 0%Z.
Proof.
  intros L U.
  assert (B : 0 <= a / 360 < 1).
  { assert (E : a == 360 * (a / 360)) by field.
    revert E. generalize (a / 360). intros x E. split; lra. }
  pose proof (Qfloor_le (a / 360)) as F1.
  pose proof (Qlt_floor (a / 360)) as F2.
  rewrite inject_Z_plus in F2. change (inject_Z 1) with 1 in F2.
  assert (H1 : inject_Z (Qfloor (a / 360)) < inject_Z 1) by (change (inject_Z 1) with 1; lra).
  assert (H2 : inject_Z (-1) < inject_Z (Qfloor (a / 360))).
  { change (inject_Z (-1)) with (-1). lra. }
  rewrite <- Zlt_Qlt in H1, H2. lia.
Qed.
End NormalizeAngle.

(** X19.  [normalize_angle] shifts its argument by a multiple of 180 degrees
    into the interval from -180 (excluded) to 90 (included); it does not
    always land between -90 and 90, the range the polar plot is limited
    to: 200 degrees become -160. *)
Theorem normalize_angle_range (a : Q) :
  (-180 < LlmRest.normalize_angle a <= 90 /\
   exists k : Z, LlmRest.normalize_angle a == a - 180 * inject_Z k) /\
  LlmRest.normalize_angle 200 == -160.
Proof.
  split; [|vm_compute; reflexivity].
  unfold LlmRest.normalize_angle.
  pose proof (mod_360_bounds a) as [L U].
  set (q := Qfloor (a / 360)) in *.
  set (m := a - 360 * inject_Z q) in *.
  destruct (Py.Qlt_bool 180 m) eqn:B1.
  - apply Qlt_bool_iff in B1.
    destruct (Py.Qlt_bool 90 (m - 360)) eqn:B2.
    + apply Qlt_bool_iff in B2. lra.
    + apply Qlt_bool_false in B2. split; [lra|].
      exists (2 * q + 2)%Z. subst m.
      rewrite inject_Z_plus, inject_Z_mult.
      change (inject_Z 2) with 2. ring.
  - apply Qlt_bool_false in B1.
    destruct (Py.Qlt_bool 90 m) eqn:B2.
    + apply Qlt_bool_iff in B2. split; [lra|].
      exists (2 * q + 1)%Z. subst m.
      rewrite inject_Z_plus, inject_Z_mult.
      change (inject_Z 2) with 2. change (inject_Z 1) with 1. ring.
    + apply Qlt_bool_false in B2. split; [lra|].
      exists (2 * q)%Z. subst m. rewrite inject_Z_mult.
      change (inject_Z 2) with 2. ring.
Qed.

(** X20.  On the angles the capture program logs, between 0 and 180
    degrees, [normalize_angle] keeps an angle of at most 90 degrees and
    takes 180 degrees off a larger one, so that the result lies between -90
    (excluded) and 90 degrees: the right half of the frame, from 90 to 180
    degrees, is plotted on the negative side. *)
Theorem normalize_angle_of_logged_angle (a : Q) :
  0 <= a <= 180 ->
  LlmRest.normalize_angle a == (if Py.Qlt_bool 90 a then a - 180 else a) /\
  -90 < LlmRest.normalize_angle a <= 90.
Proof.
  intros [L U]. unfold LlmRest.normalize_angle.
  rewrite (mod_360_small a) by lra.
  assert (E : a - 360 * inject_Z 0 == a).
  { change (inject_Z 0) with 0. ring. }
  destruct (Py.Qlt_bool 180 (a - 360 * inject_Z 0)) eqn:B1.
  { apply Qlt_bool_iff in B1. lra. }
  destruct (Py.Qlt_bool 90 (a - 360 * inject_Z 0)) eqn:B2;
    destruct (Py.Qlt_bool 90 a) eqn:B3;
    repeat match goal with
           | H : Py.Qlt_bool _ _ = true |- _ => apply Qlt_bool_iff in H
           | H : Py.Qlt_bool _ _ = false |- _ => apply Qlt_bool_false in H
           end; split; lra.
Qed.

Lemma normalize_angle_of_logged_angle_witness :
  LlmRest.normalize_angle 135 == (if Py.Qlt_bool 90 135 then 135 - 180 else 135) /\
  -90 < LlmRest.normalize_angle 135 <= 90.
Proof.
  apply (normalize_angle_of_logged_angle 135). split; lra.
Defined.
